(** * Document retrieval and caching pipeline of the chatbot

    A shallow embedding of [retriever.py], [document_loader.py] and
    [document_loader_with_ocr.py], and the properties of the retrieval
    and caching core that the specification states about them.

    Conventions of the embedding.
    - A Python [str] is a [string]; case mapping and the character
      classes of [re] are the ones of 7-bit ASCII text.
    - A Python [float] score is a rational number [Q]; comparisons are
      the exact ones.
    - A Python [int] is a [Z]; list slicing follows Python for negative
      bounds.
    - A computation that can raise returns a [result]; [try]/[except
      Exception] is [try_except].
    - scikit-learn, NumPy, hashlib, json, glob and the PDF/OCR libraries
      are not part of the repository: they are variables of the sections
      that use them. *)

From Stdlib Require Import QArith Ascii String DecimalString Sorted Permutation.
From stdpp Require Import base list strings gmap sorting.

Open Scope string_scope.

(** ** Python primitives *)

Module Py.

(** Exceptions that the modelled code can meet. *)
Inductive exn : Type :=
  | KeyError (key : string)
  | IndexError
  | AttributeError
  | OSError (path : string)
  | UnicodeDecodeError
  | LibraryError (msg : string)
  | Exception (msg : string).

Inductive result (A : Type) : Type :=
  | Ok (a : A)
  | Raise (e : exn).
Arguments Ok {A} a.
Arguments Raise {A} e.

Definition bind {A B} (m : result A) (f : A -> result B) : result B :=
  match m with
  | Ok a => f a
  | Raise e => Raise e
  end.

(** [try: m  except Exception as e: h e] *)
Definition try_except {A} (m : result A) (h : exn -> result A) : result A :=
  match m with
  | Ok a => Ok a
  | Raise e => h e
  end.

(** [str(e)] *)
Definition str_exn (e : exn) : string :=
  match e with
  | KeyError k => "'" ++ k ++ "'"
  | IndexError => "list index out of range"
  | AttributeError => "object has no attribute"
  | OSError p => "cannot open " ++ p
  | UnicodeDecodeError => "codec can't decode"
  | LibraryError m => m
  | Exception m => m
  end.

Fixpoint map_result {A B} (f : A -> result B) (l : list A) : result (list B) :=
  match l with
  | [] => Ok []
  | x :: t =>
      match f x with
      | Raise e => Raise e
      | Ok y => match map_result f t with
                | Raise e => Raise e
                | Ok ys => Ok (y :: ys)
                end
      end
  end.

(** *** Characters and strings *)

Definition code (c : ascii) : nat := nat_of_ascii c.

Definition between (lo hi n : nat) : bool := (lo <=? n)%nat && (n <=? hi)%nat.

Definition is_upper (c : ascii) : bool := between 65 90 (code c).
Definition is_lower (c : ascii) : bool := between 97 122 (code c).
(** [\d] *)
Definition is_digit (c : ascii) : bool := between 48 57 (code c).
(** [\w]: letters, digits and the underscore *)
Definition is_word (c : ascii) : bool :=
  is_upper c || is_lower c || is_digit c || (code c =? 95)%nat.
(** [\s] and [str.split]: tab, newline, vertical tab, form feed, carriage
    return, the four separators 28..31 and the space *)
Definition is_space (c : ascii) : bool :=
  between 9 13 (code c) || between 28 32 (code c).

Definition lower_char (c : ascii) : ascii :=
  if is_upper c then ascii_of_nat (code c + 32) else c.

(** [s.lower()] *)
Fixpoint lower (s : string) : string :=
  match s with
  | "" => ""
  | String c t => String (lower_char c) (lower t)
  end.

(** [len(s)] *)
Definition len (s : string) : nat := String.length s.

(** [s[:n]] for [0 <= n] *)
Fixpoint str_take (n : nat) (s : string) : string :=
  match n, s with
  | O, _ => ""
  | S _, "" => ""
  | S n', String c t => String c (str_take n' t)
  end.

Fixpoint str_drop (n : nat) (s : string) : string :=
  match n, s with
  | O, _ => s
  | S _, "" => ""
  | S n', String _ t => str_drop n' t
  end.

Definition str_head (s : string) : option ascii :=
  match s with
  | "" => None
  | String c _ => Some c
  end.

(** [s.startswith(p)] *)
Fixpoint startswith (p s : string) : bool :=
  match p, s with
  | "", _ => true
  | String _ _, "" => false
  | String a p', String b s' => Ascii.eqb a b && startswith p' s'
  end.

(** [needle in hay] on strings: [needle] occurs at some position. *)
Fixpoint str_in (needle hay : string) : bool :=
  startswith needle hay ||
  match hay with
  | "" => false
  | String _ t => str_in needle t
  end.

(** [s.strip()] is truthy: some character is not white space. *)
Fixpoint strip_nonempty (s : string) : bool :=
  match s with
  | "" => false
  | String c t => negb (is_space c) || strip_nonempty t
  end.

(** [s.split()]: the maximal runs of characters that are not white
    space; [cur] is the run being read. *)
Fixpoint split_from (cur : string) (s : string) : list string :=
  match s with
  | "" => if String.eqb cur "" then [] else [cur]
  | String c t =>
      if is_space c
      then (if String.eqb cur "" then split_from "" t
            else cur :: split_from "" t)
      else split_from (cur ++ String c "") t
  end.

Definition split (s : string) : list string := split_from "" s.

(** [sep.join(l)] *)
Definition join (sep : string) (l : list string) : string :=
  String.concat sep l.

(** *** Slices and numbers *)

(** [l[:k]]: a negative [k] counts from the end. *)
Definition slice_to {A} (l : list A) (k : Z) : list A :=
  if (0 <=? k)%Z then take (Z.to_nat k) l
  else take (Z.to_nat (Z.of_nat (length l) + k)) l.

Definition Qltb (x y : Q) : bool := negb (Qle_bool y x).

(** [min(a, b)] and [max(a, b)]: the first argument wins a tie. *)
Definition min (a b : Q) : Q := if Qltb b a then b else a.
Definition max (a b : Q) : Q := if Qltb a b then b else a.

(** *** The three regular expressions of the date patterns *)

(** [\b] between the characters [prev] and [next]. *)
Definition is_word_opt (c : option ascii) : bool :=
  match c with
  | Some a => is_word a
  | None => false
  end.

Definition word_boundary (prev next : option ascii) : bool :=
  xorb (is_word_opt prev) (is_word_opt next).

Fixpoint all_digits (s : string) : bool :=
  match s with
  | "" => true
  | String c t => is_digit c && all_digits t
  end.

(** [\d{n}] at the head of [s] *)
Definition digits_at (n : nat) (s : string) : bool :=
  (len (str_take n s) =? n)%nat && all_digits (str_take n s).

(** the last character of the [n] first ones of [s] *)
Definition char_at (n : nat) (s : string) : option ascii :=
  str_head (str_drop n s).

(** [\b] after [n] matched characters, [1 <= n] *)
Definition boundary_after (n : nat) (s : string) : bool :=
  word_boundary (char_at (n - 1) s) (char_at n s).

(** the length of the leading run of white space: [\s+] is greedy and
    what follows it in the pattern is a digit *)
Fixpoint count_space (s : string) : nat :=
  match s with
  | "" => O
  | String c t => if is_space c then S (count_space t) else O
  end.

Definition months : list string :=
  ["january"; "february"; "march"; "april"; "may"; "june"; "july";
   "august"; "september"; "october"; "november"; "december"].

Fixpoint first_some {A B} (f : A -> option B) (l : list A) : option B :=
  match l with
  | [] => None
  | x :: t => match f x with
              | Some y => Some y
              | None => first_some f t
              end
  end.

(** [\b(?:january|...|december)\s+\d{4}\b]: the length of the match that
    starts at the head of [s], when there is one. *)
Definition match_month_year (prev : option ascii) (s : string) : option nat :=
  if word_boundary prev (str_head s) then
    first_some
      (fun m =>
         if startswith m s then
           let n := count_space (str_drop (len m) s) in
           let k := (len m + n)%nat in
           if (1 <=? n)%nat && digits_at 4 (str_drop k s)
              && boundary_after (k + 4) s
           then Some (k + 4)%nat else None
         else None)
      months
  else None.

Definition is_sep (c : option ascii) : bool :=
  match c with
  | Some a => (code a =? 47)%nat || (code a =? 45)%nat
  | None => false
  end.

(** [\b\d{1,2}[/-]\d{4}\b]: two leading digits are tried before one. *)
Definition match_short_year (prev : option ascii) (s : string) : option nat :=
  if word_boundary prev (str_head s) then
    if digits_at 2 s && is_sep (char_at 2 s) && digits_at 4 (str_drop 3 s)
       && boundary_after 7 s
    then Some 7%nat
    else if digits_at 1 s && is_sep (char_at 1 s) && digits_at 4 (str_drop 2 s)
            && boundary_after 6 s
    then Some 6%nat
    else None
  else None.

(** [\b\d{4}[/-]\d{1,2}\b]: two trailing digits are tried before one. *)
Definition match_year_short (prev : option ascii) (s : string) : option nat :=
  if word_boundary prev (str_head s) then
    if digits_at 4 s && is_sep (char_at 4 s) then
      if digits_at 2 (str_drop 5 s) && boundary_after 7 s then Some 7%nat
      else if digits_at 1 (str_drop 5 s) && boundary_after 6 s then Some 6%nat
      else None
    else None
  else None.

(** [re.findall]: the matches from left to right, the search resuming
    where a match ends; [skip] characters are still inside the last
    match. *)
Fixpoint findall_from (m : option ascii -> string -> option nat)
    (prev : option ascii) (skip : nat) (s : string) : list string :=
  match s with
  | "" => []
  | String c t =>
      match skip with
      | S k => findall_from m (Some c) k t
      | O =>
          match m prev s with
          | Some n => str_take n s :: findall_from m (Some c) (n - 1) t
          | None => findall_from m (Some c) O t
          end
      end
  end.

Definition findall (m : option ascii -> string -> option nat) (s : string)
  : list string := findall_from m None O s.

(** [re.sub(r'[^\w\s]', ' ', s)] *)
Fixpoint sub_punct (s : string) : string :=
  match s with
  | "" => ""
  | String c t =>
      String (if is_word c || is_space c then c else " "%char) (sub_punct t)
  end.

End Py.

(** ** The retriever ([retriever.py]) *)

Module Retriever.
Import Py.

(** ['match_type'] of a result: ['exact'], ['tfidf'] or ['hybrid']. *)
Inductive match_kind : Type := exact | tfidf | hybrid.

(** A document dictionary. A key that the code reads with [doc[...]] or
    [doc.get(...)] may be absent. *)
Record Doc : Type := mkDoc {
  file_name : option string;
  file_path : option string;
  content : option string;
  file_type : option string;
  similarity_score : option Q;
  match_type : option match_kind
}.

(** [doc['similarity_score'] = s] and [doc['match_type'] = k] *)
Definition set_score (s : Q) (d : Doc) : Doc :=
  mkDoc (file_name d) (file_path d) (content d) (file_type d) (Some s)
        (match_type d).

Definition set_match_type (k : match_kind) (d : Doc) : Doc :=
  mkDoc (file_name d) (file_path d) (content d) (file_type d)
        (similarity_score d) (Some k).

(** [doc['file_name']] and [doc['similarity_score']] *)
Definition get_file_name (d : Doc) : result string :=
  match file_name d with
  | Some n => Ok n
  | None => Raise (KeyError "file_name")
  end.

Definition get_score (d : Doc) : result Q :=
  match similarity_score d with
  | Some s => Ok s
  | None => Raise (KeyError "similarity_score")
  end.

(** [doc.get('content', '')] *)
Definition get_content (d : Doc) : string := default "" (content d).

(** *** Insertion-ordered dictionaries keyed by file name *)

Definition dict : Type := list (string * Doc).

(** [d[k] = v]: a present key keeps its place, a new key goes last. *)
Fixpoint dict_set (k : string) (v : Doc) (d : dict) : dict :=
  match d with
  | [] => [(k, v)]
  | (k', v') :: t =>
      if String.eqb k k' then (k, v) :: t else (k', v') :: dict_set k v t
  end.

Fixpoint dict_get (k : string) (d : dict) : option Doc :=
  match d with
  | [] => None
  | (k', v') :: t => if String.eqb k k' then Some v' else dict_get k t
  end.

(** [list(d.values())] *)
Definition dict_values (d : dict) : list Doc := map snd d.

(** *** Stable sorts *)

(** [l.sort(key=..., reverse=True)] on the pairs (key, element): equal
    keys keep the order they had in [l]. *)
Fixpoint insert_desc {A} (x : Q * A) (l : list (Q * A)) : list (Q * A) :=
  match l with
  | [] => [x]
  | y :: t =>
      if Qltb (fst x) (fst y) then y :: insert_desc x t else x :: y :: t
  end.

Fixpoint sort_desc {A} (l : list (Q * A)) : list (Q * A) :=
  match l with
  | [] => []
  | x :: t => insert_desc x (sort_desc t)
  end.

Fixpoint insert_asc {A} (x : Q * A) (l : list (Q * A)) : list (Q * A) :=
  match l with
  | [] => [x]
  | y :: t =>
      if Qltb (fst y) (fst x) then y :: insert_asc x t else x :: y :: t
  end.

Fixpoint sort_asc {A} (l : list (Q * A)) : list (Q * A) :=
  match l with
  | [] => []
  | x :: t => insert_asc x (sort_asc t)
  end.

(** One admissible [np.argsort]: the stable one, which is what NumPy's
    default sort does on short arrays (an insertion sort). *)
Definition stable_argsort (values : list Q) : list nat :=
  map snd (sort_asc (combine values (seq 0 (length values)))).

(** What every [np.argsort] guarantees: the indices of the array, each
    once, the values in ascending order along them. *)
Definition ascending_along (values : list Q) (idx : list nat) : Prop :=
  forall i j a b x y,
    (i < j)%nat -> idx !! i = Some a -> idx !! j = Some b ->
    values !! a = Some x -> values !! b = Some y -> (x <= y)%Q.

Definition argsort_spec (argsort : list Q -> list nat) : Prop :=
  forall values,
    Permutation (argsort values) (seq 0 (length values))
    /\ ascending_along values (argsort values).

(** *** Exact matching *)

(** [min(1.0, len(term) / 20.0 + 0.5)] *)
Definition term_score (term : string) : Q :=
  min 1%Q (inject_Z (Z.of_nat (len term)) / 20 + 0.5)%Q.

(** The loop over [search_terms] for one document: [(match_found,
    max_score)]. *)
Fixpoint scan_terms (content_lower : string) (terms : list string)
    (st : bool * Q) : bool * Q :=
  match terms with
  | [] => st
  | term :: rest =>
      if str_in term content_lower
      then scan_terms content_lower rest (true, max (snd st) (term_score term))
      else scan_terms content_lower rest st
  end.

Definition exact_match (search_terms : list string) (doc : Doc) : option Doc :=
  let content_lower := lower (get_content doc) in
  let st := scan_terms content_lower search_terms (false, 0%Q) in
  if fst st then Some (set_match_type exact (set_score (snd st) doc))
  else None.

Definition date_patterns (query_lower : string) : list string :=
  findall match_month_year query_lower
  ++ findall match_short_year query_lower
  ++ findall match_year_short query_lower.

Definition search_terms (query : string) : list string :=
  lower query :: date_patterns (lower query).

Definition exact_matches (query : string) (docs : list Doc) : list Doc :=
  omap (exact_match (search_terms query)) docs.

(** *** TF-IDF matching *)

(** The loop over [top_indices]. *)
Fixpoint tfidf_loop (docs : list Doc) (similarities : list Q)
    (top_indices : list nat) : result (list Doc) :=
  match top_indices with
  | [] => Ok []
  | idx :: rest =>
      match similarities !! idx with
      | None => Raise IndexError
      | Some s =>
          if Qltb 0.05%Q s then
            match docs !! idx with
            | None => Raise IndexError
            | Some d =>
                bind (tfidf_loop docs similarities rest) (fun ms =>
                Ok (set_match_type tfidf (set_score s d) :: ms))
            end
          else tfidf_loop docs similarities rest
      end
  end.

(** *** Combining the two lists *)

Fixpoint add_exact (ms : list Doc) (all_matches : dict) : result dict :=
  match ms with
  | [] => Ok all_matches
  | doc :: rest =>
      bind (get_file_name doc) (fun fn =>
      add_exact rest (dict_set fn doc all_matches))
  end.

Fixpoint add_tfidf (ms : list Doc) (all_matches : dict) : result dict :=
  match ms with
  | [] => Ok all_matches
  | doc :: rest =>
      bind (get_file_name doc) (fun fn =>
      match dict_get fn all_matches with
      | None => add_tfidf rest (dict_set fn doc all_matches)
      | Some cur =>
          bind (get_score cur) (fun sc =>
          bind (get_score doc) (fun sd =>
          if Qltb sc sd
          then add_tfidf rest
                 (dict_set fn (set_match_type hybrid (set_score (max sc sd) cur))
                           all_matches)
          else add_tfidf rest all_matches))
      end)
  end.

(** [relevant_docs.sort(key=lambda x: x['similarity_score'], reverse=True)] *)
Definition sort_by_score (l : list Doc) : result (list Doc) :=
  bind (map_result get_score l) (fun keys =>
  Ok (map snd (sort_desc (combine keys l)))).

(** [unique_results.sort(key=lambda x: x.get('similarity_score', 0),
    reverse=True)] *)
Definition sort_by_score_default (l : list Doc) : list Doc :=
  map snd (sort_desc (map (fun x => (default 0%Q (similarity_score x), x)) l)).

(** *** Key terms of a question *)

Definition question_words : list string :=
  ["what"; "is"; "are"; "how"; "when"; "where"; "why"; "who"; "which";
   "the"; "a"; "an"].

Definition is_key_term (word : string) : bool :=
  negb (existsb (String.eqb word) question_words) && (2 <? len word)%nat.

Definition extract_key_terms (query_text : string) : string :=
  let cleaned := sub_punct (lower query_text) in
  let words := split cleaned in
  join " " (filter (fun w => is_key_term w = true) words).

(** *** Removing duplicates *)

(** [(doc['file_name'], doc.get('content', '')[:100])] *)
Definition doc_id (d : Doc) : result (string * string) :=
  bind (get_file_name d) (fun fn => Ok (fn, str_take 100 (get_content d))).

Definition id_eqb (a b : string * string) : bool :=
  String.eqb (fst a) (fst b) && String.eqb (snd a) (snd b).

Fixpoint unique_from (seen : list (string * string)) (l : list Doc)
  : result (list Doc) :=
  match l with
  | [] => Ok []
  | d :: rest =>
      bind (doc_id d) (fun i =>
      if existsb (id_eqb i) seen then unique_from seen rest
      else bind (unique_from (i :: seen) rest) (fun u => Ok (d :: u)))
  end.

Definition is_empty {A} (l : list A) : bool :=
  match l with
  | [] => true
  | _ :: _ => false
  end.

(** *** The class [SimpleRetriever] *)

Record SimpleRetriever (Vectorizer DocVectors : Type) : Type := mkRetriever {
  documents : list Doc;
  use_cache : bool;
  cache_dir : string;
  vectorizer : Vectorizer;
  doc_vectors : option DocVectors
}.
Arguments mkRetriever {Vectorizer DocVectors}.
Arguments documents {Vectorizer DocVectors}.
Arguments use_cache {Vectorizer DocVectors}.
Arguments cache_dir {Vectorizer DocVectors}.
Arguments vectorizer {Vectorizer DocVectors}.
Arguments doc_vectors {Vectorizer DocVectors}.

(** The pickle files of the index cache, by cache key: no entry when
    the file is absent, [Raise] when it cannot be loaded. *)
Record IndexCache (Vectorizer DocVectors : Type) : Type := mkIndexCache {
  dir_exists : bool;
  writable : bool;
  vectorizer_pkl : gmap string (result Vectorizer);
  vectors_pkl : gmap string (result DocVectors);
  documents_pkl : gmap string (result (list Doc))
}.
Arguments mkIndexCache {Vectorizer DocVectors}.
Arguments dir_exists {Vectorizer DocVectors}.
Arguments writable {Vectorizer DocVectors}.
Arguments vectorizer_pkl {Vectorizer DocVectors}.
Arguments vectors_pkl {Vectorizer DocVectors}.
Arguments documents_pkl {Vectorizer DocVectors}.

Section Search.

Variables Vectorizer DocVectors : Type.

(** [vectorizer.transform([query])] followed by
    [cosine_similarity(query_vector, doc_vectors).flatten()]: one score
    per row of [doc_vectors]. *)
Variable cosine_scores : Vectorizer -> DocVectors -> string -> result (list Q).

(** [np.argsort] *)
Variable argsort : list Q -> list nat.

(** A fresh [TfidfVectorizer(stop_words='english', max_features=1000)]
    and its [fit_transform]. *)
Variable new_vectorizer : Vectorizer.
Variable fit_transform :
  Vectorizer -> list string -> result (Vectorizer * DocVectors).

(** [hashlib.md5()], [update] and [hexdigest]. *)
Variable Md5 : Type.
Variable md5_new : Md5.
Variable md5_update : Md5 -> string -> Md5.
Variable md5_hexdigest : Md5 -> string.

Abbreviation retriever := (SimpleRetriever Vectorizer DocVectors).
Abbreviation index_cache := (IndexCache Vectorizer DocVectors).

Definition get_cache_key (docs : list Doc) : string :=
  str_take 12
    (md5_hexdigest
       (fold_left (fun h doc => md5_update h (get_content doc)) docs md5_new)).

Definition load_from_cache (cache : index_cache) (cache_key : string)
  : option (Vectorizer * DocVectors) :=
  match vectorizer_pkl cache !! cache_key, vectors_pkl cache !! cache_key,
        documents_pkl cache !! cache_key with
  | Some v, Some dv, Some ds =>
      match v, dv, ds with
      | Ok v', Ok dv', Ok _ => Some (v', dv')
      | _, _, _ => None
      end
  | _, _, _ => None
  end.

Definition save_to_cache (cache : index_cache) (cache_key : string)
    (docs : list Doc) (v : Vectorizer) (dv : DocVectors) : index_cache :=
  if writable cache then
    mkIndexCache (dir_exists cache) (writable cache)
      (<[cache_key := Ok v]> (vectorizer_pkl cache))
      (<[cache_key := Ok dv]> (vectors_pkl cache))
      (<[cache_key := Ok docs]> (documents_pkl cache))
  else cache.

Definition build_index (self : retriever) (cache : index_cache)
  : result (retriever * index_cache) :=
  if is_empty (documents self) then Ok (self, cache)
  else
    match (if use_cache self
           then load_from_cache cache (get_cache_key (documents self))
           else None) with
    | Some (v, dv) =>
        Ok (mkRetriever (documents self) (use_cache self) (cache_dir self)
              v (Some dv), cache)
    | None =>
        bind (fit_transform (vectorizer self)
                (map get_content (documents self))) (fun r =>
        let self' := mkRetriever (documents self) (use_cache self)
                       (cache_dir self) (fst r) (Some (snd r)) in
        Ok (self',
            if use_cache self
            then save_to_cache cache (get_cache_key (documents self))
                   (documents self) (fst r) (snd r)
            else cache))
    end.

(** [SimpleRetriever(documents, use_cache)] *)
Definition init (docs : list Doc) (use : bool) (cache : index_cache)
  : result (retriever * index_cache) :=
  bind (if dir_exists cache then Ok cache
        else if writable cache
        then Ok (mkIndexCache true (writable cache) (vectorizer_pkl cache)
                   (vectors_pkl cache) (documents_pkl cache))
        else Raise (OSError "cache")) (fun cache' =>
  build_index (mkRetriever docs use "cache" new_vectorizer None) cache').

Definition similarities (self : retriever) (query : string)
  : result (list Q) :=
  match doc_vectors self with
  | None => Raise (LibraryError "not fitted")
  | Some dv => cosine_scores (vectorizer self) dv query
  end.

(** [np.argsort(similarities)[::-1][:actual_k]] *)
Definition top_indices (sims : list Q) (num_docs : nat) (top_k : Z)
  : list nat :=
  let actual_k := Z.min top_k (Z.of_nat num_docs) in
  slice_to (rev (argsort sims)) actual_k.

Definition tfidf_matches (self : retriever) (sims : list Q) (top_k : Z)
  : result (list Doc) :=
  tfidf_loop (documents self) sims
    (top_indices sims (length (documents self)) top_k).

(** The body of the [try] of [_search_with_query], up to the sorted
    [relevant_docs]. *)
Definition relevant_docs (self : retriever) (query : string) (top_k : Z)
  : result (list Doc) :=
  let exact := exact_matches query (documents self) in
  bind (similarities self query) (fun sims =>
  bind (tfidf_matches self sims top_k) (fun tf =>
  bind (add_exact exact []) (fun all1 =>
  bind (add_tfidf tf all1) (fun all_matches =>
  sort_by_score (dict_values all_matches))))).

(** ... and its last line, [return relevant_docs[:top_k]]. *)
Definition search_body (self : retriever) (query : string) (top_k : Z)
  : result (list Doc) :=
  bind (relevant_docs self query top_k) (fun docs =>
  Ok (slice_to docs top_k)).

Definition _search_with_query (self : retriever) (query : string)
    (top_k : Z) : result (list Doc) :=
  try_except (search_body self query top_k) (fun _ => Ok []).

(** Strategy 3: the significant words one by one, until one finds
    something. *)
Fixpoint search_words (self : retriever) (top_k : Z) (words : list string)
    (all_results : list Doc) : result (list Doc) :=
  match words with
  | [] => Ok all_results
  | word :: rest =>
      if (4 <? len word)%nat then
        bind (_search_with_query self word top_k) (fun word_results =>
        if is_empty word_results
        then search_words self top_k rest (all_results ++ word_results)%list
        else Ok (all_results ++ word_results)%list)
      else search_words self top_k rest all_results
  end.

(** The body of the [try] of [retrieve_relevant_chunks]. *)
Definition retrieve_body (self : retriever) (query : string) (top_k : Z)
  : result (list Doc) :=
  bind (_search_with_query self query top_k) (fun results1 =>
  bind (if is_empty results1 then
          let key_terms := extract_key_terms query in
          if negb (String.eqb key_terms "")
             && negb (String.eqb key_terms (lower query))
          then bind (_search_with_query self key_terms top_k) (fun results2 =>
               Ok (results1 ++ results2)%list)
          else Ok results1
        else Ok results1) (fun all_results =>
  bind (if is_empty all_results
        then search_words self top_k (split (extract_key_terms query))
               all_results
        else Ok all_results) (fun all_results' =>
  bind (unique_from [] all_results') (fun unique_results =>
  Ok (slice_to (sort_by_score_default unique_results) top_k))))).

Definition retrieve_relevant_chunks (self : retriever) (query : string)
    (top_k : Z) : result (list Doc) :=
  match doc_vectors self with
  | None => Ok []
  | Some _ =>
      if is_empty (documents self) then Ok []
      else try_except (retrieve_body self query top_k) (fun _ => Ok [])
  end.

End Search.

End Retriever.


(** ** The document loaders ([document_loader.py],
    [document_loader_with_ocr.py]) *)

Module Files.
Import Py.
Import Retriever.

(** *** The file system *)

Inductive node : Type :=
  | Dir
  | File (bytes : string)
  | Unreadable.

(** [can_write]: directories and files can be created. *)
Record FS : Type := mkFS {
  nodes : gmap string node;
  can_write : bool
}.

(** [os.path.exists] *)
Definition path_exists (fs : FS) (p : string) : bool :=
  match nodes fs !! p with
  | Some _ => true
  | None => false
  end.

(** [open(p).read()] *)
Definition read_file (fs : FS) (p : string) : result string :=
  match nodes fs !! p with
  | Some (File b) => Ok b
  | _ => Raise (OSError p)
  end.

(** Computations on the file system that can raise. The file system
    keeps what was done to it before an exception. *)
Definition M (A : Type) : Type := FS -> result A * FS.

Definition ret {A} (a : A) : M A := fun fs => (Ok a, fs).
Definition raise {A} (e : exn) : M A := fun fs => (Raise e, fs).
Definition lift {A} (r : FS -> result A) : M A := fun fs => (r fs, fs).

Definition bindM {A B} (m : M A) (f : A -> M B) : M B :=
  fun fs =>
    match m fs with
    | (Ok a, fs') => f a fs'
    | (Raise e, fs') => (Raise e, fs')
    end.

Definition tryM {A} (m : M A) (h : exn -> M A) : M A :=
  fun fs =>
    match m fs with
    | (Ok a, fs') => (Ok a, fs')
    | (Raise e, fs') => h e fs'
    end.

(** [os.makedirs(p)] *)
Definition makedirs (p : string) : M unit :=
  fun fs =>
    if can_write fs then (Ok tt, mkFS (<[p := Dir]> (nodes fs)) (can_write fs))
    else (Raise (OSError p), fs).

(** [with open(p, 'w') as f: f.write(data)] *)
Definition write_file (p data : string) : M unit :=
  fun fs =>
    if can_write fs
    then (Ok tt, mkFS (<[p := File data]> (nodes fs)) (can_write fs))
    else (Raise (OSError p), fs).

(** *** Paths *)

Definition slash : ascii := "/"%char.
Definition dot : ascii := "."%char.

(** [p.rfind(c)] from position [i], [last] being the answer so far *)
Fixpoint rfind_from (c : ascii) (i : nat) (last : option nat) (p : string)
  : option nat :=
  match p with
  | "" => last
  | String a t =>
      rfind_from c (S i) (if Ascii.eqb a c then Some i else last) t
  end.

Definition rfind (c : ascii) (p : string) : option nat :=
  rfind_from c O None p.

(** [os.path.basename] *)
Definition basename (p : string) : string :=
  match rfind slash p with
  | Some i => str_drop (S i) p
  | None => p
  end.

Fixpoint all_dots (s : string) : bool :=
  match s with
  | "" => true
  | String c t => Ascii.eqb c dot && all_dots t
  end.

(** [os.path.splitext]: the extension starts at the last dot of the last
    component, unless only dots come before it there. *)
Definition splitext (p : string) : string * string :=
  match rfind dot p with
  | None => (p, "")
  | Some d =>
      let start := match rfind slash p with
                   | Some i => S i
                   | None => O
                   end in
      if (start <=? d)%nat
         && negb (all_dots (str_take (d - start) (str_drop start p)))
      then (str_take d p, str_drop d p)
      else (p, "")
  end.

Definition ends_with_slash (p : string) : bool :=
  match rfind slash p with
  | Some i => (S i =? len p)%nat
  | None => false
  end.

(** [os.path.join(a, b)] *)
Definition path_join (a b : string) : string :=
  if startswith "/" b then b
  else if String.eqb a "" || ends_with_slash a then a ++ b
  else a ++ "/" ++ b.

(** *** JSON values *)

#[warnings="-register-all"] Inductive json : Type :=
  | JNull
  | JBool (b : bool)
  | JNum (n : Q)
  | JStr (s : string)
  | JArr (items : list json)
  | JObj (fields : list (string * json)).

Fixpoint assoc (k : string) (fields : list (string * json)) : option json :=
  match fields with
  | [] => None
  | (k', v) :: t => if String.eqb k k' then Some v else assoc k t
  end.

(** [value.get(key)]: only a dictionary has [get]; an absent key and a
    [null] both give [None]. *)
Definition json_get (value : json) (key : string) : result (option json) :=
  match value with
  | JObj fields =>
      match assoc key fields with
      | Some JNull => Ok None
      | r => Ok r
      end
  | _ => Raise AttributeError
  end.

(** [value == s] for a string [s] *)
Definition eq_str (value : option json) (s : string) : bool :=
  match value with
  | Some (JStr t) => String.eqb t s
  | _ => false
  end.

(** the truth value of what [load_from_cache] returned *)
Definition truthy (value : option json) : bool :=
  match value with
  | None => false
  | Some JNull => false
  | Some (JBool b) => b
  | Some (JNum n) => negb (Qeq_bool n 0)
  | Some (JStr s) => negb (String.eqb s "")
  | Some (JArr l) => negb (is_empty l)
  | Some (JObj l) => negb (is_empty l)
  end.

(** [value.strip()] is truthy; only a string has [strip]. *)
Definition strip_truthy (value : json) : result bool :=
  match value with
  | JStr s => Ok (strip_nonempty s)
  | _ => Raise AttributeError
  end.

(** [s.strip()] *)
Fixpoint lstrip (s : string) : string :=
  match s with
  | "" => ""
  | String c t => if is_space c then lstrip t else s
  end.

Fixpoint rstrip (s : string) : string :=
  match s with
  | "" => ""
  | String c t =>
      let r := rstrip t in
      if String.eqb r "" && is_space c then "" else String c r
  end.

Definition strip (s : string) : string := rstrip (lstrip s).

(** [str(n)] for a natural number *)
Definition str_nat (n : nat) : string :=
  NilEmpty.string_of_uint (Nat.to_uint n).

(** [read(4096)] until the end of the file *)
Fixpoint chunks_fuel (fuel size : nat) (s : string) : list string :=
  match fuel with
  | O => []
  | S f =>
      if String.eqb s "" then []
      else str_take size s :: chunks_fuel f size (str_drop size s)
  end.

Definition chunks (size : nat) (s : string) : list string :=
  chunks_fuel (len s) size s.

Definition nl : string := String (ascii_of_nat 10) "".

(** [if not os.path.exists(cache_dir): os.makedirs(cache_dir)] *)
Definition ensure_cache_dir : M unit :=
  fun fs => if path_exists fs "cache" then (Ok tt, fs) else makedirs "cache" fs.

(** [f"\n=== Page {n} ===\n{text.strip()}\n"] *)
Definition page_block (n : nat) (text : string) : string :=
  nl ++ "=== Page " ++ str_nat n ++ " ===" ++ nl ++ strip text ++ nl.

(** The OCR loop over the pages, numbered from [page_num]: a page that
    raises or has no text is skipped. The state is [(extracted_text,
    successful_pages)]. *)
Fixpoint ocr_pages (pages : list (result string)) (page_num : nat)
    (st : string * nat) : string * nat :=
  match pages with
  | [] => st
  | Ok text :: rest =>
      if strip_nonempty text
      then ocr_pages rest (S page_num)
             (fst st ++ page_block page_num text, S (snd st))
      else ocr_pages rest (S page_num) st
  | Raise _ :: rest => ocr_pages rest (S page_num) st
  end.

End Files.

(** *** [document_loader.py] *)

Module DocumentLoader.
Import Py.
Import Retriever.
Import Files.

(** What the loader takes from libraries and from the platform. *)
Record Libraries : Type := mkLibraries {
  (** [glob.glob] *)
  glob : FS -> string -> list string;
  (** [hashlib.md5()], [update] and [hexdigest] *)
  Md5 : Type;
  md5_new : Md5;
  md5_update : Md5 -> string -> Md5;
  md5_hexdigest : Md5 -> string;
  (** [json.load] of a file read as UTF-8, and [json.dumps] *)
  json_loads : string -> result json;
  json_dumps : json -> string;
  (** [str(os.path.getmtime(p))] *)
  getmtime_str : FS -> string -> result string;
  (** decoding as UTF-8; Latin-1 decodes every byte to itself *)
  utf8_decode : string -> option string;
  (** [PyPDF2.PdfReader(open(p, 'rb')).pages]: for each page what
      [extract_text()] gives *)
  pdf_reader : FS -> string -> result (list (result string));
  (** [OCR_AVAILABLE]; [fitz.open(p)]: for each page what rendering it
      and [pytesseract.image_to_string] give *)
  ocr_available : bool;
  fitz_open : FS -> string -> result (list (result string));
  (** [docx.Document(p)]: the blobs of the relations whose target
      mentions an image, and the texts of the paragraphs *)
  docx_document : FS -> string -> result (list (result string) * list string);
  (** [os.path.abspath] *)
  abspath : string -> string
}.

Section Loader.

Variable lib : Libraries.

Definition get_file_hash (file_path : string) : M string :=
  lift (fun fs =>
    bind (read_file fs file_path) (fun bytes =>
    Ok (md5_hexdigest lib
          (fold_left (md5_update lib) (chunks 4096 bytes) (md5_new lib))))).

Definition get_cache_path (file_path : string) : M string :=
  bindM ensure_cache_dir (fun _ =>
  let file_name := basename file_path in
  ret (path_join "cache" (fst (splitext file_name) ++ "_ocr_cache.json"))).

(** The decision of [load_from_cache] once the entry is parsed and the
    file is hashed. *)
Definition cache_decide (cache_data : json) (current_hash : string)
  : result (option json) :=
  bind (json_get cache_data "file_hash") (fun stored =>
  if eq_str stored current_hash then json_get cache_data "content"
  else Ok None).

(** [None] is the miss. *)
Definition load_from_cache (file_path : string) : M (option json) :=
  bindM (get_cache_path file_path) (fun cache_path =>
  fun fs =>
    if negb (path_exists fs cache_path) then (Ok None, fs)
    else
      tryM (bindM (lift (fun fs' => read_file fs' cache_path)) (fun text =>
            bindM (lift (fun _ => json_loads lib text)) (fun cache_data =>
            bindM (get_file_hash file_path) (fun current_hash =>
            lift (fun _ => cache_decide cache_data current_hash)))))
           (fun _ => ret None) fs).

Definition save_to_cache (file_path content : string) : M unit :=
  bindM (get_cache_path file_path) (fun cache_path =>
  tryM (bindM (get_file_hash file_path) (fun file_hash =>
        bindM (lift (fun fs => getmtime_str lib fs file_path)) (fun cached_at =>
        let cache_data :=
          JObj [("file_hash", JStr file_hash); ("content", JStr content);
                ("cached_at", JStr cached_at)] in
        write_file cache_path (json_dumps lib cache_data))))
       (fun _ => ret tt)).

Definition ocr_full_text (pdf_path extracted_text : string)
    (successful_pages total_pages all_pages : nat) : string :=
  "OCR-Extracted Text from " ++ basename pdf_path ++ nl
  ++ "Source: Scanned PDF processed with OCR" ++ nl
  ++ "Pages processed: " ++ str_nat successful_pages ++ "/"
  ++ str_nat total_pages ++ " (of " ++ str_nat all_pages ++ " total)" ++ nl
  ++ nl ++ extracted_text ++ nl ++ nl
  ++ "Note: Full document processed and cached for faster future access.".

(** The value returned is the cached one when there is one, whatever
    JSON value it is. *)
Definition extract_text_with_ocr (pdf_path : string) (max_pages : nat)
  : M json :=
  if negb (ocr_available lib)
  then ret (JStr ("OCR not available for " ++ basename pdf_path))
  else
    bindM (load_from_cache pdf_path) (fun cached_content =>
    if truthy cached_content then ret (default JNull cached_content)
    else
      tryM (bindM (lift (fun fs => fitz_open lib fs pdf_path)) (fun doc =>
            let total_pages := Nat.min (length doc) max_pages in
            let st := ocr_pages (take total_pages doc) 1 ("", O) in
            if strip_nonempty (fst st) then
              bindM (lift (fun fs => fitz_open lib fs pdf_path)) (fun doc' =>
              let full_text :=
                ocr_full_text pdf_path (fst st) (snd st) total_pages
                  (length doc') in
              bindM (save_to_cache pdf_path full_text) (fun _ =>
              ret (JStr full_text)))
            else
              ret (JStr ("OCR found no readable text in "
                         ++ basename pdf_path))))
           (fun e =>
              ret (JStr ("OCR processing failed for " ++ basename pdf_path
                         ++ ": " ++ str_exn e)))).

(** The loop over the first pages: [(text, pages_with_text)]. *)
Fixpoint first_pages (pages : list (result string)) (st : string * nat)
  : string * nat :=
  match pages with
  | [] => st
  | Ok page_text :: rest =>
      if strip_nonempty page_text
      then first_pages rest (fst st ++ page_text ++ nl, S (snd st))
      else first_pages rest st
  | Raise _ :: rest => first_pages rest st
  end.

(** The loop over [pdf_reader.pages[5:]]. *)
Fixpoint rest_pages (pages : list (result string)) (text : string) : string :=
  match pages with
  | [] => text
  | Ok page_text :: rest => rest_pages rest (text ++ page_text ++ nl)
  | Raise _ :: rest => rest_pages rest text
  end.

Definition load_pdf (file_path : string) : M json :=
  let file_name := basename file_path in
  tryM (bindM (lift (fun fs => pdf_reader lib fs file_path)) (fun pages =>
        let st := first_pages (take (Nat.min 5 (length pages)) pages) ("", O) in
        if (0 <? snd st)%nat then ret (JStr (rest_pages (drop 5 pages) (fst st)))
        else extract_text_with_ocr file_path 215))
       (fun e =>
          ret (JStr ("Failed to process PDF " ++ file_name ++ ": "
                     ++ str_exn e))).

(** The loop over the image relations: [images] holds [(path, name)]. *)
Fixpoint extract_images (stem : string) (blobs : list (result string))
    (images : list (string * string)) : M (list (string * string)) :=
  match blobs with
  | [] => ret images
  | blob :: rest =>
      bindM
        (tryM (bindM (lift (fun _ => blob)) (fun image_data =>
               let image_name :=
                 stem ++ "_" ++ str_nat (length images) ++ ".png" in
               bindM ensure_cache_dir (fun _ =>
               let image_path := path_join "cache" image_name in
               let abs_image_path := abspath lib image_path in
               bindM (write_file image_path image_data) (fun _ =>
               ret (images ++ [(abs_image_path, image_name)])%list))))
              (fun _ => ret images))
        (fun images' => extract_images stem rest images')
  end.

Fixpoint image_lines (i : nat) (images : list (string * string)) : string :=
  match images with
  | [] => ""
  | img :: rest =>
      "[IMAGE_" ++ str_nat i ++ ": " ++ fst img ++ "]" ++ nl
      ++ image_lines (S i) rest
  end.

Definition load_docx (file_path : string) : M string :=
  tryM (bindM (lift (fun fs => docx_document lib fs file_path)) (fun doc =>
        bindM (extract_images (fst (splitext (basename file_path)))
                 (fst doc) []) (fun images =>
        let text := String.concat "" (map (fun t => t ++ nl) (snd doc)) in
        if is_empty images then ret text
        else ret (text ++ nl ++ "[IMAGES_AVAILABLE: "
                  ++ str_nat (length images) ++ " images extracted]" ++ nl
                  ++ image_lines O images))))
       (fun e => raise (Exception ("Error reading DOCX: " ++ str_exn e))).

Definition load_txt (file_path : string) : M string :=
  lift (fun fs =>
    match read_file fs file_path with
    | Raise e => Raise (Exception ("Error reading TXT: " ++ str_exn e))
    | Ok bytes =>
        match utf8_decode lib bytes with
        | Some text => Ok text
        | None =>
            match read_file fs file_path with
            | Ok bytes' => Ok bytes'
            | Raise e =>
                Raise (Exception
                         ("Error reading TXT file with multiple encodings: "
                          ++ str_exn e))
            end
        end
    end).

Definition file_patterns (folder_path : string) : list string :=
  [path_join folder_path "*.pdf"; path_join folder_path "*.docx";
   path_join folder_path "*.txt"].

(** [all_files]: the files that the three patterns find. *)
Definition all_files (fs : FS) (folder_path : string) : list string :=
  concat (map (glob lib fs) (file_patterns folder_path)).

Definition placeholder (file_name : string) : string :=
  "This file could not be processed. File: " ++ file_name ++ nl
  ++ "Reason: No extractable text content found.".

Definition new_doc (file_name file_path content file_ext : string) : Doc :=
  mkDoc (Some file_name) (Some file_path) (Some content) (Some file_ext)
        None None.

(** The body of the [try] for one file. *)
Definition load_file (file_path : string) : M Doc :=
  let file_name := basename file_path in
  let file_ext := lower (snd (splitext file_name)) in
  bindM (if String.eqb file_ext ".pdf" then load_pdf file_path
         else if String.eqb file_ext ".docx"
         then bindM (load_docx file_path) (fun t => ret (JStr t))
         else if String.eqb file_ext ".txt"
         then bindM (load_txt file_path) (fun t => ret (JStr t))
         else ret (JStr "")) (fun content =>
  bindM (lift (fun _ => strip_truthy content)) (fun has_text =>
  match content with
  | JStr text =>
      if has_text then ret (new_doc file_name file_path text file_ext)
      else ret (new_doc file_name file_path (placeholder file_name) file_ext)
  | _ => raise AttributeError
  end)).

(** The loop over [all_files]: the handler of the [try] only prints. *)
Fixpoint load_files (files : list string) (documents : list Doc)
  : M (list Doc) :=
  match files with
  | [] => ret documents
  | file_path :: rest =>
      bindM (tryM (bindM (load_file file_path) (fun d =>
                   ret (documents ++ [d])%list))
                  (fun _ => ret documents))
            (fun documents' => load_files rest documents')
  end.

Definition load_documents_from_folder (folder_path : string)
  : M (list Doc) :=
  fun fs =>
    if negb (path_exists fs folder_path) then (Ok [], fs)
    else load_files (all_files fs folder_path) [] fs.

End Loader.

End DocumentLoader.

(** *** [document_loader_with_ocr.py] *)

Module DocumentLoaderWithOcr.
Import Py.
Import Retriever.
Import Files.

(** What the loader takes from libraries and from the platform. *)
Record Libraries : Type := mkLibraries {
  (** [glob.glob] *)
  glob : FS -> string -> list string;
  (** decoding as UTF-8; Latin-1 decodes every byte to itself *)
  utf8_decode : string -> option string;
  (** [PyPDF2.PdfReader(open(p, 'rb')).pages]: for each page what
      [extract_text()] gives *)
  pdf_reader : FS -> string -> result (list (result string));
  (** [OCR_AVAILABLE], what [detect_tesseract_path()] answers, and
      [pdf2image.convert_from_path(p, last_page=n)]: for each image what
      [pytesseract.image_to_string] gives *)
  ocr_available : bool;
  tesseract_found : bool;
  convert_from_path : FS -> string -> nat -> result (list (result string));
  (** [str(os.path.getctime(p))] *)
  getctime_str : FS -> string -> result string;
  (** [docx.Document(p).paragraphs] *)
  docx_paragraphs : FS -> string -> result (list string)
}.

Section Loader.

Variable lib : Libraries.

Definition ocr_full_text (pdf_path extracted_text ctime : string)
    (successful_pages pages : nat) : string :=
  "OCR-Extracted Text from " ++ basename pdf_path ++ nl
  ++ "Source: Scanned PDF processed with OCR" ++ nl
  ++ "Pages processed: " ++ str_nat successful_pages ++ "/"
  ++ str_nat pages ++ nl
  ++ "Extraction date: " ++ ctime ++ nl
  ++ nl ++ extracted_text ++ nl ++ nl
  ++ "Note: This content was extracted using OCR. Text accuracy may vary depending on image quality.".

Definition ocr_report (pdf_path : string) (pages : nat) : string :=
  "OCR Processing Report for " ++ basename pdf_path ++ nl
  ++ "Status: No readable text found" ++ nl
  ++ "Pages processed: " ++ str_nat pages ++ nl
  ++ "Possible reasons: Poor image quality, non-text content, unsupported language"
  ++ nl ++ nl
  ++ "This document appears to contain images or text that cannot be reliably extracted.".

Definition extract_text_with_ocr (fs : FS) (pdf_path : string)
    (max_pages : nat) : string :=
  if negb (ocr_available lib)
  then "OCR not available for " ++ basename pdf_path
       ++ ". Install: pip install pytesseract pillow pdf2image"
  else if negb (tesseract_found lib)
  then "Tesseract OCR not installed for " ++ basename pdf_path
  else
    match convert_from_path lib fs pdf_path max_pages with
    | Raise e =>
        "Failed to convert PDF to images: " ++ str_exn e ++ nl
        ++ "May need to install Poppler: https://blog.alivate.com.au/poppler-windows/"
    | Ok pages =>
        let st := ocr_pages pages 1 ("", O) in
        if strip_nonempty (fst st) then
          match getctime_str lib fs pdf_path with
          | Ok ctime =>
              ocr_full_text pdf_path (fst st) ctime (snd st) (length pages)
          | Raise e =>
              "OCR processing failed for " ++ basename pdf_path ++ ": "
              ++ str_exn e
          end
        else ocr_report pdf_path (length pages)
    end.

(** The loop over [pdf_reader.pages[:5]]: an exception leaves the loop. *)
Fixpoint first_pages (pages : list (result string)) (st : string * nat)
  : result (string * nat) :=
  match pages with
  | [] => Ok st
  | Ok page_text :: rest =>
      if strip_nonempty page_text
      then first_pages rest (fst st ++ page_text ++ nl, S (snd st))
      else first_pages rest st
  | Raise e :: _ => Raise e
  end.

(** The loop over [pdf_reader.pages[5:]]. *)
Fixpoint rest_pages (pages : list (result string)) (text : string)
  : result string :=
  match pages with
  | [] => Ok text
  | Ok page_text :: rest => rest_pages rest (text ++ page_text ++ nl)
  | Raise e :: _ => Raise e
  end.

Definition load_pdf_with_ocr_fallback (fs : FS) (file_path : string)
  : string :=
  let file_name := basename file_path in
  match
    bind (pdf_reader lib fs file_path) (fun pages =>
    bind (first_pages (take 5 pages) ("", O)) (fun st =>
    if (0 <? snd st)%nat then rest_pages (drop 5 pages) (fst st)
    else Ok (extract_text_with_ocr fs file_path 5)))
  with
  | Ok text => text
  | Raise e => "Failed to process PDF " ++ file_name ++ ": " ++ str_exn e
  end.

Definition load_docx (fs : FS) (file_path : string) : result string :=
  match docx_paragraphs lib fs file_path with
  | Ok paragraphs => Ok (String.concat "" (map (fun t => t ++ nl) paragraphs))
  | Raise e => Raise (Exception ("Error reading DOCX: " ++ str_exn e))
  end.

Definition load_txt (fs : FS) (file_path : string) : result string :=
  match read_file fs file_path with
  | Raise e => Raise (Exception ("Error reading TXT: " ++ str_exn e))
  | Ok bytes =>
      match utf8_decode lib bytes with
      | Some text => Ok text
      | None =>
          match read_file fs file_path with
          | Ok bytes' => Ok bytes'
          | Raise e =>
              Raise (Exception ("Error reading TXT file: " ++ str_exn e))
          end
      end
  end.

Definition all_files (fs : FS) (folder_path : string) : list string :=
  concat (map (glob lib fs)
            [path_join folder_path "*.pdf"; path_join folder_path "*.docx";
             path_join folder_path "*.txt"]).

Definition new_doc (file_name file_path content file_ext : string) : Doc :=
  mkDoc (Some file_name) (Some file_path) (Some content) (Some file_ext)
        None None.

(** The body of the [try] for one file. *)
Definition load_file (fs : FS) (file_path : string) : result Doc :=
  let file_name := basename file_path in
  let file_ext := lower (snd (splitext file_name)) in
  bind (if String.eqb file_ext ".pdf"
        then Ok (load_pdf_with_ocr_fallback fs file_path)
        else if String.eqb file_ext ".docx" then load_docx fs file_path
        else if String.eqb file_ext ".txt" then load_txt fs file_path
        else Ok "") (fun content =>
  if strip_nonempty content
  then Ok (new_doc file_name file_path content file_ext)
  else Ok (new_doc file_name file_path
             ("Document could not be processed: " ++ file_name) file_ext)).

(** The document that the handler of the [try] adds. *)
Definition error_doc (file_path : string) (e : exn) : Doc :=
  new_doc (basename file_path) file_path
    ("Error loading " ++ basename file_path ++ ": " ++ str_exn e)
    (lower (snd (splitext file_path))).

Fixpoint load_files (fs : FS) (files : list string) (documents : list Doc)
  : list Doc :=
  match files with
  | [] => documents
  | file_path :: rest =>
      match load_file fs file_path with
      | Ok d => load_files fs rest (documents ++ [d])
      | Raise e => load_files fs rest (documents ++ [error_doc file_path e])
      end
  end.

Definition load_documents_from_folder_with_ocr (fs : FS)
    (folder_path : string) : result (list Doc) :=
  if negb (path_exists fs folder_path) then Ok []
  else Ok (load_files fs (all_files fs folder_path) []).

End Loader.

End DocumentLoaderWithOcr.

(** ** The retriever over a store of dictionary objects

    The same two methods, with the document dictionaries as objects of a
    store: [self.documents] holds references, [dict(doc)] allocates a
    copy, and an assignment to a key changes the object in place. *)

Module Store.
Import Py.

Definition addr : Type := nat.

Record Self (Vectorizer DocVectors : Type) : Type := mkSelf {
  documents : list addr;
  use_cache : bool;
  cache_dir : string;
  vectorizer : Vectorizer;
  doc_vectors : option DocVectors
}.
Arguments mkSelf {Vectorizer DocVectors}.
Arguments documents {Vectorizer DocVectors}.
Arguments use_cache {Vectorizer DocVectors}.
Arguments cache_dir {Vectorizer DocVectors}.
Arguments vectorizer {Vectorizer DocVectors}.
Arguments doc_vectors {Vectorizer DocVectors}.

Record State (Vectorizer DocVectors : Type) : Type := mkState {
  self : Self Vectorizer DocVectors;
  heap : gmap addr Retriever.Doc
}.
Arguments mkState {Vectorizer DocVectors}.
Arguments self {Vectorizer DocVectors}.
Arguments heap {Vectorizer DocVectors}.

Section Store.

Variables Vectorizer DocVectors : Type.
Variable cosine_scores : Vectorizer -> DocVectors -> string -> result (list Q).
Variable argsort : list Q -> list nat.

Abbreviation state := (State Vectorizer DocVectors).

Definition St (A : Type) : Type := state -> result A * state.

Definition ret {A} (a : A) : St A := fun st => (Ok a, st).
Definition raise {A} (e : exn) : St A := fun st => (Raise e, st).
Definition lift {A} (r : result A) : St A := fun st => (r, st).

Definition bindS {A B} (m : St A) (f : A -> St B) : St B :=
  fun st =>
    match m st with
    | (Ok a, st') => f a st'
    | (Raise e, st') => (Raise e, st')
    end.

Definition tryS {A} (m : St A) (h : exn -> St A) : St A :=
  fun st =>
    match m st with
    | (Ok a, st') => (Ok a, st')
    | (Raise e, st') => h e st'
    end.

Definition get_self : St (Self Vectorizer DocVectors) :=
  fun st => (Ok (self st), st).

(** the object behind a reference *)
Definition read (a : addr) : St Retriever.Doc :=
  fun st =>
    match heap st !! a with
    | Some d => (Ok d, st)
    | None => (Raise (LibraryError "dangling reference"), st)
    end.

(** [dict(doc)]: a new object with the same items *)
Definition dict_copy (a : addr) : St addr :=
  bindS (read a) (fun d =>
  fun st =>
    let a' := fresh (dom (heap st)) in
    (Ok a', mkState (self st) (<[a' := d]> (heap st)))).

(** [doc[key] = value] on the object itself *)
Definition update (a : addr) (f : Retriever.Doc -> Retriever.Doc) : St unit :=
  bindS (read a) (fun d =>
  fun st => (Ok tt, mkState (self st) (<[a := f d]> (heap st)))).

Definition setitem_score (a : addr) (s : Q) : St unit :=
  update a (Retriever.set_score s).

Definition setitem_match_type (a : addr) (k : Retriever.match_kind)
  : St unit :=
  update a (Retriever.set_match_type k).

Definition getitem_file_name (a : addr) : St string :=
  bindS (read a) (fun d => lift (Retriever.get_file_name d)).

Definition getitem_score (a : addr) : St Q :=
  bindS (read a) (fun d => lift (Retriever.get_score d)).

Fixpoint mapS {A B} (f : A -> St B) (l : list A) : St (list B) :=
  match l with
  | [] => ret []
  | x :: t =>
      bindS (f x) (fun y => bindS (mapS f t) (fun ys => ret (y :: ys)))
  end.

(** The loop over [self.documents] that collects [exact_matches]. *)
Fixpoint exact_loop (search_terms : list string) (docs : list addr)
  : St (list addr) :=
  match docs with
  | [] => ret []
  | doc :: rest =>
      bindS (read doc) (fun d =>
      let st := Retriever.scan_terms (lower (Retriever.get_content d))
                  search_terms (false, 0%Q) in
      if fst st then
        bindS (dict_copy doc) (fun doc_copy =>
        bindS (setitem_score doc_copy (snd st)) (fun _ =>
        bindS (setitem_match_type doc_copy Retriever.exact) (fun _ =>
        bindS (exact_loop search_terms rest) (fun ms =>
        ret (doc_copy :: ms)))))
      else exact_loop search_terms rest)
  end.

(** The loop over [top_indices] that collects [tfidf_matches]. *)
Fixpoint tfidf_loop (docs : list addr) (similarities : list Q)
    (top_indices : list nat) : St (list addr) :=
  match top_indices with
  | [] => ret []
  | idx :: rest =>
      match similarities !! idx with
      | None => raise IndexError
      | Some s =>
          if Qltb 0.05%Q s then
            match docs !! idx with
            | None => raise IndexError
            | Some a =>
                bindS (dict_copy a) (fun doc =>
                bindS (setitem_score doc s) (fun _ =>
                bindS (setitem_match_type doc Retriever.tfidf) (fun _ =>
                bindS (tfidf_loop docs similarities rest) (fun ms =>
                ret (doc :: ms)))))
            end
          else tfidf_loop docs similarities rest
      end
  end.

(** [all_matches]: file name to reference, in insertion order *)
Definition refdict : Type := list (string * addr).

Fixpoint refdict_set (k : string) (v : addr) (d : refdict) : refdict :=
  match d with
  | [] => [(k, v)]
  | (k', v') :: t =>
      if String.eqb k k' then (k, v) :: t else (k', v') :: refdict_set k v t
  end.

Fixpoint refdict_get (k : string) (d : refdict) : option addr :=
  match d with
  | [] => None
  | (k', v') :: t => if String.eqb k k' then Some v' else refdict_get k t
  end.

Fixpoint add_exact (ms : list addr) (all_matches : refdict) : St refdict :=
  match ms with
  | [] => ret all_matches
  | doc :: rest =>
      bindS (getitem_file_name doc) (fun fn =>
      add_exact rest (refdict_set fn doc all_matches))
  end.

Fixpoint add_tfidf (ms : list addr) (all_matches : refdict) : St refdict :=
  match ms with
  | [] => ret all_matches
  | doc :: rest =>
      bindS (getitem_file_name doc) (fun fn =>
      match refdict_get fn all_matches with
      | None => add_tfidf rest (refdict_set fn doc all_matches)
      | Some cur =>
          bindS (getitem_score cur) (fun sc =>
          bindS (getitem_score doc) (fun sd =>
          if Qltb sc sd then
            bindS (setitem_score cur (max sc sd)) (fun _ =>
            bindS (setitem_match_type cur Retriever.hybrid) (fun _ =>
            add_tfidf rest all_matches))
          else add_tfidf rest all_matches))
      end)
  end.

Definition sort_by_score (l : list addr) : St (list addr) :=
  bindS (mapS getitem_score l) (fun keys =>
  ret (map snd (Retriever.sort_desc (combine keys l)))).

Definition sort_by_score_default (l : list addr) : St (list addr) :=
  bindS (mapS (fun a => bindS (read a) (fun d =>
               ret (default 0%Q (Retriever.similarity_score d)))) l)
        (fun keys =>
  ret (map snd (Retriever.sort_desc (combine keys l)))).

Definition similarities (query : string) : St (list Q) :=
  bindS get_self (fun s =>
  match doc_vectors s with
  | None => raise (LibraryError "not fitted")
  | Some dv => lift (cosine_scores (vectorizer s) dv query)
  end).

Definition search_body (query : string) (top_k : Z) : St (list addr) :=
  bindS get_self (fun s =>
  bindS (exact_loop (Retriever.search_terms query) (documents s))
        (fun exact_matches =>
  bindS (similarities query) (fun sims =>
  let num_docs := length (documents s) in
  let actual_k := Z.min top_k (Z.of_nat num_docs) in
  let top_indices := slice_to (rev (argsort sims)) actual_k in
  bindS (tfidf_loop (documents s) sims top_indices) (fun tfidf_matches =>
  bindS (add_exact exact_matches []) (fun all1 =>
  bindS (add_tfidf tfidf_matches all1) (fun all_matches =>
  bindS (sort_by_score (map snd all_matches)) (fun relevant_docs =>
  ret (slice_to relevant_docs top_k)))))))).

Definition _search_with_query (query : string) (top_k : Z) : St (list addr) :=
  tryS (search_body query top_k) (fun _ => ret []).

Fixpoint search_words (top_k : Z) (words : list string)
    (all_results : list addr) : St (list addr) :=
  match words with
  | [] => ret all_results
  | word :: rest =>
      if (4 <? len word)%nat then
        bindS (_search_with_query word top_k) (fun word_results =>
        if Retriever.is_empty word_results
        then search_words top_k rest (all_results ++ word_results)%list
        else ret (all_results ++ word_results)%list)
      else search_words top_k rest all_results
  end.

Definition doc_id (a : addr) : St (string * string) :=
  bindS (read a) (fun d => lift (Retriever.doc_id d)).

Fixpoint unique_from (seen : list (string * string)) (l : list addr)
  : St (list addr) :=
  match l with
  | [] => ret []
  | a :: rest =>
      bindS (doc_id a) (fun i =>
      if existsb (Retriever.id_eqb i) seen then unique_from seen rest
      else bindS (unique_from (i :: seen) rest) (fun u => ret (a :: u)))
  end.

Definition retrieve_body (query : string) (top_k : Z) : St (list addr) :=
  bindS (_search_with_query query top_k) (fun results1 =>
  bindS (if Retriever.is_empty results1 then
           let key_terms := Retriever.extract_key_terms query in
           if negb (String.eqb key_terms "")
              && negb (String.eqb key_terms (lower query))
           then bindS (_search_with_query key_terms top_k) (fun results2 =>
                ret (results1 ++ results2)%list)
           else ret results1
         else ret results1) (fun all_results =>
  bindS (if Retriever.is_empty all_results
         then search_words top_k
                (split (Retriever.extract_key_terms query)) all_results
         else ret all_results) (fun all_results' =>
  bindS (unique_from [] all_results') (fun unique_results =>
  bindS (sort_by_score_default unique_results) (fun sorted =>
  ret (slice_to sorted top_k)))))).

Definition retrieve_relevant_chunks (query : string) (top_k : Z)
  : St (list addr) :=
  bindS get_self (fun s =>
  match doc_vectors s with
  | None => ret []
  | Some _ =>
      if Retriever.is_empty (documents s) then ret []
      else tryS (retrieve_body query top_k) (fun _ => ret [])
  end).

(** What a list of references denotes in a store. *)
Definition view (h : gmap addr Retriever.Doc) (refs : list addr)
  : option (list Retriever.Doc) :=
  mapM (fun a => h !! a) refs.

(** The retriever with the documents as values. *)
Definition self_view (st : state)
  : option (Retriever.SimpleRetriever Vectorizer DocVectors) :=
  match view (heap st) (documents (self st)) with
  | Some docs =>
      Some (Retriever.mkRetriever docs (use_cache (self st))
              (cache_dir (self st)) (vectorizer (self st))
              (doc_vectors (self st)))
  | None => None
  end.

End Store.

End Store.

(** ** The context string of the retriever ([retriever.py],
    [search_documents]) *)

Module RetrieverContext.
Import Py.
Import Retriever.
Import Files.

Section Context.

Variables Vectorizer DocVectors : Type.
Variable cosine_scores : Vectorizer -> DocVectors -> string -> result (list Q).
Variable argsort : list Q -> list nat.

(** [f"{score:.3f}"] *)
Variable format_3f : Q -> string.

Definition no_documents : string := "No relevant documents found.".

(** One turn of the loop over [relevant_docs]: what [context] is after
    the document [doc] at index [i]. *)
Definition add_block (context : string) (i : nat) (doc : Doc) : string :=
  let score := default 0%Q (similarity_score doc) in
  let file_name := default "Unknown" (file_name doc) in
  let content := get_content doc in
  let context :=
    context ++ "Relevant Document " ++ str_nat (i + 1) ++ " - " ++ file_name
    ++ " (Score: " ++ format_3f score ++ "):" ++ nl in
  if (1000 <? len content)%nat
  then context ++ str_take 1000 content ++ "..." ++ nl ++ nl
  else context ++ content ++ nl ++ nl.

Fixpoint blocks_from (i : nat) (docs : list Doc) (context : string) : string :=
  match docs with
  | [] => context
  | doc :: rest => blocks_from (S i) rest (add_block context i doc)
  end.

Definition search_documents (self : SimpleRetriever Vectorizer DocVectors)
    (query : string) (top_k : Z) : result string :=
  bind (retrieve_relevant_chunks Vectorizer DocVectors cosine_scores argsort
          self query top_k) (fun relevant_docs =>
  if is_empty relevant_docs then Ok no_documents
  else Ok (blocks_from 0 relevant_docs "")).

End Context.

End RetrieverContext.

(** ** The pickle files of the index ([retriever.py], [load_from_cache]
    and [save_to_cache]) *)

Module RetrieverCache.
Import Py.
Import Retriever.
Import Files.

Section Pickle.

Variables Vectorizer DocVectors : Type.

(** [pickle.dumps] and [pickle.loads] of a vectorizer, of document
    vectors and of a list of documents. The three are plain data, which
    [pickle.dump] writes whole. *)
Variable dumps_vectorizer : Vectorizer -> string.
Variable loads_vectorizer : string -> result Vectorizer.
Variable dumps_vectors : DocVectors -> string.
Variable loads_vectors : string -> result DocVectors.
Variable dumps_documents : list Doc -> string.
Variable loads_documents : string -> result (list Doc).

(** [os.path.join(self.cache_dir, f"vectorizer_{cache_key}.pkl")] and
    the two others *)
Definition vectorizer_path (cache_dir cache_key : string) : string :=
  path_join cache_dir ("vectorizer_" ++ cache_key ++ ".pkl").

Definition vectors_path (cache_dir cache_key : string) : string :=
  path_join cache_dir ("vectors_" ++ cache_key ++ ".pkl").

Definition documents_path (cache_dir cache_key : string) : string :=
  path_join cache_dir ("documents_" ++ cache_key ++ ".pkl").

(** [with open(p, 'rb') as f: pickle.load(f)] *)
Definition load_pickle {A} (loads : string -> result A) (p : string) : M A :=
  lift (fun fs => bind (read_file fs p) loads).

(** [None] is [(False, None, None)], and [Some (v, dv)] is
    [(True, v, dv)]. *)
Definition load_from_cache (self : SimpleRetriever Vectorizer DocVectors)
    (cache_key : string) : M (option (Vectorizer * DocVectors)) :=
  let vectorizer_path := vectorizer_path (cache_dir self) cache_key in
  let vectors_path := vectors_path (cache_dir self) cache_key in
  let documents_path := documents_path (cache_dir self) cache_key in
  tryM (fun fs =>
          if forallb (path_exists fs)
               [vectorizer_path; vectors_path; documents_path]
          then
            bindM (load_pickle loads_vectorizer vectorizer_path)
              (fun vectorizer =>
            bindM (load_pickle loads_vectors vectors_path) (fun vectors =>
            bindM (load_pickle loads_documents documents_path)
              (fun cached_docs =>
            ret (Some (vectorizer, vectors))))) fs
          else (Ok None, fs))
       (fun _ => ret None).

Definition save_to_cache (self : SimpleRetriever Vectorizer DocVectors)
    (cache_key : string) (vectorizer : Vectorizer) (vectors : DocVectors)
  : M unit :=
  let vectorizer_path := vectorizer_path (cache_dir self) cache_key in
  let vectors_path := vectors_path (cache_dir self) cache_key in
  let documents_path := documents_path (cache_dir self) cache_key in
  tryM (bindM (write_file vectorizer_path (dumps_vectorizer vectorizer))
          (fun _ =>
        bindM (write_file vectors_path (dumps_vectors vectors)) (fun _ =>
        write_file documents_path (dumps_documents (documents self)))))
       (fun _ => ret tt).

End Pickle.

End RetrieverCache.

(** ** Notions used in the statements *)

Module Notions.
Import Py.
Import Retriever.

(** Two dictionaries are copies of the same stored document: they agree
    on everything but the score and the kind of match. *)
Definition same_document (d d' : Doc) : Prop :=
  file_name d = file_name d' /\ file_path d = file_path d'
  /\ content d = content d' /\ file_type d = file_type d'.

(** Every document has a file name. *)
Definition named (docs : list Doc) : Prop :=
  Forall (fun d => file_name d <> None) docs.

(** The file names are unique within the collection. *)
Definition distinct_names (docs : list Doc) : Prop :=
  NoDup (map file_name docs).

(** The scores of a list of results, in order. *)
Definition scores (l : list Doc) : list Q :=
  map (fun d => default 0%Q (similarity_score d)) l.

(** A list of scores is in descending order. *)
Fixpoint descending (l : list Q) : Prop :=
  match l with
  | [] => True
  | x :: t => Forall (fun y => (y <= x)%Q) t /\ descending t
  end.

(** The score and the name that the code reads from a result. *)
Definition score (d : Doc) : Q := default 0%Q (similarity_score d).
Definition name (d : Doc) : string := default "" (file_name d).

(** A copy of [d] with a score and a kind of match. *)
Definition mark (k : match_kind) (s : Q) (d : Doc) : Doc :=
  set_match_type k (set_score s d).

(** What one index of [top_indices] adds to [tfidf_matches]. *)
Definition tf_of (docs : list Doc) (sims : list Q) (idx : nat) : option Doc :=
  match sims !! idx, docs !! idx with
  | Some s, Some d => if Qltb 0.05%Q s then Some (mark tfidf s d) else None
  | _, _ => None
  end.

(** One step of the loop of [add_exact] and of [add_tfidf], for
    documents that have a name and a score. *)
Definition exact_step (all_matches : dict) (doc : Doc) : dict :=
  dict_set (name doc) doc all_matches.

Definition merge_step (all_matches : dict) (doc : Doc) : dict :=
  match dict_get (name doc) all_matches with
  | None => dict_set (name doc) doc all_matches
  | Some cur =>
      if Qltb (score cur) (score doc)
      then dict_set (name doc)
             (mark hybrid (max (score cur) (score doc)) cur) all_matches
      else all_matches
  end.

(** A document that the loops can take: it has a name and a score. *)
Definition ready (d : Doc) : Prop :=
  file_name d <> None /\ similarity_score d <> None.

(** What [all_matches] holds in the end for a document that the exact
    strategy returned as [d_e] and to which the vector strategy gives
    the score [t]. *)
Definition both (d_e : Doc) (t : Q) : Doc :=
  if Qltb (score d_e) t then mark hybrid (max (score d_e) t) d_e else d_e.

(** What [all_matches] holds after the two loops. *)
Definition merged (docs : list Doc) (query : string) (tf : list Doc) : dict :=
  fold_left merge_step tf (fold_left exact_step (exact_matches query docs) []).

(** The keys of a dictionary are distinct, each value has its key for
    name, and each value has a score. *)
Definition dict_ok (d : dict) : Prop :=
  NoDup (map fst d)
  /\ Forall (fun kv => file_name (snd kv) = Some (fst kv)
                       /\ similarity_score (snd kv) <> None) d.

(** A list with its sort keys, and the list sorted by score. *)
Definition keyed (l : list Doc) : list (Q * Doc) :=
  map (fun d => (score d, d)) l.

Definition ranked (l : list Doc) : list Doc := map snd (sort_desc (keyed l)).

(** The keys of a list of pairs are in descending order. *)
Definition sorted_desc {A} (l : list (Q * A)) : Prop :=
  StronglySorted (fun x y => (fst y <= fst x)%Q) l.

(** A list of results as a search round returns it: every result has a
    name, no name comes twice, and the scores are in descending order. *)
Definition tidy (l : list Doc) : Prop :=
  Forall (fun d => file_name d <> None) l
  /\ NoDup (map file_name l)
  /\ sorted_desc (keyed l).

(** The queries that [retrieve_relevant_chunks] tries, in order: the
    query, its key terms when they differ from it, and the key terms of
    more than four characters one by one. *)
Definition candidates (query : string) : list string :=
  let key_terms := extract_key_terms query in
  (query ::
   (if negb (String.eqb key_terms "")
       && negb (String.eqb key_terms (lower query))
    then [key_terms] else []) ++
   filter (fun w => (4 <? len w)%nat = true) (split key_terms))%list.

(** The first answer that is not empty. *)
Fixpoint first_found (search : string -> list Doc) (queries : list string)
  : list Doc :=
  match queries with
  | [] => []
  | q :: rest =>
      match search q with
      | [] => first_found search rest
      | l => l
      end
  end.

(** The list that a call returned, [[]] if it raised. *)
Definition returned (r : result (list Doc)) : list Doc :=
  match r with
  | Ok l => l
  | Raise _ => []
  end.

(** The index is aligned with the documents: the vectorizer gives one
    score per document. *)
Definition aligned {V DV : Type}
    (cosine_scores : V -> DV -> string -> result (list Q))
    (self : SimpleRetriever V DV) : Prop :=
  forall dv query sims,
    doc_vectors self = Some dv ->
    cosine_scores (vectorizer self) dv query = Ok sims ->
    length sims = length (documents self).

(** The order of a stable ascending sort on pairs of a value and its
    position: by value, and by position among equal values. *)
Definition stable_order (x y : Q * nat) : Prop :=
  (fst x < fst y)%Q \/ ((fst x == fst y)%Q /\ (snd x < snd y)%nat).

(** The values along a list of indices are in descending order. *)
Definition descending_along (values : list Q) (idx : list nat) : Prop :=
  forall i j a b x y,
    (i < j)%nat -> idx !! i = Some a -> idx !! j = Some b ->
    values !! a = Some x -> values !! b = Some y -> (y <= x)%Q.

(** [a] comes before [b] in [l]. *)
Definition before {A} (a b : A) (l : list A) : Prop :=
  exists l1 l2 l3, l = (l1 ++ a :: l2 ++ b :: l3)%list.

End Notions.

(** ** Notions about the store *)

Module StoreNotions.
Import Py.
Import Store.

(** In the store [h] the references [refs] are to the documents
    [docs]. *)
Definition denotes (h : gmap addr Retriever.Doc) (refs : list addr)
    (docs : list Retriever.Doc) : Prop :=
  Forall2 (fun a d => h !! a = Some d) refs docs.

(** In the store [h] the dictionary of references [all] is the
    dictionary of documents [alld]: same keys in the same order, and
    each reference is to the document at its place. *)
Definition dict_denotes (h : gmap addr Retriever.Doc) (all : refdict)
    (alld : Retriever.dict) : Prop :=
  Forall2 (fun ka kd => fst ka = fst kd /\ h !! snd ka = Some (snd kd))
    all alld.

(** Two lists of pairs with the same keys, and related second
    components. *)
Definition paired {A B} (R : A -> B -> Prop) (l : list (Q * A))
    (l' : list (Q * B)) : Prop :=
  Forall2 (fun p p' => fst p = fst p' /\ R (snd p) (snd p')) l l'.

(** Two results agree: both are values, related by [R], or both are
    exceptions. *)
Definition agree {A B} (R : A -> B -> Prop) (r : result A) (r' : result B)
  : Prop :=
  match r, r' with
  | Ok a, Ok b => R a b
  | Raise _, Raise _ => True
  | _, _ => False
  end.

Section Frame.

Variables Vectorizer DocVectors : Type.

(** The state [st] is [st0] with more objects: the retriever is the
    same, and every object of [st0] is in [st] as it was. *)
Definition extends (st0 st : State Vectorizer DocVectors) : Prop :=
  self st = self st0 /\ heap st0 ⊆ heap st.

(** The reference [a] is to no object of [st0]. *)
Definition fresh_for (st0 : State Vectorizer DocVectors) (a : addr) : Prop :=
  heap st0 !! a = None.

(** From every state that extends [st0] the computation [m] leads to a
    state that extends [st0], and what it returns satisfies [post]. *)
Definition keeps {A} (st0 : State Vectorizer DocVectors)
    (m : St Vectorizer DocVectors A) (post : A -> Prop) : Prop :=
  forall st, extends st0 st ->
    extends st0 (snd (m st)) /\ forall a, fst (m st) = Ok a -> post a.

(** The references [cs] that a loop has collected from [st] to [st']:
    objects made on the way, each once, that are the documents
    [docs]. *)
Definition collected (st st' : State Vectorizer DocVectors) (cs : list addr)
    (docs : list Retriever.Doc) : Prop :=
  extends st st' /\ denotes (heap st') cs docs /\ NoDup cs
  /\ Forall (fresh_for st) cs.

(** Run from [st], the computation [m] on the store does what [r] does
    on values: it leads to a state that extends [st], and both return,
    with [R] between what they return, or both raise. *)
Definition simulates {A B} (R : State Vectorizer DocVectors -> A -> B -> Prop)
    (st : State Vectorizer DocVectors) (m : St Vectorizer DocVectors A)
    (r : result B) : Prop :=
  match m st with
  | (r0, st') => extends st st' /\ agree (R st') r0 r
  end.

(** The references are to the documents, in the store of the state. *)
Definition refers (st : State Vectorizer DocVectors) (refs : list addr)
    (docs : list Retriever.Doc) : Prop :=
  denotes (heap st) refs docs.

End Frame.

End StoreNotions.

(** ** Sample data *)

Module Samples.
Import Py.
Import Retriever.
Import Files.

Definition doc (name text : string) : Doc :=
  mkDoc (Some name) (Some ("data/" ++ name)) (Some text) (Some ".txt")
        None None.

(** A vectorizer whose scores are written down: the document vectors
    are the scores themselves. *)
Definition table_scores (_ : unit) (dv : list Q) (_ : string)
  : result (list Q) := Ok dv.

(** A vectorizer whose [transform] raises. *)
Definition failing_scores (_ : unit) (_ : list Q) (_ : string)
  : result (list Q) := Raise (LibraryError "dimension mismatch").

Definition retriever_of (docs : list Doc) (sims : list Q)
  : SimpleRetriever unit (list Q) :=
  mkRetriever docs true "cache" tt (Some sims).

Definition python_docs : list Doc :=
  [doc "a.txt" "Python for the web"; doc "b.txt" "Python and data";
   doc "c.txt" "Learning Python"].

Definition article_docs : list Doc :=
  [doc "a.txt" "English has the a an articles."].

Definition plain_docs : list Doc :=
  [doc "a.txt" "alpha"; doc "b.txt" "beta"].

(** [glob] on the sample file system: the paths that start as the
    pattern does before its star and end as it does after. *)
Fixpoint endswith_from (suffix s : string) : bool :=
  String.eqb suffix s ||
  match s with
  | "" => false
  | String _ t => endswith_from suffix t
  end.

Definition star_glob (fs : FS) (pattern : string) : list string :=
  match String.index 0 "*" pattern with
  | Some i =>
      filter (fun p => startswith (str_take i pattern) p = true
                       /\ endswith_from (str_drop (S i) pattern) p = true)
             (map fst (map_to_list (nodes fs)))
  | None => []
  end.

Definition no_pages (_ : FS) (p : string) : result (list (result string)) :=
  Raise (LibraryError "not a PDF").

(** A stand-in for [json.load] that knows one text. *)
Definition entry_text : string := "{entry}".
Definition entry_json : json :=
  JObj [("file_hash", JStr "scanned bytes"); ("content", JStr "page one");
        ("cached_at", JStr "1700000000.0")].

Definition sample_json_loads (text : string) : result json :=
  if String.eqb text entry_text then Ok entry_json
  else Raise (LibraryError "Expecting value").

(** A stand-in for MD5 that keeps the bytes. *)
Definition loader_lib : DocumentLoader.Libraries :=
  DocumentLoader.mkLibraries star_glob string "" String.append (fun h => h)
    sample_json_loads (fun _ => entry_text)
    (fun _ _ => Ok "1700000000.0") (fun s => Some s) no_pages false no_pages
    (fun _ p => Raise (LibraryError "not a DOCX")) (fun p => "/app/" ++ p).

Definition ocr_lib : DocumentLoaderWithOcr.Libraries :=
  DocumentLoaderWithOcr.mkLibraries star_glob (fun s => Some s) no_pages
    false false (fun _ _ _ => Raise (LibraryError "no poppler"))
    (fun _ _ => Ok "1700000000.0")
    (fun _ p => Raise (LibraryError "not a DOCX")).

(** A folder with a text file that cannot be opened. *)
Definition locked_fs : FS :=
  mkFS (<["data/" := Dir]> (<["data/notes.txt" := Unreadable]> ∅)) true.

(** Nothing at all. *)
Definition empty_fs : FS := mkFS ∅ true.

(** A scanned PDF and its cache entry. *)
Definition cached_fs : FS :=
  mkFS (<["cache" := Dir]>
        (<["cache/scan_ocr_cache.json" := File entry_text]>
        (<["data/scan.pdf" := File "scanned bytes"]> ∅))) true.

(** A retriever object over a store with two documents. *)
Definition sample_state : Store.State unit (list Q) :=
  Store.mkState
    (Store.mkSelf [0%nat; 1%nat] true "cache" tt (Some [0.3; 0.9]%Q))
    (<[0%nat := doc "a.txt" "alpha beta"]>
       (<[1%nat := doc "b.txt" "beta gamma"]> ∅)).

End Samples.

(** ** More notions and sample data *)

Module MoreNotions.
Import Py.
Import Retriever.
Import Notions.




(** The identity that [retrieve_relevant_chunks] removes duplicates by:
    [(doc['file_name'], doc.get('content', '')[:100])]. *)
Definition ident (d : Doc) : string * string :=
  (name d, str_take 100 (get_content d)).

(** No character of [s] is white space. *)
Fixpoint spaceless (s : string) : bool :=
  match s with
  | "" => true
  | String c t => negb (is_space c) && spaceless t
  end.

(** Every character of [s] passes the test [p]. *)
Fixpoint all_chars (p : ascii -> bool) (s : string) : bool :=
  match s with
  | "" => true
  | String c t => p c && all_chars p t
  end.

(** A character of a key term: a letter that is not a capital, a
    digit or the underscore. *)
Definition key_char (c : ascii) : bool := is_word c && negb (is_upper c).

(** A word, as [str.split] gives it: not empty, without white space. *)
Definition is_a_word (w : string) : Prop := w <> "" /\ spaceless w = true.

(** The document that a loader makes of the file at [path]: it has the
    base name of the path for name, the path, a content that is not
    blank, and neither score nor kind of match. *)
Definition loaded_from (path : string) (d : Doc) : Prop :=
  file_name d = Some (Files.basename path)
  /\ file_path d = Some path
  /\ (exists text, content d = Some text /\ strip_nonempty text = true)
  /\ similarity_score d = None /\ match_type d = None.

(** What the index cache holds for the pickle file at [p]: nothing
    when there is no such path, what [loads] makes of the bytes of a
    file, and an error for what cannot be opened as a file. *)
Definition pickled {A} (loads : string -> result A) (fs : Files.FS)
    (p : string) : option (result A) :=
  match Files.nodes fs !! p with
  | None => None
  | Some (Files.File b) => Some (loads b)
  | Some _ => Some (Raise (OSError p))
  end.

(** The index cache [cache] is the one that the files of [fs] hold. *)
Definition represents {Vectorizer DocVectors : Type}
    (loads_vectorizer : string -> result Vectorizer)
    (loads_vectors : string -> result DocVectors)
    (loads_documents : string -> result (list Doc))
    (fs : Files.FS) (cache : IndexCache Vectorizer DocVectors) : Prop :=
  dir_exists cache = Files.path_exists fs "cache"
  /\ writable cache = Files.can_write fs
  /\ forall key,
       vectorizer_pkl cache !! key
       = pickled loads_vectorizer fs
           (RetrieverCache.vectorizer_path "cache" key)
       /\ vectors_pkl cache !! key
          = pickled loads_vectors fs (RetrieverCache.vectors_path "cache" key)
       /\ documents_pkl cache !! key
          = pickled loads_documents fs
              (RetrieverCache.documents_path "cache" key).

End MoreNotions.

Module MoreSamples.
Import Py.
Import Retriever.
Import Files.

(** An empty cache directory that can be written. *)
Definition fresh_cache : IndexCache unit (list Q) :=
  mkIndexCache false true ∅ ∅ ∅.

(** A stand-in for [fit_transform]: the length of each content. *)
Definition length_fit (v : unit) (contents : list string)
  : result (unit * list Q) :=
  Ok (tt, map (fun c => inject_Z (Z.of_nat (len c))) contents).

(** A [fit_transform] that raises, as scikit-learn does on documents
    that hold stop words only. *)
Definition failing_fit (v : unit) (contents : list string)
  : result (unit * list Q) :=
  Raise (LibraryError "empty vocabulary").

(** The documents of [Samples.plain_docs] under other file names. *)
Definition renamed_docs : list Doc :=
  [Samples.doc "x.txt" "alpha"; Samples.doc "y.txt" "beta"].

(** A stand-in for [f"{score:.3f}"] that keeps the integer part. *)
Definition format_units (q : Q) : string :=
  str_nat (Z.to_nat (Qnum q / Z.pos (Qden q))) ++ ".000".


(** A DOCX with two paragraphs and one image that cannot be read. *)
Definition docx_lib : DocumentLoader.Libraries :=
  DocumentLoader.mkLibraries Samples.star_glob string "" String.append
    (fun h => h) Samples.sample_json_loads (fun _ => Samples.entry_text)
    (fun _ _ => Ok "1700000000.0") (fun s => Some s) Samples.no_pages false
    Samples.no_pages
    (fun _ p => Ok ([Raise (LibraryError "broken image")],
                    ["first paragraph"; "second paragraph"]))
    (fun p => "/app/" ++ p).





End MoreSamples.

(** * Properties *)

(** ** The document loaders *)

Module LoaderProps.
Import Py.
Import Retriever.
Import Files.

(** *** Missing folder *)

(** C10. A folder that does not exist gives the empty list, in both
    loaders, and nothing is raised. *)
Theorem load_missing_folder
    (lib : DocumentLoader.Libraries) (lib' : DocumentLoaderWithOcr.Libraries)
    (fs : FS) (folder_path : string) :
  path_exists fs folder_path = false ->
  DocumentLoader.load_documents_from_folder lib folder_path fs = (Ok [], fs)
  /\ DocumentLoaderWithOcr.load_documents_from_folder_with_ocr lib' fs
       folder_path = Ok [].
Proof.
  intros Hmissing.
  unfold DocumentLoader.load_documents_from_folder,
    DocumentLoaderWithOcr.load_documents_from_folder_with_ocr.
  rewrite Hmissing. split; reflexivity.
Qed.

Lemma load_missing_folder_witness :
  path_exists Samples.empty_fs "data/" = false
  /\ DocumentLoader.load_documents_from_folder Samples.loader_lib "data/"
       Samples.empty_fs = (Ok [], Samples.empty_fs)
  /\ DocumentLoaderWithOcr.load_documents_from_folder_with_ocr
       Samples.ocr_lib Samples.empty_fs "data/" = Ok [].
Proof.
  split; [reflexivity|].
  apply (load_missing_folder Samples.loader_lib Samples.ocr_lib
           Samples.empty_fs "data/").
  reflexivity.
Defined.

(** *** One document per discovered file *)

Section WithOcr.

Variable lib : DocumentLoaderWithOcr.Libraries.

Lemma load_files_with_ocr_length fs files documents :
  length (DocumentLoaderWithOcr.load_files lib fs files documents)
  = (length documents + length files)%nat.
Proof.
  revert documents.
  induction files as [|file_path rest IH]; intros documents; simpl.
  - lia.
  - destruct (DocumentLoaderWithOcr.load_file lib fs file_path);
      rewrite IH, length_app; simpl; lia.
Qed.

(** In [document_loader_with_ocr.py] every discovered file gives one
    document, whatever its extraction does. *)
Lemma load_with_ocr_complete fs folder_path :
  path_exists fs folder_path = true ->
  exists docs,
    DocumentLoaderWithOcr.load_documents_from_folder_with_ocr lib fs
      folder_path = Ok docs
    /\ length docs
       = length (DocumentLoaderWithOcr.all_files lib fs folder_path).
Proof.
  intros Hex. unfold DocumentLoaderWithOcr.load_documents_from_folder_with_ocr.
  rewrite Hex. simpl. eexists. split; [reflexivity|].
  rewrite load_files_with_ocr_length. reflexivity.
Qed.

(** The document of a file whose extraction raised names the error. *)
Lemma load_files_with_ocr_error fs file_path e :
  DocumentLoaderWithOcr.load_file lib fs file_path = Raise e ->
  DocumentLoaderWithOcr.load_files lib fs [file_path] []
  = [DocumentLoaderWithOcr.error_doc file_path e].
Proof. intros H. simpl. rewrite H. reflexivity. Qed.

End WithOcr.

Section Plain.

Variable lib : DocumentLoader.Libraries.

(** In [document_loader.py] the list is never longer than the list of
    files, and a file is lost exactly when its extraction raises. *)
Lemma load_files_length fs files documents docs fs' :
  DocumentLoader.load_files lib files documents fs = (docs, fs') ->
  exists l, docs = Ok l
    /\ (length l <= length documents + length files)%nat.
Proof.
  revert documents fs.
  induction files as [|file_path rest IH]; intros documents fs H; simpl in H.
  - inversion H; subst. eexists; split; [reflexivity|]. simpl. lia.
  - unfold bindM at 1 in H. unfold tryM at 1 in H. unfold bindM at 1 in H.
    destruct (DocumentLoader.load_file lib file_path fs) as [[d|e] fs1] eqn:E;
      simpl in H.
    + apply IH in H. destruct H as (l & -> & Hl). eexists; split; [reflexivity|].
      rewrite length_app in Hl. simpl in *. lia.
    + apply IH in H. destruct H as (l & -> & Hl). eexists; split; [reflexivity|].
      simpl. lia.
Qed.

End Plain.

(** C1. In [document_loader.py] a file whose extraction raises is lost:
    the sample folder holds one text file that cannot be opened, the
    loader finds it and returns no document. *)
Theorem load_drops_unreadable_file :
  DocumentLoader.all_files Samples.loader_lib Samples.locked_fs "data/"
  = ["data/notes.txt"]
  /\ fst (DocumentLoader.load_documents_from_folder Samples.loader_lib
            "data/" Samples.locked_fs) = Ok []
  /\ exists d,
       DocumentLoaderWithOcr.load_documents_from_folder_with_ocr
         Samples.ocr_lib Samples.locked_fs "data/" = Ok [d].
Proof.
  split; [vm_compute; reflexivity|].
  split; [vm_compute; reflexivity|].
  eexists. vm_compute. reflexivity.
Qed.

(** *** The cache of OCR results *)

Section Cache.

Variable lib : DocumentLoader.Libraries.


Lemma get_file_hash_state file_path fs :
  snd (DocumentLoader.get_file_hash lib file_path fs) = fs.
Proof. reflexivity. Qed.






End Cache.



End LoaderProps.

(** ** The Python primitives at work *)

Module PyExamples.
Import Py.
Import Files.

Example lower_ex : lower "What is Python?" = "what is python?".
Proof. reflexivity. Qed.

Example str_in_ex :
  str_in "python" "web python dev" = true
  /\ str_in "" "" = true /\ str_in "ab" "a b" = false.
Proof. repeat split; reflexivity. Qed.

Example split_ex : split "  the  a an " = ["the"; "a"; "an"].
Proof. reflexivity. Qed.

Example findall_month_ex :
  findall match_month_year "due march  2024, not xmarch 2024 or may 20245"
  = ["march  2024"].
Proof. vm_compute. reflexivity. Qed.

Example findall_short_year_ex :
  findall match_short_year "on 3/2024 and 12-2023 but 123/2024"
  = ["3/2024"; "12-2023"].
Proof. vm_compute. reflexivity. Qed.

Example findall_year_short_ex :
  findall match_year_short "2024/3 2023-12 2022/123" = ["2024/3"; "2023-12"].
Proof. vm_compute. reflexivity. Qed.

Example slice_ex :
  slice_to [1; 2; 3; 4]%nat 2 = [1; 2]%nat
  /\ slice_to [1; 2; 3; 4]%nat (-1) = [1; 2; 3]%nat
  /\ slice_to [1; 2]%nat 5 = [1; 2]%nat
  /\ slice_to [1; 2]%nat (-5) = [].
Proof. repeat split; reflexivity. Qed.

Example key_terms_ex :
  Retriever.extract_key_terms "What is Python used for?" = "python used for"
  /\ Retriever.extract_key_terms "the a an" = "".
Proof. split; reflexivity. Qed.

Example paths_ex :
  splitext "a.tar.gz" = ("a.tar", ".gz")
  /\ splitext ".bashrc" = (".bashrc", "")
  /\ basename "data/x.pdf" = "x.pdf"
  /\ path_join "data/" "*.pdf" = "data/*.pdf"
  /\ path_join "data" "*.pdf" = "data/*.pdf".
Proof. repeat split; reflexivity. Qed.

End PyExamples.

(** ** The retriever: scores, slices and sorting *)

Module RetrieverFacts.
Import Py.
Import Retriever.
Import Notions.

Lemma Qltb_true x y : Qltb x y = true <-> (x < y)%Q.
Proof.
  unfold Qltb. rewrite negb_true_iff. split.
  - intros H. apply Qnot_le_lt. intros Hle.
    apply Qle_bool_iff in Hle. congruence.
  - intros H. destruct (Qle_bool y x) eqn:E; [|reflexivity].
    apply Qle_bool_iff in E. exfalso. apply (Qlt_not_le _ _ H E).
Qed.

Lemma Qltb_false x y : Qltb x y = false <-> (y <= x)%Q.
Proof.
  unfold Qltb. rewrite negb_false_iff. apply Qle_bool_iff.
Qed.

Lemma max_cases a b :
  (Qltb a b = true /\ max a b = b) \/ (Qltb a b = false /\ max a b = a).
Proof. unfold max. destruct (Qltb a b); auto. Qed.


Lemma max_ge_r a b : (b <= max a b)%Q.
Proof.
  destruct (max_cases a b) as [[H ->]|[H ->]].
  - apply Qle_refl.
  - apply Qltb_false, H.
Qed.

Lemma min_cases a b :
  (Qltb b a = true /\ min a b = b) \/ (Qltb b a = false /\ min a b = a).
Proof. unfold min. destruct (Qltb b a); auto. Qed.

Lemma slice_to_nil {A} (k : Z) : slice_to (@nil A) k = [].
Proof. unfold slice_to. destruct (0 <=? k)%Z; apply take_nil. Qed.

Lemma slice_to_nonneg {A} (l : list A) (k : Z) :
  (0 <= k)%Z -> slice_to l k = take (Z.to_nat k) l.
Proof.
  intros H. unfold slice_to.
  destruct (0 <=? k)%Z eqn:E; [reflexivity|].
  apply Z.leb_gt in E. lia.
Qed.

Lemma slice_to_sublist {A} (l : list A) (k : Z) x :
  x ∈ slice_to l k -> x ∈ l.
Proof.
  unfold slice_to. destruct (0 <=? k)%Z; intros H;
    apply elem_of_take in H; destruct H as (i & H & _);
    eapply list_elem_of_lookup_2; eassumption.
Qed.

Lemma is_empty_true {A} (l : list A) : is_empty l = true <-> l = [].
Proof. destruct l; simpl; split; congruence. Qed.

End RetrieverFacts.

(** ** The retriever never raises *)

Module RetrieverTotal.
Import Py.
Import Retriever.

Section Total.

Variables Vectorizer DocVectors : Type.
Variable cosine_scores : Vectorizer -> DocVectors -> string -> result (list Q).
Variable argsort : list Q -> list nat.

Lemma search_never_raises self query top_k :
  exists l,
    _search_with_query Vectorizer DocVectors cosine_scores argsort self
      query top_k = Ok l.
Proof.
  unfold _search_with_query, try_except.
  destruct (search_body _ _ _ _ _ _ _); eauto.
Qed.

(** C6. [retrieve_relevant_chunks] returns a list and raises nothing,
    for every retriever, query and count: so does each search round;
    and without an index, or without documents, the list is empty. *)
Theorem retrieve_never_raises :
  forall (self : SimpleRetriever Vectorizer DocVectors) (query : string)
         (top_k : Z),
    (exists l,
       retrieve_relevant_chunks Vectorizer DocVectors cosine_scores argsort
         self query top_k = Ok l)
    /\ (exists l,
          _search_with_query Vectorizer DocVectors cosine_scores argsort
            self query top_k = Ok l)
    /\ (forall docs use dir v,
          retrieve_relevant_chunks Vectorizer DocVectors cosine_scores
            argsort (mkRetriever docs use dir v None) query top_k = Ok [])
    /\ (forall use dir v dv,
          retrieve_relevant_chunks Vectorizer DocVectors cosine_scores
            argsort (mkRetriever [] use dir v dv) query top_k = Ok []).
Proof.
  intros self query top_k. split; [|split; [|split]].
  - unfold retrieve_relevant_chunks.
    destruct (doc_vectors self); [|eauto].
    destruct (is_empty (documents self)); [eauto|].
    unfold try_except. destruct (retrieve_body _ _ _ _ _ _ _); eauto.
  - apply search_never_raises.
  - reflexivity.
  - intros use dir v dv. unfold retrieve_relevant_chunks. simpl.
    destruct dv; reflexivity.
Qed.

(** For an empty corpus [build_index] leaves [doc_vectors] at [None]. *)
Lemma init_empty_corpus new_vectorizer fit_transform Md5 md5_new md5_update
    md5_hexdigest use cache r cache' :
  init Vectorizer DocVectors new_vectorizer fit_transform Md5 md5_new
    md5_update md5_hexdigest [] use cache = Ok (r, cache') ->
  doc_vectors r = None /\ documents r = [].
Proof.
  unfold init, build_index, bind. simpl.
  destruct (dir_exists cache); [|destruct (writable cache)];
    intros H; inversion H; subst; auto.
Qed.

End Total.

(** A round in which the vectorizer raises still returns a list. *)
Example search_absorbs_exception :
  search_body unit (list Q) Samples.failing_scores stable_argsort
    (Samples.retriever_of Samples.python_docs [0.4; 0.2; 0.1]%Q) "python" 3
  = Raise (LibraryError "dimension mismatch")
  /\ retrieve_relevant_chunks unit (list Q) Samples.failing_scores
       stable_argsort
       (Samples.retriever_of Samples.python_docs [0.4; 0.2; 0.1]%Q)
       "python" 3 = Ok [].
Proof. split; vm_compute; reflexivity. Qed.

End RetrieverTotal.

(** ** The stable sort *)

Module SortFacts.
Import Py.
Import Retriever.
Import Notions.
Import RetrieverFacts.
Local Open Scope list_scope.

Section Sort.

Context {A : Type}.
Implicit Types (x y : Q * A) (l u v : list (Q * A)).

Lemma insert_desc_perm x l : Permutation (insert_desc x l) (x :: l).
Proof.
  induction l as [|y t IH]; simpl; [reflexivity|].
  destruct (Qltb (fst x) (fst y)); [|reflexivity].
  rewrite IH. apply perm_swap.
Qed.

Lemma sort_desc_perm l : Permutation (sort_desc l) l.
Proof.
  induction l as [|x t IH]; simpl; [reflexivity|].
  rewrite insert_desc_perm, IH. reflexivity.
Qed.

Lemma sort_desc_length l : length (sort_desc l) = length l.
Proof. apply Permutation_length, sort_desc_perm. Qed.

Lemma sorted_desc_cons x l :
  sorted_desc (x :: l) <->
  Forall (fun y => (fst y <= fst x)%Q) l /\ sorted_desc l.
Proof. unfold sorted_desc. apply StronglySorted_cons. Qed.

Lemma insert_desc_sorted x l :
  sorted_desc l -> sorted_desc (insert_desc x l).
Proof.
  induction l as [|y t IH]; simpl; intros Hs.
  - apply sorted_desc_cons. split; constructor.
  - apply sorted_desc_cons in Hs. destruct Hs as [Hy Ht].
    destruct (Qltb (fst x) (fst y)) eqn:E.
    + apply sorted_desc_cons. split; [|auto].
      rewrite insert_desc_perm. constructor; [|assumption].
      apply Qlt_le_weak, Qltb_true, E.
    + apply Qltb_false in E.
      apply sorted_desc_cons. split.
      * constructor; [assumption|].
        eapply Forall_impl; [exact Hy|]. simpl. intros z Hz.
        eapply Qle_trans; eassumption.
      * apply sorted_desc_cons. auto.
Qed.

Lemma sort_desc_sorted l : sorted_desc (sort_desc l).
Proof.
  induction l as [|x t IH]; simpl.
  - constructor.
  - apply insert_desc_sorted, IH.
Qed.

(** A list that is sorted already is left as it is. *)
Lemma sort_desc_id l : sorted_desc l -> sort_desc l = l.
Proof.
  induction l as [|x t IH]; simpl; intros Hs; [reflexivity|].
  apply sorted_desc_cons in Hs. destruct Hs as [Hx Ht].
  rewrite (IH Ht). destruct t as [|y t']; simpl; [reflexivity|].
  inversion Hx as [|? ? Hy _]; subst.
  apply Qltb_false in Hy. rewrite Hy. reflexivity.
Qed.

Lemma insert_desc_app x u v :
  insert_desc x (u ++ v)
  = if forallb (fun y => Qltb (fst x) (fst y)) u
    then u ++ insert_desc x v else insert_desc x u ++ v.
Proof.
  induction u as [|y u' IH]; simpl; [reflexivity|].
  destruct (Qltb (fst x) (fst y)); simpl; [|reflexivity].
  rewrite IH. destruct (forallb _ u'); reflexivity.
Qed.

(** Where an element goes: before the first key that is not greater
    than its own. *)
Lemma insert_desc_split x l :
  sorted_desc l ->
  exists u v, l = u ++ v /\ insert_desc x l = u ++ x :: v
    /\ Forall (fun y => (fst x < fst y)%Q) u
    /\ Forall (fun y => (fst y <= fst x)%Q) v.
Proof.
  induction l as [|y t IH]; simpl; intros Hs.
  - exists [], []. repeat split; constructor.
  - apply sorted_desc_cons in Hs. destruct Hs as [Hy Ht].
    destruct (Qltb (fst x) (fst y)) eqn:E.
    + destruct (IH Ht) as (u & v & -> & -> & Hu & Hv).
      exists (y :: u), v. repeat split; [|assumption].
      constructor; [|assumption]. apply Qltb_true, E.
    + apply Qltb_false in E. exists [], (y :: t).
      repeat split; [constructor|].
      constructor; [assumption|].
      eapply Forall_impl; [exact Hy|]. simpl. intros z Hz.
      eapply Qle_trans; eassumption.
Qed.

(** Sorting commutes with taking one element out: the others keep
    their order. *)
Lemma sort_desc_middle (a b : list (Q * A)) (e : Q * A) :
  exists l1 l2,
    sort_desc (a ++ e :: b) = l1 ++ e :: l2
    /\ sort_desc (a ++ b) = l1 ++ l2.
Proof.
  induction a as [|x a' IH]; simpl.
  - destruct (insert_desc_split e (sort_desc b) (sort_desc_sorted b))
      as (u & v & Hb & He & _ & _).
    exists u, v. split; assumption.
  - destruct IH as (l1 & l2 & H1 & H2).
    pose proof (sort_desc_sorted (a' ++ e :: b)) as Hs. rewrite H1 in Hs.
    rewrite H1, H2, !insert_desc_app.
    destruct (forallb (fun y => Qltb (fst x) (fst y)) l1).
    + simpl. destruct (Qltb (fst x) (fst e)) eqn:E.
      * exists l1, (insert_desc x l2). split; reflexivity.
      * exists (l1 ++ [x]), l2. rewrite <- !app_assoc. simpl.
        split; [reflexivity|]. f_equal.
        destruct l2 as [|y l2']; simpl; [reflexivity|].
        apply StronglySorted_app_1_r in Hs.
        apply sorted_desc_cons in Hs. destruct Hs as [Hs _].
        inversion Hs as [|? ? Hy _]; subst.
        apply Qltb_false in E.
        assert (Qltb (fst x) (fst y) = false) as ->; [|reflexivity].
        apply Qltb_false. eapply Qle_trans; eassumption.
    + exists (insert_desc x l1), l2. split; reflexivity.
Qed.

(** The keys of the elements alone decide the order. *)
Lemma sort_desc_map {B} (f : A -> B) l :
  sort_desc (map (fun p => (fst p, f (snd p))) l)
  = map (fun p => (fst p, f (snd p))) (sort_desc l).
Proof.
  induction l as [|x t IH]; simpl; [reflexivity|].
  rewrite IH. generalize (sort_desc t). intros s.
  induction s as [|y s' IHs]; simpl; [reflexivity|].
  destruct (Qltb (fst x) (fst y)); simpl; [|reflexivity].
  rewrite IHs. reflexivity.
Qed.

End Sort.

(** *** Prefixes of a list and of the list with one element more *)

Section Take.

Context {A : Type}.
Implicit Types (l : list A).

Lemma take_without (l1 l2 : list A) (x : A) k d :
  d ∈ take k (l1 ++ l2) -> d ∈ take (S k) (l1 ++ x :: l2).
Proof.
  rewrite !elem_of_take. intros (i & Hi & Hk).
  destruct (decide (i < length l1)) as [Hlt|Hge].
  - exists i. split; [|lia].
    rewrite lookup_app_l in Hi by assumption.
    rewrite lookup_app_l by assumption. assumption.
  - exists (S i). split; [|lia].
    rewrite lookup_app_r in Hi by lia.
    rewrite lookup_app_r by lia.
    replace (S i - length l1) with (S (i - length l1)) by lia.
    simpl. assumption.
Qed.

Lemma take_with (l1 l2 : list A) (x : A) k d :
  d ∈ take k (l1 ++ x :: l2) ->
  (d = x /\ length l1 < k) \/ d ∈ take k (l1 ++ l2).
Proof.
  rewrite !elem_of_take. intros (i & Hi & Hk).
  destruct (decide (i < length l1)) as [Hlt|Hge].
  - right. exists i. split; [|lia].
    rewrite lookup_app_l in Hi by assumption.
    rewrite lookup_app_l by assumption. assumption.
  - rewrite lookup_app_r in Hi by lia.
    destruct (i - length l1) as [|j] eqn:E; simpl in Hi.
    + left. split; [congruence|lia].
    + right. exists (length l1 + j). split; [|lia].
      rewrite lookup_app_r by lia.
      replace (length l1 + j - length l1) with j by lia. assumption.
Qed.

Lemma take_at (l1 l2 : list A) (x : A) k :
  length l1 < k -> x ∈ take k (l1 ++ x :: l2).
Proof.
  intros H. apply elem_of_take. exists (length l1). split; [|assumption].
  rewrite lookup_app_r by lia. rewrite Nat.sub_diag. reflexivity.
Qed.

End Take.

End SortFacts.

(** ** The dictionary of matches *)

Module DictFacts.
Import Py.
Import Retriever.
Import Notions.
Import RetrieverFacts.
Local Open Scope list_scope.

Lemma dict_get_None k (d : dict) : dict_get k d = None <-> k ∉ map fst d.
Proof.
  induction d as [|[k' v] t IH]; simpl.
  - split; [intros _; apply not_elem_of_nil|reflexivity].
  - destruct (String.eqb_spec k k') as [->|Hne].
    + split; [discriminate|]. intros H. exfalso. apply H. left.
    + rewrite IH. rewrite not_elem_of_cons. tauto.
Qed.

Lemma dict_get_Some k (d : dict) v :
  dict_get k d = Some v ->
  exists a b, d = a ++ (k, v) :: b /\ k ∉ map fst a.
Proof.
  induction d as [|[k' v'] t IH]; simpl; [discriminate|].
  destruct (String.eqb_spec k k') as [->|Hne].
  - intros [= ->]. exists [], t. split; [reflexivity|apply not_elem_of_nil].
  - intros H. destruct (IH H) as (a & b & -> & Ha).
    exists ((k', v') :: a), b. split; [reflexivity|].
    simpl. rewrite not_elem_of_cons. tauto.
Qed.

Lemma dict_get_elem k (d : dict) v : dict_get k d = Some v -> (k, v) ∈ d.
Proof.
  intros H. destruct (dict_get_Some _ _ _ H) as (a & b & -> & _).
  apply elem_of_app. right. left.
Qed.

(** A new key goes last. *)
Lemma dict_set_new k v (d : dict) :
  dict_get k d = None -> dict_set k v d = d ++ [(k, v)].
Proof.
  induction d as [|[k' v'] t IH]; simpl; [reflexivity|].
  destruct (String.eqb_spec k k') as [->|Hne]; [discriminate|].
  intros H. rewrite (IH H). reflexivity.
Qed.

(** A present key keeps its place. *)
Lemma dict_set_at k v v' (a b : dict) :
  k ∉ map fst a -> dict_set k v (a ++ (k, v') :: b) = a ++ (k, v) :: b.
Proof.
  induction a as [|[k' w] t IH]; simpl; intros Ha.
  - rewrite String.eqb_refl. reflexivity.
  - rewrite not_elem_of_cons in Ha. destruct Ha as [Hne Ha].
    destruct (String.eqb_spec k k') as [->|_]; [congruence|].
    rewrite (IH Ha). reflexivity.
Qed.

Lemma dict_get_set k k' v (d : dict) :
  dict_get k (dict_set k' v d)
  = if String.eqb k k' then Some v else dict_get k d.
Proof.
  induction d as [|[k'' w] t IH]; simpl.
  - destruct (String.eqb k k'); reflexivity.
  - destruct (String.eqb_spec k' k'') as [->|Hne]; simpl.
    + destruct (String.eqb k k''); reflexivity.
    + rewrite IH. destruct (String.eqb_spec k k'') as [->|Hne'].
      * destruct (String.eqb_spec k'' k') as [->|_]; [congruence|reflexivity].
      * reflexivity.
Qed.

Lemma dict_set_keys k v (d : dict) :
  map fst (dict_set k v d)
  = if decide (k ∈ map fst d) then map fst d else map fst d ++ [k].
Proof.
  induction d as [|[k' w] t IH].
  - simpl. destruct (decide (k ∈ [])) as [H|_]; [|reflexivity].
    exfalso. revert H. apply not_elem_of_nil.
  - cbn [dict_set map fst]. destruct (String.eqb_spec k k') as [->|Hne].
    + cbn [map fst]. destruct (decide (k' ∈ k' :: map fst t)) as [_|H];
        [reflexivity|]. exfalso. apply H. left.
    + cbn [map fst]. rewrite IH.
      destruct (decide (k ∈ map fst t)) as [Hin|Hnin];
        destruct (decide (k ∈ k' :: map fst t)) as [Hin'|Hnin'];
        try reflexivity.
      * exfalso. apply Hnin'. right. assumption.
      * exfalso. apply elem_of_cons in Hin'. tauto.
Qed.

Lemma dict_set_ok k v (d : dict) :
  dict_ok d -> file_name v = Some k -> similarity_score v <> None ->
  dict_ok (dict_set k v d).
Proof.
  intros [Hnd Hall] Hname Hscore. split.
  - rewrite dict_set_keys. destruct (decide (k ∈ map fst d)); [assumption|].
    apply NoDup_app. split; [assumption|]. split.
    + intros x Hx Hk. apply list_elem_of_singleton in Hk. subst. contradiction.
    + apply NoDup_singleton.
  - destruct (dict_get k d) as [cur|] eqn:E.
    + destruct (dict_get_Some _ _ _ E) as (a & b & -> & Ha).
      rewrite dict_set_at by assumption.
      rewrite Forall_app, Forall_cons in *.
      destruct Hall as (? & ? & ?). auto.
    + rewrite dict_set_new by assumption.
      rewrite Forall_app, Forall_singleton. auto.
Qed.

Lemma dict_ok_nil : dict_ok [].
Proof. split; constructor. Qed.

Lemma dict_ok_get k (d : dict) v :
  dict_ok d -> dict_get k d = Some v ->
  file_name v = Some k /\ similarity_score v <> None.
Proof.
  intros [_ Hall] H. apply dict_get_elem in H.
  rewrite Forall_forall in Hall. apply (Hall _ H).
Qed.

(** The values of a well-formed dictionary have distinct names. *)
Lemma dict_ok_names (d : dict) :
  dict_ok d -> map file_name (dict_values d) = map Some (map fst d).
Proof.
  intros [_ Hall]. unfold dict_values. induction Hall as [|[k v] t [H _] _ IH].
  - reflexivity.
  - simpl in *. rewrite H, IH. reflexivity.
Qed.

Lemma dict_ok_values_NoDup (d : dict) :
  dict_ok d -> NoDup (map file_name (dict_values d)).
Proof.
  intros H. rewrite (dict_ok_names d H). destruct H as [Hnd _].
  apply (NoDup_fmap_2 Some). assumption.
Qed.

Lemma dict_ok_values_scored (d : dict) :
  dict_ok d -> Forall (fun v => similarity_score v <> None) (dict_values d).
Proof.
  intros [_ Hall]. unfold dict_values. rewrite Forall_fmap.
  eapply Forall_impl; [exact Hall|]. simpl. tauto.
Qed.

Lemma dict_ok_values_named (d : dict) :
  dict_ok d -> Forall (fun v => file_name v <> None) (dict_values d).
Proof.
  intros [_ Hall]. unfold dict_values. rewrite Forall_fmap.
  eapply Forall_impl; [exact Hall|]. simpl. intros [k v] [H _]. simpl in *.
  congruence.
Qed.

(** *** The two loops as folds *)

Lemma ready_name d : file_name d <> None -> file_name d = Some (name d).
Proof. unfold name. destruct (file_name d); [reflexivity|congruence]. Qed.

Lemma ready_score d :
  similarity_score d <> None -> similarity_score d = Some (score d).
Proof.
  unfold score. destruct (similarity_score d); [reflexivity|congruence].
Qed.

Lemma mark_ready k s d : file_name d <> None -> ready (mark k s d).
Proof. intros H. split; simpl; [assumption|discriminate]. Qed.

Lemma exact_step_ok (d : dict) doc :
  dict_ok d -> ready doc -> dict_ok (exact_step d doc).
Proof.
  intros Hd [Hn Hs]. apply dict_set_ok; auto using ready_name.
Qed.

Lemma merge_step_ok (d : dict) doc :
  dict_ok d -> ready doc -> dict_ok (merge_step d doc).
Proof.
  intros Hd [Hn Hs]. unfold merge_step.
  destruct (dict_get (name doc) d) as [cur|] eqn:E.
  - destruct (Qltb (score cur) (score doc)); [|assumption].
    destruct (dict_ok_get _ _ _ Hd E) as [Hcn _].
    apply dict_set_ok; [assumption|exact Hcn|discriminate].
  - apply dict_set_ok; auto using ready_name.
Qed.

Lemma fold_exact_ok ms (d : dict) :
  dict_ok d -> Forall ready ms -> dict_ok (fold_left exact_step ms d).
Proof.
  revert d. induction ms as [|m t IH]; simpl; intros d Hd Hms; [assumption|].
  inversion Hms; subst. apply IH; [apply exact_step_ok|]; assumption.
Qed.

Lemma fold_merge_ok ms (d : dict) :
  dict_ok d -> Forall ready ms -> dict_ok (fold_left merge_step ms d).
Proof.
  revert d. induction ms as [|m t IH]; simpl; intros d Hd Hms; [assumption|].
  inversion Hms; subst. apply IH; [apply merge_step_ok|]; assumption.
Qed.

Lemma add_exact_fold ms (d : dict) :
  Forall ready ms -> add_exact ms d = Ok (fold_left exact_step ms d).
Proof.
  revert d. induction ms as [|m t IH]; simpl; intros d Hms; [reflexivity|].
  inversion Hms as [|? ? [Hn _] Ht]; subst.
  unfold get_file_name. rewrite (ready_name m Hn). simpl.
  apply IH, Ht.
Qed.

Lemma add_tfidf_fold ms (d : dict) :
  dict_ok d -> Forall ready ms ->
  add_tfidf ms d = Ok (fold_left merge_step ms d).
Proof.
  revert d. induction ms as [|m t IH]; simpl; intros d Hd Hms; [reflexivity|].
  inversion Hms as [|? ? Hm Ht]; subst.
  pose proof (merge_step_ok d m Hd Hm) as Hd'.
  destruct Hm as [Hn Hs].
  unfold get_file_name. rewrite (ready_name m Hn). simpl.
  unfold merge_step in *.
  destruct (dict_get (name m) d) as [cur|] eqn:E.
  - destruct (dict_ok_get _ _ _ Hd E) as [_ Hcs].
    unfold get_score. rewrite (ready_score cur Hcs), (ready_score m Hs). simpl.
    destruct (Qltb (score cur) (score m)); apply IH; assumption.
  - apply IH; assumption.
Qed.

Lemma map_result_Ok {A B} (f : A -> result B) (g : A -> B) l :
  Forall (fun x => f x = Ok (g x)) l -> map_result f l = Ok (map g l).
Proof.
  induction 1 as [|x t Hx _ IH]; simpl; [reflexivity|].
  rewrite Hx, IH. reflexivity.
Qed.

Lemma combine_keyed l : combine (map score l) l = keyed l.
Proof.
  unfold keyed. induction l as [|x t IH]; simpl; [reflexivity|].
  rewrite IH. reflexivity.
Qed.

Lemma sort_by_score_ranked l :
  Forall (fun d => similarity_score d <> None) l ->
  sort_by_score l = Ok (ranked l).
Proof.
  intros H. unfold sort_by_score.
  rewrite (map_result_Ok get_score score).
  - simpl. rewrite combine_keyed. reflexivity.
  - eapply Forall_impl; [exact H|]. simpl. intros d Hd.
    unfold get_score. rewrite (ready_score d Hd). reflexivity.
Qed.

Lemma sort_by_score_default_ranked l : sort_by_score_default l = ranked l.
Proof. reflexivity. Qed.

End DictFacts.

(** ** One search round in closed form *)

Module SearchFacts.
Import Py.
Import Retriever.
Import Notions.
Import RetrieverFacts.
Import SortFacts.
Import DictFacts.
Local Open Scope list_scope.

Lemma exact_match_mark terms d d' :
  exact_match terms d = Some d' ->
  exists s, d' = mark exact s d
    /\ s = snd (scan_terms (lower (get_content d)) terms (false, 0%Q)).
Proof.
  unfold exact_match.
  destruct (fst (scan_terms _ _ _)); [|discriminate].
  intros [= <-]. eexists. split; reflexivity.
Qed.

Lemma exact_matches_ready query docs :
  named docs -> Forall ready (exact_matches query docs).
Proof.
  intros Hn. apply Forall_forall. intros d' Hd'.
  unfold exact_matches in Hd'. apply list_elem_of_omap in Hd'.
  destruct Hd' as (d & Hd & Hm).
  apply exact_match_mark in Hm. destruct Hm as (s & -> & _).
  apply mark_ready. unfold named in Hn. rewrite Forall_forall in Hn. auto.
Qed.

Lemma tf_of_ready docs sims i d :
  named docs -> tf_of docs sims i = Some d -> ready d.
Proof.
  intros Hn. unfold tf_of.
  destruct (sims !! i) as [s|]; [|discriminate].
  destruct (docs !! i) as [d0|] eqn:E; [|discriminate].
  destruct (Qltb 0.05 s); [|discriminate].
  intros [= <-]. apply mark_ready.
  unfold named in Hn. rewrite Forall_forall in Hn. apply Hn.
  eapply list_elem_of_lookup_2; eassumption.
Qed.

Lemma omap_tf_ready docs sims idxs :
  named docs -> Forall ready (omap (tf_of docs sims) idxs).
Proof.
  intros Hn. apply Forall_forall. intros d Hd.
  apply list_elem_of_omap in Hd. destruct Hd as (i & _ & Hi).
  eapply tf_of_ready; eassumption.
Qed.

(** With indices inside the scores and the documents, the loop over
    [top_indices] raises nothing. *)
Lemma tfidf_loop_closed docs sims idxs :
  Forall (fun i => i < length sims /\ i < length docs)%nat idxs ->
  tfidf_loop docs sims idxs = Ok (omap (tf_of docs sims) idxs).
Proof.
  induction 1 as [|i t [Hs Hd] _ IH]; simpl; [reflexivity|].
  unfold tf_of at 1.
  destruct (lookup_lt_is_Some_2 sims i Hs) as [s Es].
  destruct (lookup_lt_is_Some_2 docs i Hd) as [d Ed].
  rewrite Es, Ed. destruct (Qltb 0.05 s).
  - rewrite IH. reflexivity.
  - exact IH.
Qed.

(** Scores that do not pass the threshold give no match, whatever the
    indices are; an index outside the scores raises. *)
Lemma tfidf_loop_low docs sims idxs :
  Forall (fun s => (s <= 0.05)%Q) sims ->
  tfidf_loop docs sims idxs = Ok [] \/
  exists e, tfidf_loop docs sims idxs = Raise e.
Proof.
  intros Hlow. induction idxs as [|i t IH]; simpl; [left; reflexivity|].
  destruct (sims !! i) as [s|] eqn:E; [|right; eauto].
  assert (Qltb 0.05 s = false) as ->; [|exact IH].
  apply Qltb_false. rewrite Forall_forall in Hlow. apply Hlow.
  eapply list_elem_of_lookup_2; eassumption.
Qed.

Section Round.

Variables Vectorizer DocVectors : Type.
Variable cosine_scores : Vectorizer -> DocVectors -> string -> result (list Q).
Variable argsort : list Q -> list nat.
Variable self : SimpleRetriever Vectorizer DocVectors.

Hypothesis argsort_ok : argsort_spec argsort.
Hypothesis docs_named : named (documents self).
Hypothesis index_aligned : aligned cosine_scores self.

Lemma similarities_length query sims :
  similarities Vectorizer DocVectors cosine_scores self query = Ok sims ->
  length sims = length (documents self).
Proof.
  unfold similarities. destruct (doc_vectors self) as [dv|] eqn:E;
    [|discriminate].
  intros H. eapply index_aligned; eassumption.
Qed.

Lemma argsort_in_range sims i :
  i ∈ argsort sims -> (i < length sims)%nat.
Proof.
  intros H. destruct (argsort_ok sims) as [Hp _].
  rewrite Hp in H. apply elem_of_seq in H. lia.
Qed.

Lemma top_indices_in_range sims n top_k :
  Forall (fun i => i < length sims)%nat
    (top_indices argsort sims n top_k).
Proof.
  apply Forall_forall. intros i Hi. unfold top_indices in Hi.
  apply slice_to_sublist in Hi. apply list_elem_of_In, in_rev in Hi.
  apply list_elem_of_In in Hi.
  apply argsort_in_range, Hi.
Qed.

Lemma tfidf_matches_closed sims top_k :
  length sims = length (documents self) ->
  tfidf_matches Vectorizer DocVectors argsort self sims top_k
  = Ok (omap (tf_of (documents self) sims)
          (top_indices argsort sims (length (documents self)) top_k)).
Proof.
  intros Hlen. unfold tfidf_matches. apply tfidf_loop_closed.
  eapply Forall_impl; [apply top_indices_in_range|].
  simpl. intros i Hi. lia.
Qed.

Lemma merged_ok query tf :
  Forall ready tf -> dict_ok (merged (documents self) query tf).
Proof.
  intros Htf. unfold merged. apply fold_merge_ok; [|assumption].
  apply fold_exact_ok; [apply dict_ok_nil|].
  apply exact_matches_ready, docs_named.
Qed.

(** The sorted [relevant_docs] of a round whose scores are [sims]. *)
Lemma relevant_docs_closed query sims top_k :
  similarities Vectorizer DocVectors cosine_scores self query = Ok sims ->
  relevant_docs Vectorizer DocVectors cosine_scores argsort self query top_k
  = Ok (ranked (dict_values
          (merged (documents self) query
             (omap (tf_of (documents self) sims)
                (top_indices argsort sims (length (documents self))
                   top_k))))).
Proof.
  intros Hsims. unfold relevant_docs. rewrite Hsims. simpl.
  rewrite tfidf_matches_closed by (eapply similarities_length; eassumption).
  simpl.
  rewrite add_exact_fold by (apply exact_matches_ready, docs_named).
  simpl.
  rewrite add_tfidf_fold.
  - simpl. apply sort_by_score_ranked, dict_ok_values_scored.
    apply merged_ok, omap_tf_ready, docs_named.
  - apply fold_exact_ok; [apply dict_ok_nil|].
    apply exact_matches_ready, docs_named.
  - apply omap_tf_ready, docs_named.
Qed.

Lemma search_closed query sims top_k :
  similarities Vectorizer DocVectors cosine_scores self query = Ok sims ->
  _search_with_query Vectorizer DocVectors cosine_scores argsort self query
    top_k
  = Ok (slice_to
          (ranked (dict_values
             (merged (documents self) query
                (omap (tf_of (documents self) sims)
                   (top_indices argsort sims (length (documents self))
                      top_k))))) top_k).
Proof.
  intros Hsims. unfold _search_with_query, search_body.
  rewrite (relevant_docs_closed query sims top_k Hsims). reflexivity.
Qed.

Lemma search_failed query e top_k :
  similarities Vectorizer DocVectors cosine_scores self query = Raise e ->
  _search_with_query Vectorizer DocVectors cosine_scores argsort self query
    top_k = Ok [].
Proof.
  intros Hsims. unfold _search_with_query, search_body, relevant_docs.
  rewrite Hsims. reflexivity.
Qed.

End Round.

End SearchFacts.

(** ** The fallback rounds in closed form *)

Module RetrieveFacts.
Import Py.
Import Retriever.
Import Notions.
Import RetrieverFacts.
Import SortFacts.
Import DictFacts.
Import SearchFacts.
Local Open Scope list_scope.

Lemma keyed_snd l : map snd (keyed l) = l.
Proof.
  unfold keyed. rewrite map_map. simpl. apply map_id.
Qed.

Lemma ranked_perm l : Permutation (ranked l) l.
Proof.
  unfold ranked. rewrite sort_desc_perm. rewrite keyed_snd. reflexivity.
Qed.

Lemma keyed_ranked l : keyed (ranked l) = sort_desc (keyed l).
Proof.
  unfold ranked.
  assert (Forall (fun p => fst p = score (snd p)) (sort_desc (keyed l))) as H.
  { rewrite sort_desc_perm. unfold keyed. apply Forall_fmap, Forall_forall.
    reflexivity. }
  induction H as [|[s d] t Hp _ IH]; simpl; [reflexivity|].
  simpl in Hp. subst s. f_equal. exact IH.
Qed.

Lemma ranked_sorted l : sorted_desc (keyed (ranked l)).
Proof. rewrite keyed_ranked. apply sort_desc_sorted. Qed.

Lemma ranked_id l : sorted_desc (keyed l) -> ranked l = l.
Proof.
  intros H. unfold ranked. rewrite (sort_desc_id _ H). apply keyed_snd.
Qed.

Lemma tidy_nil : tidy [].
Proof. repeat split; constructor. Qed.

Lemma tidy_take n l : tidy l -> tidy (take n l).
Proof.
  intros (Hn & Hd & Hs). split; [|split].
  - apply Forall_take, Hn.
  - rewrite <- firstn_map. eapply sublist_NoDup; [exact Hd|].
    apply sublist_take.
  - unfold keyed in *. rewrite <- firstn_map.
    rewrite <- (take_drop n (map _ l)) in Hs.
    eapply StronglySorted_app_1_l, Hs.
Qed.

Lemma tidy_slice l k : tidy l -> tidy (slice_to l k).
Proof. unfold slice_to. destruct (0 <=? k)%Z; apply tidy_take. Qed.

Lemma tidy_ranked_values (d : dict) : dict_ok d -> tidy (ranked (dict_values d)).
Proof.
  intros Hd. split; [|split].
  - rewrite ranked_perm. apply dict_ok_values_named, Hd.
  - rewrite ranked_perm. apply dict_ok_values_NoDup, Hd.
  - apply ranked_sorted.
Qed.

(** *** Removing duplicates from a tidy list changes nothing *)

Lemma existsb_id_false fn c (seen : list (string * string)) :
  fn ∉ map fst seen -> existsb (id_eqb (fn, c)) seen = false.
Proof.
  induction seen as [|[n c'] t IH]; simpl; intros H; [reflexivity|].
  rewrite not_elem_of_cons in H. destruct H as [Hne H].
  unfold id_eqb at 1. simpl.
  destruct (String.eqb_spec fn n) as [->|_]; [congruence|]. simpl.
  apply IH, H.
Qed.

Lemma unique_from_tidy seen l :
  Forall (fun d => file_name d <> None) l ->
  NoDup (map file_name l) ->
  (forall d, d ∈ l -> name d ∉ map fst seen) ->
  unique_from seen l = Ok l.
Proof.
  revert seen. induction l as [|d t IH]; simpl; intros seen Hn Hd Hs;
    [reflexivity|].
  inversion Hn as [|? ? Hdn Htn]; subst.
  inversion Hd as [|? ? Hnotin Htd]; subst.
  unfold doc_id, get_file_name. rewrite (ready_name d Hdn). simpl.
  rewrite existsb_id_false by (apply Hs; left).
  rewrite IH; [reflexivity|assumption|assumption|].
  intros d' Hd'. simpl. rewrite not_elem_of_cons. split.
  - intros Heq. apply Hnotin. apply list_elem_of_fmap. exists d'.
    split; [|assumption].
    rewrite (ready_name d Hdn).
    rewrite Forall_forall in Htn. rewrite (ready_name d' (Htn _ Hd')).
    congruence.
  - apply Hs. right. assumption.
Qed.

(** The end of [retrieve_relevant_chunks] leaves a tidy list of at most
    [top_k] results as it is. *)
Lemma finish_tidy l top_k :
  tidy l -> (0 <= top_k)%Z -> (length l <= Z.to_nat top_k)%nat ->
  bind (unique_from [] l) (fun unique_results =>
    Ok (slice_to (sort_by_score_default unique_results) top_k)) = Ok l.
Proof.
  intros (Hn & Hd & Hs) Hk Hlen.
  rewrite unique_from_tidy; [|assumption|assumption|].
  - simpl. rewrite sort_by_score_default_ranked, ranked_id by assumption.
    rewrite slice_to_nonneg by assumption.
    rewrite take_ge by assumption. reflexivity.
  - intros d _. apply not_elem_of_nil.
Qed.

Section Rounds.

Variables Vectorizer DocVectors : Type.
Variable cosine_scores : Vectorizer -> DocVectors -> string -> result (list Q).
Variable argsort : list Q -> list nat.
Variable self : SimpleRetriever Vectorizer DocVectors.
Variable top_k : Z.

Abbreviation search :=
  (_search_with_query Vectorizer DocVectors cosine_scores argsort self).

(** the list that a round returns *)
Abbreviation found := (fun q => returned (search q top_k)).

Lemma search_returned q : search q top_k = Ok (found q).
Proof.
  unfold returned.
  destruct (RetrieverTotal.search_never_raises Vectorizer DocVectors
              cosine_scores argsort self q top_k) as [l ->].
  reflexivity.
Qed.

Lemma search_words_closed words acc :
  search_words Vectorizer DocVectors cosine_scores argsort self top_k words
    acc
  = Ok (acc ++ first_found found
                 (filter (fun w => (4 <? len w)%nat = true) words)).
Proof.
  revert acc. induction words as [|w t IH]; simpl; intros acc.
  - rewrite app_nil_r. reflexivity.
  - rewrite filter_cons. destruct (4 <? len w)%nat eqn:E.
    + rewrite decide_True by reflexivity. simpl.
      rewrite search_returned. simpl.
      destruct (found w) as [|d l] eqn:Ef; simpl.
      * rewrite IH, app_nil_r. reflexivity.
      * reflexivity.
    + rewrite decide_False by discriminate. apply IH.
Qed.

Hypothesis found_tidy : forall q, tidy (found q).
Hypothesis found_short : forall q, (length (found q) <= Z.to_nat top_k)%nat.
Hypothesis top_k_nonneg : (0 <= top_k)%Z.

Lemma first_found_tidy qs : tidy (first_found found qs).
Proof.
  induction qs as [|q t IH]; simpl; [apply tidy_nil|].
  pose proof (found_tidy q) as Hq.
  destruct (found q); [exact IH|exact Hq].
Qed.

Lemma first_found_short qs :
  (length (first_found found qs) <= Z.to_nat top_k)%nat.
Proof.
  induction qs as [|q t IH]; simpl; [lia|].
  pose proof (found_short q) as Hq.
  destruct (found q); [exact IH|exact Hq].
Qed.

(** [retrieve_relevant_chunks] returns what the first successful round
    found. *)
Lemma retrieve_body_closed query :
  retrieve_body Vectorizer DocVectors cosine_scores argsort self query top_k
  = Ok (first_found found (candidates query)).
Proof.
  unfold retrieve_body, candidates.
  rewrite search_returned. cbn [bind].
  set (key_terms := extract_key_terms query).
  set (words := filter (fun w => (4 <? len w)%nat = true) (split key_terms)).
  cbn [first_found].
  pose proof (found_tidy query) as Ht1. pose proof (found_short query) as Hs1.
  destruct (found query) as [|d1 l1] eqn:E1; cbn [is_empty].
  - destruct (negb (String.eqb key_terms "")
              && negb (String.eqb key_terms (lower query))).
    + rewrite search_returned. cbn [bind app first_found].
      pose proof (found_tidy key_terms) as Ht2.
      pose proof (found_short key_terms) as Hs2.
      destruct (found key_terms) as [|d2 l2] eqn:E2; cbn [is_empty bind].
      * rewrite search_words_closed. cbn [bind app]. fold words.
        apply finish_tidy;
          [apply first_found_tidy|assumption|apply first_found_short].
      * apply finish_tidy; assumption.
    + cbn [bind is_empty app]. rewrite search_words_closed. cbn [bind app].
      fold words.
      apply finish_tidy;
        [apply first_found_tidy|assumption|apply first_found_short].
  - cbn [bind is_empty]. apply finish_tidy; assumption.
Qed.

Lemma retrieve_closed query :
  doc_vectors self <> None -> documents self <> [] ->
  retrieve_relevant_chunks Vectorizer DocVectors cosine_scores argsort self
    query top_k
  = Ok (first_found found (candidates query)).
Proof.
  intros Hdv Hdocs. unfold retrieve_relevant_chunks.
  destruct (doc_vectors self); [|congruence].
  destruct (documents self); [congruence|]. cbn [is_empty].
  rewrite retrieve_body_closed. reflexivity.
Qed.

End Rounds.

End RetrieveFacts.

(** ** Queries without substantive terms *)

Module StopWords.
Import Py.
Import Retriever.
Import Notions.
Import RetrieverFacts.
Import DictFacts.
Import SearchFacts.
Local Open Scope list_scope.

Lemma scan_terms_none content terms st :
  (forall t, t ∈ terms -> str_in t content = false) ->
  scan_terms content terms st = st.
Proof.
  induction terms as [|t rest IH]; simpl; intros H; [reflexivity|].
  rewrite (H t) by left. apply IH. intros t' Ht'. apply H. right. assumption.
Qed.

Lemma exact_matches_none query docs :
  (forall d t, d ∈ docs -> t ∈ search_terms query ->
               str_in t (lower (get_content d)) = false) ->
  exact_matches query docs = [].
Proof.
  intros H. unfold exact_matches.
  induction docs as [|d rest IH]; simpl; [reflexivity|].
  unfold exact_match at 1.
  rewrite scan_terms_none by (intros t Ht; apply H; [left|assumption]).
  simpl. apply IH. intros d' t Hd' Ht. apply H; [right|]; assumption.
Qed.

Section StopWords.

Variables Vectorizer DocVectors : Type.
Variable cosine_scores : Vectorizer -> DocVectors -> string -> result (list Q).
Variable argsort : list Q -> list nat.

(** A round finds nothing when no search term occurs in a document and
    no score passes the threshold. *)
Lemma search_finds_nothing self query top_k :
  (forall d t, d ∈ documents self -> t ∈ search_terms query ->
               str_in t (lower (get_content d)) = false) ->
  (forall sims,
     similarities Vectorizer DocVectors cosine_scores self query = Ok sims ->
     Forall (fun s => (s <= 0.05)%Q) sims) ->
  _search_with_query Vectorizer DocVectors cosine_scores argsort self query
    top_k = Ok [].
Proof.
  intros Hexact Hlow.
  unfold _search_with_query, search_body, relevant_docs.
  rewrite (exact_matches_none _ _ Hexact).
  destruct (similarities _ _ _ _ _) as [sims|e] eqn:E; [|reflexivity].
  simpl. unfold tfidf_matches.
  destruct (tfidf_loop_low (documents self) sims
              (top_indices argsort sims (length (documents self)) top_k)
              (Hlow sims eq_refl)) as [-> | [e ->]]; simpl.
  - rewrite slice_to_nil. reflexivity.
  - reflexivity.
Qed.

(** When the first round finds nothing and the query has no key term,
    the other rounds have nothing to search for. *)
Lemma retrieve_without_key_terms self query top_k :
  extract_key_terms query = "" ->
  _search_with_query Vectorizer DocVectors cosine_scores argsort self query
    top_k = Ok [] ->
  retrieve_relevant_chunks Vectorizer DocVectors cosine_scores argsort self
    query top_k = Ok [].
Proof.
  intros Hkey Hfirst. unfold retrieve_relevant_chunks.
  destruct (doc_vectors self); [|reflexivity].
  destruct (is_empty (documents self)); [reflexivity|].
  unfold retrieve_body. rewrite Hfirst, Hkey. simpl.
  change (sort_by_score_default []) with (@nil Doc).
  rewrite slice_to_nil. reflexivity.
Qed.

(** C7, amended. A query made of question words and of tokens of at
    most two characters only (it has no key term) gets the empty list,
    and nothing is raised, when the query itself finds nothing: none of
    its search terms occurs in a document and no cosine score is above
    0.05. The fallback rounds then search nothing. *)
Theorem stop_words_find_nothing :
  forall (self : SimpleRetriever Vectorizer DocVectors) (query : string)
         (top_k : Z),
    extract_key_terms query = "" ->
    (forall d t, d ∈ documents self -> t ∈ search_terms query ->
                 str_in t (lower (get_content d)) = false) ->
    (forall sims,
       similarities Vectorizer DocVectors cosine_scores self query = Ok sims ->
       Forall (fun s => (s <= 0.05)%Q) sims) ->
    retrieve_relevant_chunks Vectorizer DocVectors cosine_scores argsort self
      query top_k = Ok [].
Proof.
  intros self query top_k Hkey Hexact Hlow.
  apply retrieve_without_key_terms; [assumption|].
  apply search_finds_nothing; assumption.
Qed.

End StopWords.

(** C7 as stated fails: the stop words of the query occur as they are in
    a document, which is an exact match. *)
Lemma stop_words_counterexample :
  documents (Samples.retriever_of Samples.article_docs [0%Q]) <> []
  /\ extract_key_terms "the a an" = ""
  /\ exists d,
       retrieve_relevant_chunks unit (list Q) Samples.table_scores
         stable_argsort (Samples.retriever_of Samples.article_docs [0%Q])
         "the a an" 3 = Ok [d]
       /\ file_name d = Some "a.txt" /\ match_type d = Some exact.
Proof.
  split; [discriminate|]. split; [reflexivity|].
  eexists. split; [vm_compute; reflexivity|]. split; reflexivity.
Qed.

Lemma stop_words_find_nothing_witness :
  extract_key_terms "the a an" = ""
  /\ retrieve_relevant_chunks unit (list Q) Samples.table_scores
       stable_argsort (Samples.retriever_of Samples.plain_docs [0; 0]%Q)
       "the a an" 3 = Ok [].
Proof.
  split; [reflexivity|].
  apply (stop_words_find_nothing unit (list Q) Samples.table_scores
           stable_argsort (Samples.retriever_of Samples.plain_docs [0; 0]%Q)
           "the a an" 3).
  - reflexivity.
  - intros d t Hd Ht.
    assert (t = "the a an") as ->.
    { vm_compute in Ht. apply list_elem_of_singleton in Ht. exact Ht. }
    unfold Samples.retriever_of, Samples.plain_docs in Hd. simpl in Hd.
    apply elem_of_cons in Hd. destruct Hd as [-> | Hd]; [reflexivity|].
    apply list_elem_of_singleton in Hd. subst. reflexivity.
  - intros sims [= <-]. repeat constructor; discriminate.
Defined.

End StopWords.

(** ** The scores of exact matches *)

Module ExactScores.
Import Py.
Import Retriever.
Import Notions.
Import RetrieverFacts.
Import SortFacts.
Import DictFacts.
Import SearchFacts.
Import RetrieveFacts.
Local Open Scope list_scope.

Lemma str_in_empty s : str_in "" s = true.
Proof. destruct s; reflexivity. Qed.

Lemma lower_len s : len (lower s) = len s.
Proof. induction s as [|c t IH]; simpl; [reflexivity|]. f_equal. exact IH. Qed.

Lemma len_pos s : s <> "" -> (1 <= len s)%nat.
Proof. destruct s; [congruence|]. simpl. lia. Qed.

(** *** Every match of a date pattern has a character *)

Lemma first_some_elem {A B} (f : A -> option B) l y :
  first_some f l = Some y -> exists x, x ∈ l /\ f x = Some y.
Proof.
  induction l as [|x t IH]; simpl; [discriminate|].
  destruct (f x) as [y'|] eqn:E.
  - intros [= <-]. exists x. split; [left|assumption].
  - intros H. destruct (IH H) as (x' & Hx' & Hf).
    exists x'. split; [right|]; assumption.
Qed.

Lemma match_month_year_pos prev s n :
  match_month_year prev s = Some n -> (1 <= n)%nat.
Proof.
  unfold match_month_year. destruct (word_boundary _ _); [|discriminate].
  intros H. apply first_some_elem in H. destruct H as (m & _ & H).
  destruct (startswith m s); [|discriminate].
  destruct (_ && _); [|discriminate]. injection H as <-. lia.
Qed.

Lemma match_short_year_pos prev s n :
  match_short_year prev s = Some n -> (1 <= n)%nat.
Proof.
  unfold match_short_year. destruct (word_boundary _ _); [|discriminate].
  destruct (_ && _); [intros [= <-]; lia|].
  destruct (_ && _); [intros [= <-]; lia|discriminate].
Qed.

Lemma match_year_short_pos prev s n :
  match_year_short prev s = Some n -> (1 <= n)%nat.
Proof.
  unfold match_year_short. destruct (word_boundary _ _); [|discriminate].
  destruct (_ && _); [|discriminate].
  destruct (_ && _); [intros [= <-]; lia|].
  destruct (_ && _); [intros [= <-]; lia|discriminate].
Qed.

Lemma findall_from_pos m prev skip s t :
  (forall p s' n, m p s' = Some n -> (1 <= n)%nat) ->
  t ∈ findall_from m prev skip s -> (1 <= len t)%nat.
Proof.
  intros Hm. revert prev skip.
  induction s as [|c s' IH]; simpl; intros prev skip Ht.
  - apply elem_of_nil in Ht. contradiction.
  - destruct skip as [|k]; [|eapply IH; eassumption].
    destruct (m prev (String c s')) as [n|] eqn:E; [|eapply IH; eassumption].
    apply elem_of_cons in Ht. destruct Ht as [-> | Ht]; [|eapply IH; eassumption].
    apply Hm in E. destruct n as [|n']; [lia|]. simpl. lia.
Qed.

Lemma search_terms_pos query t :
  query <> "" -> t ∈ search_terms query -> (1 <= len t)%nat.
Proof.
  intros Hq Ht. unfold search_terms in Ht.
  apply elem_of_cons in Ht. destruct Ht as [-> | Ht].
  - rewrite lower_len. apply len_pos, Hq.
  - unfold date_patterns, findall in Ht. rewrite !elem_of_app in Ht.
    destruct Ht as [Ht | [Ht | Ht]].
    + eapply findall_from_pos; [|exact Ht]. apply match_month_year_pos.
    + eapply findall_from_pos; [|exact Ht]. apply match_short_year_pos.
    + eapply findall_from_pos; [|exact Ht]. apply match_year_short_pos.
Qed.

(** *** The score of a term *)

Lemma term_score_le_1 t : (term_score t <= 1)%Q.
Proof.
  unfold term_score.
  destruct (min_cases 1 (inject_Z (Z.of_nat (len t)) / 20 + 0.5))
    as [[H ->] | [_ ->]].
  - apply Qlt_le_weak, Qltb_true, H.
  - apply Qle_refl.
Qed.

Lemma raw_score_ge n :
  (1 <= n)%nat -> (0.55 <= inject_Z (Z.of_nat n) / 20 + 0.5)%Q.
Proof.
  intros H. unfold Qle, Qplus, Qdiv, Qmult, Qinv, inject_Z. simpl. lia.
Qed.

Lemma term_score_ge t : (1 <= len t)%nat -> (0.55 <= term_score t)%Q.
Proof.
  intros H. unfold term_score.
  destruct (min_cases 1 (inject_Z (Z.of_nat (len t)) / 20 + 0.5))
    as [[_ ->] | [_ ->]].
  - apply raw_score_ge, H.
  - discriminate.
Qed.

Lemma scan_terms_bounds content terms st :
  (forall t, t ∈ terms -> (1 <= len t)%nat) ->
  (snd st <= 1)%Q -> (fst st = true -> (0.55 <= snd st)%Q) ->
  (snd (scan_terms content terms st) <= 1)%Q
  /\ (fst (scan_terms content terms st) = true ->
      (0.55 <= snd (scan_terms content terms st))%Q).
Proof.
  revert st. induction terms as [|t rest IH]; simpl; intros st Hpos Hle Hge.
  - auto.
  - assert (forall t', t' ∈ rest -> (1 <= len t')%nat) as Hrest
        by (intros t' Ht'; apply Hpos; right; assumption).
    destruct (str_in t content); [|apply IH; assumption].
    apply IH; [assumption| |]; simpl.
    + destruct (max_cases (snd st) (term_score t)) as [[_ ->] | [_ ->]];
        [apply term_score_le_1|assumption].
    + intros _. eapply Qle_trans; [|apply max_ge_r].
      apply term_score_ge, Hpos. left.
Qed.

(** Every exact match for a query that is not empty has a score
    between 0.55 and 1. *)
Lemma exact_match_bounds query docs d :
  query <> "" -> d ∈ exact_matches query docs ->
  exists s, similarity_score d = Some s /\ (0.55 <= s)%Q /\ (s <= 1)%Q
    /\ match_type d = Some exact.
Proof.
  intros Hq Hd. unfold exact_matches in Hd.
  apply list_elem_of_omap in Hd. destruct Hd as (d0 & _ & Hm).
  unfold exact_match in Hm.
  destruct (scan_terms_bounds (lower (get_content d0)) (search_terms query)
              (false, 0%Q)) as [Hle Hge].
  - intros t Ht. eapply search_terms_pos; eassumption.
  - discriminate.
  - discriminate.
  - destruct (fst (scan_terms _ _ _)) eqn:E; [|discriminate].
    injection Hm as <-. eexists. split; [reflexivity|]. auto.
Qed.

(** *** The empty query *)

(** the score of the empty term, [min(1.0, 0 / 20.0 + 0.5)] *)
Lemma empty_term_score : (max 0 (term_score "") == 0.5)%Q.
Proof. vm_compute. reflexivity. Qed.

Lemma exact_matches_empty_query docs :
  exact_matches "" docs = map (mark exact (max 0 (term_score ""))) docs.
Proof.
  unfold exact_matches. change (search_terms "") with [""].
  induction docs as [|d t IH]; [reflexivity|].
  cbn [omap list_omap map]. rewrite IH.
  unfold exact_match. cbn [scan_terms]. rewrite str_in_empty. reflexivity.
Qed.

Lemma named_names docs :
  named docs -> map file_name docs = map Some (map name docs).
Proof.
  induction 1 as [|d t Hd _ IH]; simpl; [reflexivity|].
  rewrite (ready_name d Hd), IH. reflexivity.
Qed.

Lemma distinct_name docs :
  named docs -> distinct_names docs -> NoDup (map name docs).
Proof.
  intros Hn Hd. unfold distinct_names in Hd. rewrite (named_names docs Hn) in Hd.
  apply (NoDup_fmap_1 Some). exact Hd.
Qed.

(** With distinct names the loop of [add_exact] appends every match. *)
Lemma fold_exact_distinct ms (acc : dict) :
  NoDup (map fst acc ++ map name ms) ->
  fold_left exact_step ms acc = acc ++ map (fun d => (name d, d)) ms.
Proof.
  revert acc. induction ms as [|m t IH]; simpl; intros acc Hnd.
  - rewrite app_nil_r. reflexivity.
  - unfold exact_step at 2. rewrite dict_set_new.
    + rewrite IH.
      * rewrite <- app_assoc. reflexivity.
      * rewrite map_app, <- app_assoc. simpl. exact Hnd.
    + apply dict_get_None. apply NoDup_app in Hnd.
      destruct Hnd as (_ & Hdisj & _). intros Hin.
      apply (Hdisj _ Hin). left.
Qed.

Lemma map_mark_name k s docs : map name (map (mark k s) docs) = map name docs.
Proof. rewrite map_map. reflexivity. Qed.

Lemma map_mark_file_name k s docs :
  map file_name (map (mark k s) docs) = map file_name docs.
Proof. rewrite map_map. reflexivity. Qed.

Lemma keyed_constant s l :
  Forall (fun d => score d = s) l -> sorted_desc (keyed l).
Proof.
  induction 1 as [|d t Hd Ht IH]; simpl.
  - constructor.
  - apply sorted_desc_cons. split; [|exact IH].
    unfold keyed. apply Forall_fmap. eapply Forall_impl; [exact Ht|].
    simpl. intros d' ->. rewrite Hd. apply Qle_refl.
Qed.

Lemma marked_tidy k s docs :
  named docs -> distinct_names docs -> tidy (map (mark k s) docs).
Proof.
  intros Hn Hd. split; [|split].
  - apply Forall_fmap. eapply Forall_impl; [exact Hn|]. auto.
  - rewrite map_mark_file_name. exact Hd.
  - apply (keyed_constant s). apply Forall_fmap, Forall_forall. reflexivity.
Qed.

Section EmptyQuery.

Variables Vectorizer DocVectors : Type.
Variable cosine_scores : Vectorizer -> DocVectors -> string -> result (list Q).
Variable argsort : list Q -> list nat.
Variable self : SimpleRetriever Vectorizer DocVectors.
Variable dv : DocVectors.
Variable sims : list Q.
Variable top_k : Z.

Hypothesis argsort_ok : argsort_spec argsort.
Hypothesis index_built : doc_vectors self = Some dv.
Hypothesis docs_named : named (documents self).
Hypothesis docs_distinct : distinct_names (documents self).
Hypothesis empty_scores : cosine_scores (vectorizer self) dv "" = Ok sims.
Hypothesis no_vector_match : Forall (fun s => (s <= 0.05)%Q) sims.
Hypothesis top_k_nonneg : (0 <= top_k)%Z.

Lemma tfidf_matches_low :
  tfidf_matches Vectorizer DocVectors argsort self sims top_k = Ok [].
Proof.
  unfold tfidf_matches.
  pose proof (top_indices_in_range argsort argsort_ok sims
                (length (documents self)) top_k) as Hr.
  induction Hr as [|i t Hi _ IH]; simpl; [reflexivity|].
  destruct (lookup_lt_is_Some_2 sims i Hi) as [s Es]. rewrite Es.
  assert (Qltb 0.05 s = false) as ->; [|exact IH].
  apply Qltb_false. rewrite Forall_forall in no_vector_match.
  apply no_vector_match. eapply list_elem_of_lookup_2; eassumption.
Qed.

(** The round of the empty query returns the first [top_k] documents,
    each as an exact match. *)
Lemma search_empty_query :
  _search_with_query Vectorizer DocVectors cosine_scores argsort self ""
    top_k
  = Ok (take (Z.to_nat top_k)
          (map (mark exact (max 0 (term_score ""))) (documents self))).
Proof.
  unfold _search_with_query, search_body, relevant_docs, similarities.
  rewrite index_built, empty_scores. cbn [bind].
  rewrite tfidf_matches_low. cbn [bind].
  rewrite exact_matches_empty_query.
  set (E := map (mark exact (max 0 (term_score ""))) (documents self)).
  assert (Forall ready E) as Hready.
  { apply Forall_fmap. eapply Forall_impl; [exact docs_named|].
    intros d Hd. apply mark_ready, Hd. }
  rewrite add_exact_fold by exact Hready. cbn [bind add_tfidf].
  rewrite fold_exact_distinct.
  2:{ simpl. unfold E. rewrite map_mark_name.
      apply distinct_name; assumption. }
  simpl. unfold dict_values. rewrite map_map. simpl. rewrite map_id.
  rewrite sort_by_score_ranked.
  2:{ eapply Forall_impl; [exact Hready|]. intros d [_ H]. exact H. }
  cbn [bind try_except].
  rewrite ranked_id.
  2:{ apply (keyed_constant (max 0 (term_score ""))).
      apply Forall_fmap, Forall_forall. reflexivity. }
  rewrite slice_to_nonneg by assumption. reflexivity.
Qed.

Lemma retrieve_empty_query :
  documents self <> [] ->
  retrieve_relevant_chunks Vectorizer DocVectors cosine_scores argsort self
    "" top_k
  = Ok (take (Z.to_nat top_k)
          (map (mark exact (max 0 (term_score ""))) (documents self))).
Proof.
  intros Hdocs. unfold retrieve_relevant_chunks. rewrite index_built.
  destruct (is_empty (documents self)) eqn:Ee;
    [apply is_empty_true in Ee; congruence|].
  unfold retrieve_body. rewrite search_empty_query. cbn [bind].
  set (res := take (Z.to_nat top_k) _).
  assert (tidy res) as Ht by (apply tidy_take, marked_tidy; assumption).
  assert (length res <= Z.to_nat top_k)%nat as Hl.
  { unfold res. rewrite length_take. lia. }
  destruct res as [|r1 rs] eqn:Er; cbn [is_empty].
  - change (extract_key_terms "") with "". cbn.
    rewrite slice_to_nil. reflexivity.
  - cbn [bind is_empty]. rewrite finish_tidy by assumption. reflexivity.
Qed.

End EmptyQuery.

Section Claim.

Variables Vectorizer DocVectors : Type.
Variable cosine_scores : Vectorizer -> DocVectors -> string -> result (list Q).
Variable argsort : list Q -> list nat.

(** C9. For the empty query every document is an exact match with
    score 0.5, so that [retrieve_relevant_chunks] returns the first
    [min(top_k, N)] documents of a corpus of [N], each with score 0.5;
    and an exact match for a query that is not empty has a score from
    0.55 to 1. The corpus is one of named documents with distinct
    names, and the vectorizer gives the empty query no score above the
    threshold. *)
Theorem empty_query_scores :
  forall (self : SimpleRetriever Vectorizer DocVectors) (dv : DocVectors)
         (sims : list Q) (top_k : Z),
    argsort_spec argsort ->
    doc_vectors self = Some dv ->
    documents self <> [] ->
    named (documents self) ->
    distinct_names (documents self) ->
    cosine_scores (vectorizer self) dv "" = Ok sims ->
    Forall (fun s => (s <= 0.05)%Q) sims ->
    (0 <= top_k)%Z ->
    (exists s l,
       (s == 0.5)%Q
       /\ exact_matches "" (documents self)
          = map (mark exact s) (documents self)
       /\ retrieve_relevant_chunks Vectorizer DocVectors cosine_scores argsort
            self "" top_k = Ok l
       /\ l = take (Z.to_nat top_k) (map (mark exact s) (documents self))
       /\ length l = Nat.min (Z.to_nat top_k) (length (documents self))
       /\ Forall (fun d => similarity_score d = Some s
                           /\ match_type d = Some exact) l)
    /\ (forall query docs d,
          query <> "" -> d ∈ exact_matches query docs ->
          exists s, similarity_score d = Some s
                    /\ (0.55 <= s)%Q /\ (s <= 1)%Q).
Proof.
  intros self dv sims top_k Hsort Hdv Hdocs Hnamed Hdistinct Hsims Hlow Hk.
  split.
  - exists (max 0 (term_score "")). eexists.
    split; [apply empty_term_score|].
    split; [apply exact_matches_empty_query|].
    split; [eapply retrieve_empty_query; eassumption|].
    split; [reflexivity|].
    split.
    + rewrite length_take, length_map. reflexivity.
    + apply Forall_take, Forall_fmap, Forall_forall. intros d _.
      split; reflexivity.
  - intros query docs d Hq Hd.
    destruct (exact_match_bounds query docs d Hq Hd) as (s & Hs & Hlo & Hhi & _).
    exists s. auto.
Qed.

End Claim.

End ExactScores.

(** ** A document matched by both strategies *)

Module Merge.
Import Py.
Import Retriever.
Import Notions.
Import RetrieverFacts.
Import SortFacts.
Import DictFacts.
Import SearchFacts.
Import RetrieveFacts.
Import ExactScores.
Local Open Scope list_scope.

Lemma tfidf_loop_inv docs sims idxs tf :
  tfidf_loop docs sims idxs = Ok tf ->
  forall d, d ∈ tf ->
    exists i s d0, sims !! i = Some s /\ docs !! i = Some d0
                   /\ d = mark tfidf s d0.
Proof.
  revert tf. induction idxs as [|i t IH]; simpl; intros tf H d Hd.
  - injection H as <-. apply elem_of_nil in Hd. contradiction.
  - destruct (sims !! i) as [s|] eqn:Es; [|discriminate].
    destruct (Qltb 0.05 s); [|eapply IH; eassumption].
    destruct (docs !! i) as [d0|] eqn:Ed; [|discriminate].
    destruct (tfidf_loop docs sims t) as [ms|] eqn:Et; [|discriminate].
    simpl in H. injection H as <-.
    apply elem_of_cons in Hd. destruct Hd as [-> | Hd].
    + exists i, s, d0. auto.
    + eapply IH; [reflexivity|assumption].
Qed.

Lemma exact_matches_inv query docs d :
  d ∈ exact_matches query docs ->
  exists d0 s, d0 ∈ docs /\ d = mark exact s d0.
Proof.
  intros Hd. unfold exact_matches in Hd. apply list_elem_of_omap in Hd.
  destruct Hd as (d0 & Hd0 & Hm). apply exact_match_mark in Hm.
  destruct Hm as (s & -> & _). exists d0, s. auto.
Qed.

Lemma exact_matches_names query docs :
  map name (exact_matches query docs) `sublist_of` map name docs.
Proof.
  unfold exact_matches. induction docs as [|d t IH]; simpl; [constructor|].
  destruct (exact_match (search_terms query) d) as [d'|] eqn:E.
  - apply exact_match_mark in E. destruct E as (s & -> & _). simpl.
    apply sublist_skip, IH.
  - apply sublist_cons, IH.
Qed.

(** In a collection with distinct names a name tells the document. *)
Lemma distinct_names_inj docs d d' :
  distinct_names docs -> d ∈ docs -> d' ∈ docs ->
  file_name d = file_name d' -> d = d'.
Proof.
  intros Hnd Hd Hd' Heq. unfold distinct_names in Hnd.
  apply list_elem_of_lookup in Hd, Hd'.
  destruct Hd as [i Hi]. destruct Hd' as [j Hj].
  assert (i = j) as ->; [|congruence].
  eapply NoDup_lookup; [exact Hnd| |].
  - rewrite list_lookup_fmap, Hi. reflexivity.
  - rewrite list_lookup_fmap, Hj. simpl. congruence.
Qed.

Lemma dict_get_listed l d :
  NoDup (map name l) -> d ∈ l ->
  dict_get (name d) (map (fun x => (name x, x)) l) = Some d.
Proof.
  induction l as [|x t IH]; simpl; intros Hnd Hd.
  - apply elem_of_nil in Hd. contradiction.
  - inversion Hnd as [|? ? Hx Ht]; subst.
    apply elem_of_cons in Hd. destruct Hd as [-> | Hd].
    + rewrite String.eqb_refl. reflexivity.
    + destruct (String.eqb_spec (name d) (name x)) as [Heq|_].
      * exfalso. apply Hx. rewrite <- Heq.
        apply list_elem_of_fmap. exists d. auto.
      * apply IH; assumption.
Qed.

Section Both.

(** the document as the exact strategy returned it, the score that the
    vector strategy gives it, and what [all_matches] holds for it in the
    end *)
Variable d_e : Doc.
Variable t : Q.

Lemma both_score : score (both d_e t) = max (score d_e) t.
Proof.
  unfold both. destruct (max_cases (score d_e) t) as [[H ->] | [H ->]];
    rewrite H; reflexivity.
Qed.

Lemma both_settled : Qltb (score (both d_e t)) t = false.
Proof.
  rewrite both_score. apply Qltb_false, max_ge_r.
Qed.

Lemma merge_step_other (m : dict) d fn :
  ready d -> name d <> fn ->
  dict_get fn (merge_step m d) = dict_get fn m.
Proof.
  intros _ Hne. unfold merge_step.
  destruct (dict_get (name d) m) as [cur|].
  - destruct (Qltb (score cur) (score d)); [|reflexivity].
    rewrite dict_get_set.
    destruct (String.eqb_spec fn (name d)); [congruence|reflexivity].
  - rewrite dict_get_set.
    destruct (String.eqb_spec fn (name d)); [congruence|reflexivity].
Qed.

Lemma merge_step_same (m : dict) d c :
  name d = name d_e -> score d = t ->
  dict_get (name d_e) m = Some c -> c = d_e \/ c = both d_e t ->
  dict_get (name d_e) (merge_step m d) = Some (both d_e t).
Proof.
  intros Hn Hs Hget Hc. unfold merge_step. rewrite Hn, Hget, Hs.
  destruct Hc as [-> | ->].
  - unfold both. destruct (Qltb (score d_e) t) eqn:E; [|assumption].
    rewrite dict_get_set, String.eqb_refl. reflexivity.
  - rewrite both_settled. assumption.
Qed.

Lemma fold_merge_both tf (m : dict) c :
  Forall ready tf ->
  (forall d, d ∈ tf -> name d = name d_e -> score d = t) ->
  dict_get (name d_e) m = Some c -> c = d_e \/ c = both d_e t ->
  exists c',
    dict_get (name d_e) (fold_left merge_step tf m) = Some c'
    /\ (c' = d_e \/ c' = both d_e t)
    /\ (c = both d_e t -> c' = both d_e t)
    /\ ((exists d, d ∈ tf /\ name d = name d_e) -> c' = both d_e t).
Proof.
  revert m c. induction tf as [|d rest IH]; simpl; intros m c Hr Hs Hget Hc.
  - exists c. split; [assumption|]. split; [assumption|].
    split; [auto|]. intros (d & Hd & _). apply elem_of_nil in Hd. contradiction.
  - inversion Hr as [|? ? Hd Hrest]; subst.
    assert (forall d', d' ∈ rest -> name d' = name d_e -> score d' = t)
      as Hs' by (intros d' Hd'; apply Hs; right; assumption).
    destruct (String.eqb_spec (name d) (name d_e)) as [Heq | Hne].
    + pose proof (merge_step_same m d c Heq (Hs d (list_elem_of_here _ _) Heq)
                    Hget Hc) as Hstep.
      destruct (IH _ (both d_e t) Hrest Hs' Hstep (or_intror eq_refl))
        as (c' & Hget' & _ & Hfix & _).
      exists c'. rewrite (Hfix eq_refl) in *. auto.
    + pose proof (merge_step_other m d (name d_e) Hd Hne) as Hstep.
      rewrite Hget in Hstep.
      destruct (IH _ c Hrest Hs' Hstep Hc) as (c' & Hget' & Hc' & Hfix & Hex).
      exists c'. split; [assumption|]. split; [assumption|].
      split; [assumption|].
      intros (d' & Hd' & Hn'). apply Hex.
      apply elem_of_cons in Hd'. destruct Hd' as [-> | Hd']; [congruence|].
      exists d'. auto.
Qed.

End Both.

Section Claim.

Variables Vectorizer DocVectors : Type.
Variable cosine_scores : Vectorizer -> DocVectors -> string -> result (list Q).
Variable argsort : list Q -> list nat.

(** C3, amended. In a corpus of named documents with distinct names, a
    document that the exact strategy matched with score [e] and the
    vector strategy with score [t] comes exactly once in the sorted
    [relevant_docs] of the round, with the score [max(e, t)]; its kind
    is [hybrid] when [e < t] and stays [exact] otherwise. What the
    round returns is the part [relevant_docs[:top_k]] of that list, so
    the document comes at most once in it. *)
Theorem matched_by_both :
  forall (self : SimpleRetriever Vectorizer DocVectors) (query : string)
         (top_k : Z) (sims : list Q) (tf : list Doc) (d_e d_t : Doc)
         (e t : Q),
    named (documents self) ->
    distinct_names (documents self) ->
    similarities Vectorizer DocVectors cosine_scores self query = Ok sims ->
    tfidf_matches Vectorizer DocVectors argsort self sims top_k = Ok tf ->
    d_e ∈ exact_matches query (documents self) ->
    d_t ∈ tf ->
    file_name d_e = file_name d_t ->
    similarity_score d_e = Some e ->
    similarity_score d_t = Some t ->
    exists l r,
      relevant_docs Vectorizer DocVectors cosine_scores argsort self query
        top_k = Ok l
      /\ _search_with_query Vectorizer DocVectors cosine_scores argsort self
           query top_k = Ok (slice_to l top_k)
      /\ NoDup (map file_name l)
      /\ r ∈ l
      /\ file_name r = file_name d_e
      /\ similarity_score r = Some (max e t)
      /\ match_type r = Some (if Qltb e t then hybrid else exact)
      /\ same_document r d_e.
Proof.
  intros self query top_k sims tf d_e d_t e t Hnamed Hdistinct Hsims Htf
    Hde Hdt Hname He Ht.
  pose proof (exact_matches_ready query _ Hnamed) as HreadyE.
  assert (Forall ready tf) as HreadyT.
  { apply Forall_forall. intros d Hd.
    destruct (tfidf_loop_inv _ _ _ _ Htf d Hd) as (i & s & d0 & _ & Hd0 & ->).
    apply mark_ready. unfold named in Hnamed. rewrite Forall_forall in Hnamed.
    apply Hnamed. eapply list_elem_of_lookup_2; eassumption. }
  (* the scores and names of the two copies *)
  assert (score d_e = e) as Hse by (unfold score; rewrite He; reflexivity).
  assert (score d_t = t) as Hst by (unfold score; rewrite Ht; reflexivity).
  assert (name d_t = name d_e) as Hnt by (unfold name; rewrite Hname; reflexivity).
  (* every vector match with that name has the score t *)
  assert (forall d, d ∈ tf -> name d = name d_e -> score d = t) as Hsame.
  { intros d Hd Hn.
    destruct (tfidf_loop_inv _ _ _ _ Htf d Hd) as (i & s & d0 & Hs & Hd0 & ->).
    destruct (tfidf_loop_inv _ _ _ _ Htf d_t Hdt)
      as (j & s' & d1 & Hs' & Hd1 & ->).
    assert (i = j) as ->.
    { unfold distinct_names in Hdistinct.
      eapply NoDup_lookup; [exact Hdistinct| |].
      - rewrite list_lookup_fmap, Hd0. reflexivity.
      - rewrite list_lookup_fmap, Hd1. simpl. f_equal.
        unfold named in Hnamed. rewrite Forall_forall in Hnamed.
        pose proof (Hnamed d0 (list_elem_of_lookup_2 _ _ _ Hd0)) as H0.
        pose proof (Hnamed d1 (list_elem_of_lookup_2 _ _ _ Hd1)) as H1.
        rewrite (ready_name d0 H0), (ready_name d1 H1).
        f_equal. unfold name in *. simpl in *. congruence. }
    simpl in Hst |- *. unfold score in *. simpl in *. congruence. }
  (* the dictionary after the exact matches *)
  assert (dict_get (name d_e)
            (fold_left exact_step (exact_matches query (documents self)) [])
          = Some d_e) as Hget.
  { rewrite fold_exact_distinct.
    - simpl. apply dict_get_listed; [|assumption].
      eapply sublist_NoDup; [|apply exact_matches_names].
      apply distinct_name; assumption.
    - simpl. eapply sublist_NoDup; [|apply exact_matches_names].
      apply distinct_name; assumption. }
  destruct (fold_merge_both d_e t tf _ d_e HreadyT Hsame Hget (or_introl eq_refl))
    as (c' & Hget' & _ & _ & Hboth).
  rewrite (Hboth (ex_intro _ d_t (conj Hdt Hnt))) in Hget'. clear Hboth c'.
  (* the closed form of the round *)
  assert (dict_ok (merged (documents self) query tf)) as Hok.
  { unfold merged. apply fold_merge_ok; [|assumption].
    apply fold_exact_ok; [apply dict_ok_nil|assumption]. }
  assert (relevant_docs Vectorizer DocVectors cosine_scores argsort self query
            top_k
          = Ok (ranked (dict_values (merged (documents self) query tf))))
    as Hrel.
  { unfold relevant_docs. rewrite Hsims. cbn [bind]. rewrite Htf. cbn [bind].
    rewrite add_exact_fold by assumption. cbn [bind].
    rewrite add_tfidf_fold;
      [|apply fold_exact_ok; [apply dict_ok_nil|assumption]|assumption].
    cbn [bind]. apply sort_by_score_ranked, dict_ok_values_scored, Hok. }
  exists (ranked (dict_values (merged (documents self) query tf))),
         (both d_e t).
  split; [exact Hrel|].
  split; [unfold _search_with_query, search_body; rewrite Hrel; reflexivity|].
  split; [rewrite ranked_perm; apply dict_ok_values_NoDup, Hok|].
  split.
  { rewrite ranked_perm. unfold dict_values.
    apply list_elem_of_fmap. exists (name d_e, both d_e t).
    split; [reflexivity|]. apply dict_get_elem. exact Hget'. }
  unfold both. rewrite Hse.
  destruct (exact_matches_inv _ _ _ Hde) as (d0 & s & _ & ->).
  destruct (max_cases e t) as [[H Hmax] | [H Hmax]]; rewrite H, Hmax.
  - simpl. repeat split; try reflexivity.
  - simpl in *. assert (s = e) as -> by congruence.
    repeat split; try reflexivity.
Qed.

End Claim.

(** C3 as stated fails twice on three documents that all hold the
    query, with cosine scores 0, 0.1 and 0.2 and [top_k = 2]: ["b.txt"]
    is matched by both strategies and is returned with the kind
    [exact], not [hybrid], and ["c.txt"] is matched by both and is not
    returned. *)
Lemma matched_by_both_counterexample :
  exists a b db dc,
    exact_matches "python" Samples.python_docs = [a; b; dc]
    /\ tfidf_matches unit (list Q) stable_argsort
         (Samples.retriever_of Samples.python_docs [0; 0.1; 0.2]%Q)
         [0; 0.1; 0.2]%Q 2 = Ok [mark tfidf 0.2 (Samples.doc "c.txt" "Learning Python");
                                 db]
    /\ file_name b = Some "b.txt" /\ file_name db = Some "b.txt"
    /\ file_name dc = Some "c.txt"
    /\ _search_with_query unit (list Q) Samples.table_scores stable_argsort
         (Samples.retriever_of Samples.python_docs [0; 0.1; 0.2]%Q)
         "python" 2 = Ok [a; b]
    /\ match_type b = Some exact
    /\ file_name a = Some "a.txt".
Proof.
  do 4 eexists.
  split; [vm_compute; reflexivity|].
  split; [vm_compute; reflexivity|].
  repeat split; vm_compute; reflexivity.
Qed.

End Merge.

(** ** The order of the vector ranking *)

Module Ranking.
Import Py.
Import Retriever.
Import Notions.
Import RetrieverFacts.
Import SortFacts.
Import DictFacts.
Import SearchFacts.
Local Open Scope list_scope.

(** *** The stable [argsort] *)

Lemma insert_asc_perm {A} (x : Q * A) l :
  Permutation (insert_asc x l) (x :: l).
Proof.
  induction l as [|y t IH]; simpl; [reflexivity|].
  destruct (Qltb (fst y) (fst x)); [|reflexivity].
  rewrite IH. apply perm_swap.
Qed.

Lemma sort_asc_perm {A} (l : list (Q * A)) : Permutation (sort_asc l) l.
Proof.
  induction l as [|x t IH]; simpl; [reflexivity|].
  rewrite insert_asc_perm, IH. reflexivity.
Qed.

Lemma stable_order_le x y : stable_order x y -> (fst x <= fst y)%Q.
Proof.
  intros [H | [H _]]; [apply Qlt_le_weak, H|].
  rewrite H. apply Qle_refl.
Qed.

Lemma stable_order_first (p y : Q * nat) :
  (fst p <= fst y)%Q -> (snd p < snd y)%nat -> stable_order p y.
Proof.
  intros Hle Hlt. apply Qle_lteq in Hle. destruct Hle as [H | H].
  - left. exact H.
  - right. auto.
Qed.

Lemma insert_asc_stable (p : Q * nat) s :
  StronglySorted stable_order s ->
  Forall (fun y => (snd p < snd y)%nat) s ->
  StronglySorted stable_order (insert_asc p s).
Proof.
  induction s as [|y t IH]; simpl; intros Hs Hp.
  - repeat constructor.
  - apply StronglySorted_cons in Hs. destruct Hs as [Hy Ht].
    inversion Hp as [|? ? Hpy Hpt]; subst.
    destruct (Qltb (fst y) (fst p)) eqn:E.
    + apply StronglySorted_cons. split; [|auto].
      rewrite insert_asc_perm. constructor; [|assumption].
      left. apply Qltb_true, E.
    + apply Qltb_false in E. apply StronglySorted_cons. split.
      * constructor; [apply stable_order_first; assumption|].
        rewrite Forall_forall in Hy, Hpt |- *. intros z Hz.
        apply stable_order_first; [|auto].
        eapply Qle_trans; [exact E|]. apply stable_order_le, Hy, Hz.
      * apply StronglySorted_cons. auto.
Qed.

Lemma sort_asc_stable (l : list (Q * nat)) :
  StronglySorted lt (map snd l) ->
  StronglySorted stable_order (sort_asc l).
Proof.
  induction l as [|p t IH]; simpl; intros Hs.
  - constructor.
  - apply StronglySorted_cons in Hs. destruct Hs as [Hp Ht].
    apply insert_asc_stable; [auto|].
    rewrite sort_asc_perm. apply Forall_forall. intros y Hy.
    rewrite Forall_forall in Hp. apply Hp.
    apply list_elem_of_fmap. exists y. auto.
Qed.

Lemma seq_increasing start n : StronglySorted lt (seq start n).
Proof.
  revert start. induction n as [|n IH]; simpl; intros start.
  - constructor.
  - apply StronglySorted_cons. split; [|apply IH].
    apply Forall_forall. intros k Hk. apply elem_of_seq in Hk. lia.
Qed.

Lemma snd_combine_seq (values : list Q) start :
  map snd (combine values (seq start (length values)))
  = seq start (length values).
Proof.
  revert start. induction values as [|v t IH]; simpl; intros start;
    [reflexivity|].
  rewrite IH. reflexivity.
Qed.

Lemma combine_seq_lookup (values : list Q) start v k :
  (v, k) ∈ combine values (seq start (length values)) ->
  values !! (k - start) = Some v /\ (start <= k)%nat.
Proof.
  revert start. induction values as [|x t IH]; simpl; intros start H.
  - apply elem_of_nil in H. contradiction.
  - apply elem_of_cons in H. destruct H as [[= -> ->] | H].
    + rewrite Nat.sub_diag. auto.
    + apply IH in H. destruct H as [H Hle].
      replace (k - start) with (S (k - S start)) by lia. simpl. split; [auto|lia].
Qed.

(** The pairs that the stable sort puts in order. *)
Lemma stable_pairs_sorted values :
  StronglySorted stable_order
    (sort_asc (combine values (seq 0 (length values)))).
Proof.
  apply sort_asc_stable. rewrite snd_combine_seq. apply seq_increasing.
Qed.

Lemma stable_pairs_lookup values v k :
  (v, k) ∈ sort_asc (combine values (seq 0 (length values))) ->
  values !! k = Some v.
Proof.
  intros H. rewrite sort_asc_perm in H.
  apply combine_seq_lookup in H. destruct H as [H _].
  rewrite Nat.sub_0_r in H. exact H.
Qed.

Lemma strongly_sorted_lookup {A} (R : relation A) l i j a b :
  StronglySorted R l -> (i < j)%nat ->
  l !! i = Some a -> l !! j = Some b -> R a b.
Proof.
  intros Hs. revert i j. induction Hs as [|x t Ht IH Hx]; intros i j Hij Hi Hj.
  - rewrite lookup_nil in Hi. discriminate.
  - destruct j as [|j']; [lia|]. simpl in Hj.
    destruct i as [|i']; simpl in Hi.
    + injection Hi as <-. rewrite Forall_forall in Hx. apply Hx.
      eapply list_elem_of_lookup_2; eassumption.
    + eapply IH; [|eassumption|eassumption]. lia.
Qed.

(** The stable sort is an [argsort]. *)
Lemma stable_argsort_spec : argsort_spec stable_argsort.
Proof.
  intros values. unfold stable_argsort. split.
  - rewrite sort_asc_perm, snd_combine_seq. reflexivity.
  - intros i j a b x y Hij Hi Hj Hx Hy.
    rewrite list_lookup_fmap in Hi, Hj.
    destruct (sort_asc _ !! i) as [[x' a']|] eqn:Ei; [|discriminate].
    destruct (sort_asc _ !! j) as [[y' b']|] eqn:Ej; [|discriminate].
    simpl in Hi, Hj. injection Hi as ->. injection Hj as ->.
    pose proof (stable_pairs_lookup values x' a
                  (list_elem_of_lookup_2 _ _ _ Ei)) as Hx'.
    pose proof (stable_pairs_lookup values y' b
                  (list_elem_of_lookup_2 _ _ _ Ej)) as Hy'.
    assert (x' = x) as -> by congruence.
    assert (y' = y) as -> by congruence.
    apply (stable_order_le (x, a) (y, b)).
    eapply strongly_sorted_lookup;
      [apply stable_pairs_sorted|exact Hij|exact Ei|exact Ej].
Qed.

(** *** Descending scores *)

Lemma rev_reverse {A} (l : list A) : rev l = reverse l.
Proof. rewrite rev_alt. reflexivity. Qed.

Lemma descending_along_rev values idx :
  ascending_along values idx -> descending_along values (rev idx).
Proof.
  intros Hasc i j a b x y Hij Hi Hj Hx Hy.
  rewrite rev_reverse in Hi, Hj.
  apply reverse_lookup_Some in Hi, Hj.
  destruct Hi as [Hi Hil]. destruct Hj as [Hj Hjl].
  eapply (Hasc (length idx - S j)%nat (length idx - S i)%nat);
    [lia|eassumption..].
Qed.

Lemma descending_along_take values idx n :
  descending_along values idx -> descending_along values (take n idx).
Proof.
  intros Hd i j a b x y Hij Hi Hj Hx Hy.
  apply lookup_take_Some in Hi, Hj.
  destruct Hi as [Hi _]. destruct Hj as [Hj _].
  eapply Hd; eassumption.
Qed.

Lemma descending_along_slice values idx k :
  descending_along values idx -> descending_along values (slice_to idx k).
Proof.
  unfold slice_to. destruct (0 <=? k)%Z; apply descending_along_take.
Qed.

Lemma descending_along_tail values a idx :
  descending_along values (a :: idx) -> descending_along values idx.
Proof.
  intros Hd i j a' b x y Hij Hi Hj Hx Hy.
  eapply (Hd (S i) (S j)); [lia|eassumption..].
Qed.

(** A loop over [top_indices] that raised nothing returned the match
    of each index, in order. *)
Lemma tfidf_loop_Ok docs sims idxs tf :
  tfidf_loop docs sims idxs = Ok tf -> tf = omap (tf_of docs sims) idxs.
Proof.
  revert tf. induction idxs as [|i t IH]; simpl; intros tf H.
  - injection H as <-. reflexivity.
  - unfold tf_of at 1.
    destruct (sims !! i) as [s|] eqn:Es; [|discriminate].
    destruct (Qltb 0.05 s).
    + destruct (docs !! i) as [d0|] eqn:Ed; [|discriminate].
      destruct (tfidf_loop docs sims t) as [ms|] eqn:Et; [|discriminate].
      simpl in H. injection H as <-. rewrite (IH ms eq_refl). reflexivity.
    + destruct (docs !! i); apply IH, H.
Qed.

Lemma tf_of_score docs sims i d :
  tf_of docs sims i = Some d -> sims !! i = Some (score d).
Proof.
  unfold tf_of. destruct (sims !! i) as [s|]; [|discriminate].
  destruct (docs !! i); [|discriminate].
  destruct (Qltb 0.05 s); [|discriminate].
  intros [= <-]. reflexivity.
Qed.

Lemma omap_tf_descending docs sims idxs :
  descending_along sims idxs ->
  descending (scores (omap (tf_of docs sims) idxs)).
Proof.
  induction idxs as [|a rest IH]; intros Hd; [exact I|].
  pose proof (IH (descending_along_tail _ _ _ Hd)) as Hrest.
  cbn [omap list_omap]. destruct (tf_of docs sims a) as [d|] eqn:Ea;
    [|exact Hrest].
  split; [|exact Hrest].
  apply Forall_forall. intros y Hy. unfold scores in Hy.
  apply list_elem_of_fmap in Hy. destruct Hy as (d' & -> & Hd').
  apply list_elem_of_omap in Hd'. destruct Hd' as (b & Hb & Hdb).
  apply list_elem_of_lookup in Hb. destruct Hb as [q Hq].
  change (score d' <= score d)%Q.
  eapply (Hd 0%nat (S q)); [lia|reflexivity|exact Hq| |];
    eapply tf_of_score; eassumption.
Qed.

(** *** Equal scores under the stable [argsort] *)

Lemma before_lookup {A} (l : list A) p q a b :
  (p < q)%nat -> l !! p = Some a -> l !! q = Some b -> before a b l.
Proof.
  intros Hpq Hp Hq.
  exists (take p l), (take (q - S p) (drop (S p) l)),
         (drop (S (q - S p)) (drop (S p) l)).
  rewrite <- (take_drop_middle l p a Hp) at 1. f_equal. f_equal.
  symmetry. apply take_drop_middle.
  rewrite lookup_drop. replace (S p + (q - S p))%nat with q by lia. exact Hq.
Qed.

Lemma combine_seq_at (values : list Q) start i s :
  values !! i = Some s ->
  combine values (seq start (length values)) !! i = Some (s, (start + i)%nat).
Proof.
  revert start i. induction values as [|v t IH]; intros start i Hi.
  - rewrite lookup_nil in Hi. discriminate.
  - destruct i as [|i']; simpl in *.
    + injection Hi as ->. rewrite Nat.add_0_r. reflexivity.
    + replace (start + S i')%nat with (S start + i')%nat by lia.
      apply IH. assumption.
Qed.

Lemma stable_position values i s :
  values !! i = Some s ->
  exists p,
    sort_asc (combine values (seq 0 (length values))) !! p = Some (s, i).
Proof.
  intros Hi. apply list_elem_of_lookup.
  rewrite sort_asc_perm.
  apply list_elem_of_lookup. exists i.
  apply (combine_seq_at values 0 i s Hi).
Qed.

(** Of two indices with equal scores the stable [argsort] puts the
    first one first. *)
Lemma stable_argsort_ties values i j s_i s_j :
  (i < j)%nat -> values !! i = Some s_i -> values !! j = Some s_j ->
  (s_i == s_j)%Q ->
  exists p q, (p < q)%nat /\ stable_argsort values !! p = Some i
              /\ stable_argsort values !! q = Some j.
Proof.
  intros Hij Hi Hj Heq.
  destruct (stable_position values i s_i Hi) as [p Hp].
  destruct (stable_position values j s_j Hj) as [q Hq].
  exists p, q. split; [|split].
  - destruct (Nat.lt_trichotomy p q) as [H | [H | H]]; [exact H| |].
    + subst q. rewrite Hp in Hq. injection Hq as _ Hq. lia.
    + exfalso.
      pose proof (strongly_sorted_lookup stable_order _ q p _ _
                    (stable_pairs_sorted values) H Hq Hp) as Ho.
      destruct Ho as [Ho | [_ Ho]]; simpl in Ho; [|lia].
      rewrite Heq in Ho. apply (Qlt_irrefl _ Ho).
  - unfold stable_argsort. rewrite list_lookup_fmap, Hp. reflexivity.
  - unfold stable_argsort. rewrite list_lookup_fmap, Hq. reflexivity.
Qed.

Lemma stable_argsort_NoDup values : NoDup (stable_argsort values).
Proof.
  destruct (stable_argsort_spec values) as [Hp _].
  rewrite Hp. apply NoDup_seq.
Qed.

(** ... so that in the reversed list, and in a prefix of it that holds
    both, the later index comes first. *)
Lemma top_indices_ties values n top_k i j s_i s_j :
  (i < j)%nat -> values !! i = Some s_i -> values !! j = Some s_j ->
  (s_i == s_j)%Q ->
  i ∈ top_indices stable_argsort values n top_k ->
  before j i (top_indices stable_argsort values n top_k).
Proof.
  intros Hij Hi Hj Heq Hin.
  destruct (stable_argsort_ties values i j s_i s_j Hij Hi Hj Heq)
    as (p & q & Hpq & Hp & Hq).
  set (l := stable_argsort values) in *.
  assert (exists m, top_indices stable_argsort values n top_k
                    = take m (reverse l)) as [m Hm].
  { unfold top_indices, slice_to. rewrite rev_reverse. fold l.
    destruct (0 <=? _)%Z; eexists; reflexivity. }
  rewrite Hm in Hin |- *.
  apply lookup_lt_Some in Hp as Hpl. apply lookup_lt_Some in Hq as Hql.
  assert (reverse l !! (length l - S p)%nat = Some i) as Hri.
  { apply reverse_lookup_Some. split; [|lia].
    replace (length l - S (length l - S p))%nat with p by lia. exact Hp. }
  assert (reverse l !! (length l - S q)%nat = Some j) as Hrj.
  { apply reverse_lookup_Some. split; [|lia].
    replace (length l - S (length l - S q))%nat with q by lia. exact Hq. }
  apply elem_of_take in Hin. destruct Hin as (k & Hk & Hkm).
  assert (k = (length l - S p)%nat) as ->.
  { eapply NoDup_lookup; [|exact Hk|exact Hri].
    rewrite reverse_Permutation. apply stable_argsort_NoDup. }
  eapply (before_lookup _ (length l - S q)%nat (length l - S p)%nat);
    [lia| |]; apply lookup_take_Some; split; try assumption; lia.
Qed.

Section Claim.

Variables Vectorizer DocVectors : Type.

(** C4, amended. The vector ranking lists the documents by cosine score
    in descending order, for every [argsort]: [tfidf_matches] holds the
    matches of [top_indices] in order, with descending scores. Of two
    documents with equal cosine scores that are both in the ranking, the
    one that comes later in the collection is listed first when
    [argsort] is stable: the ascending order of [argsort] is reversed. *)
Theorem vector_ranking_order :
  forall (self : SimpleRetriever Vectorizer DocVectors) (sims : list Q)
         (top_k : Z),
    (forall argsort tf,
       argsort_spec argsort ->
       tfidf_matches Vectorizer DocVectors argsort self sims top_k = Ok tf ->
       tf = omap (tf_of (documents self) sims)
              (top_indices argsort sims (length (documents self)) top_k)
       /\ descending (scores tf))
    /\ (forall i j s_i s_j,
          (i < j)%nat -> sims !! i = Some s_i -> sims !! j = Some s_j ->
          (s_i == s_j)%Q ->
          i ∈ top_indices stable_argsort sims (length (documents self))
                top_k ->
          before j i
            (top_indices stable_argsort sims (length (documents self))
               top_k)).
Proof.
  intros self sims top_k. split.
  - intros argsort tf Hspec Htf. unfold tfidf_matches in Htf.
    apply tfidf_loop_Ok in Htf. split; [exact Htf|].
    rewrite Htf. apply omap_tf_descending.
    unfold top_indices. apply descending_along_slice, descending_along_rev.
    apply Hspec.
  - intros i j s_i s_j. apply top_indices_ties.
Qed.

End Claim.

(** C4 as stated fails: two documents with the same cosine score come
    out in the reverse of their order in the collection. *)
Lemma vector_ranking_counterexample :
  tfidf_matches unit (list Q) stable_argsort
    (Samples.retriever_of Samples.plain_docs [0.3; 0.3]%Q) [0.3; 0.3]%Q 2
  = Ok [mark tfidf 0.3 (Samples.doc "b.txt" "beta");
        mark tfidf 0.3 (Samples.doc "a.txt" "alpha")]
  /\ _search_with_query unit (list Q) Samples.table_scores stable_argsort
       (Samples.retriever_of Samples.plain_docs [0.3; 0.3]%Q) "gamma" 2
     = Ok [mark tfidf 0.3 (Samples.doc "b.txt" "beta");
           mark tfidf 0.3 (Samples.doc "a.txt" "alpha")]
  /\ _search_with_query unit (list Q) Samples.table_scores stable_argsort
       (Samples.retriever_of Samples.plain_docs [0.3; 0.3]%Q) "gamma" 2
     <> Ok [mark tfidf 0.3 (Samples.doc "a.txt" "alpha");
            mark tfidf 0.3 (Samples.doc "b.txt" "beta")].
Proof.
  split; [vm_compute; reflexivity|].
  split; [vm_compute; reflexivity|].
  vm_compute. discriminate.
Qed.

Lemma vector_ranking_order_witness :
  (1 < 2)%nat
  /\ before 1%nat 0%nat (top_indices stable_argsort [0.3; 0.3]%Q 2 2)
  /\ descending
       (scores [mark tfidf 0.3 (Samples.doc "b.txt" "beta");
                mark tfidf 0.3 (Samples.doc "a.txt" "alpha")]).
Proof.
  destruct (vector_ranking_order unit (list Q)
              (Samples.retriever_of Samples.plain_docs [0.3; 0.3]%Q)
              [0.3; 0.3]%Q 2) as [Hdesc Hties].
  split; [lia|]. split.
  - apply (Hties 0%nat 1%nat 0.3%Q 0.3%Q); try reflexivity; [lia|].
    vm_compute. apply list_elem_of_In. simpl. auto.
  - apply (Hdesc stable_argsort _ stable_argsort_spec). vm_compute. reflexivity.
Defined.

End Ranking.

(** ** The theorems at work on the sample corpora *)

Module Witnesses.
Import Py.
Import Retriever.
Import Notions.
Local Open Scope list_scope.

Lemma plain_docs_named : named Samples.plain_docs.
Proof. repeat constructor; discriminate. Qed.

Lemma plain_docs_distinct : distinct_names Samples.plain_docs.
Proof.
  unfold distinct_names. simpl. apply NoDup_cons. split.
  - intros H. apply list_elem_of_singleton in H. discriminate.
  - apply NoDup_singleton.
Qed.

Lemma python_docs_named : named Samples.python_docs.
Proof. repeat constructor; discriminate. Qed.

Lemma python_docs_distinct : distinct_names Samples.python_docs.
Proof.
  unfold distinct_names. simpl.
  repeat (apply NoDup_cons; split;
          [rewrite ?elem_of_cons, elem_of_nil; intros H;
           repeat destruct H as [H|H]; try discriminate; exact H|]).
  apply NoDup_nil_2.
Qed.

Lemma empty_query_scores_witness :
  named Samples.plain_docs
  /\ distinct_names Samples.plain_docs
  /\ exists s l,
       (s == 0.5)%Q
       /\ retrieve_relevant_chunks unit (list Q) Samples.table_scores
            stable_argsort
            (Samples.retriever_of Samples.plain_docs [0; 0]%Q) "" 1 = Ok l
       /\ l = [mark exact s (Samples.doc "a.txt" "alpha")].
Proof.
  split; [apply plain_docs_named|]. split; [apply plain_docs_distinct|].
  destruct (ExactScores.empty_query_scores unit (list Q) Samples.table_scores
              stable_argsort
              (Samples.retriever_of Samples.plain_docs [0; 0]%Q)
              [0; 0]%Q [0; 0]%Q 1) as [(s & l & Hs & _ & Hl & Heq & _) _].
  - apply Ranking.stable_argsort_spec.
  - reflexivity.
  - discriminate.
  - apply plain_docs_named.
  - apply plain_docs_distinct.
  - reflexivity.
  - repeat constructor; apply Qle_bool_iff; reflexivity.
  - lia.
  - exists s, l. split; [exact Hs|]. split; [exact Hl|]. exact Heq.
Defined.

Lemma matched_by_both_witness :
  exists l r,
    relevant_docs unit (list Q) Samples.table_scores stable_argsort
      (Samples.retriever_of Samples.python_docs [0.9; 0.1; 0.2]%Q)
      "python" 3 = Ok l
    /\ r ∈ l
    /\ file_name r = Some "a.txt"
    /\ similarity_score r = Some 0.9%Q
    /\ match_type r = Some hybrid.
Proof.
  destruct (Merge.matched_by_both unit (list Q) Samples.table_scores
              stable_argsort
              (Samples.retriever_of Samples.python_docs [0.9; 0.1; 0.2]%Q)
              "python" 3 [0.9; 0.1; 0.2]%Q
              [mark tfidf 0.9 (Samples.doc "a.txt" "Python for the web");
               mark tfidf 0.2 (Samples.doc "c.txt" "Learning Python");
               mark tfidf 0.1 (Samples.doc "b.txt" "Python and data")]
              (mark exact (term_score "python")
                 (Samples.doc "a.txt" "Python for the web"))
              (mark tfidf 0.9 (Samples.doc "a.txt" "Python for the web"))
              (term_score "python") 0.9%Q)
    as (l & r & Hl & _ & _ & Hr & Hname & Hscore & Hkind & _).
  - apply python_docs_named.
  - apply python_docs_distinct.
  - reflexivity.
  - vm_compute. reflexivity.
  - apply list_elem_of_In. vm_compute. left. reflexivity.
  - left.
  - reflexivity.
  - reflexivity.
  - reflexivity.
  - exists l, r. split; [exact Hl|]. split; [exact Hr|].
    split; [exact Hname|]. split; [exact Hscore|]. exact Hkind.
Defined.

End Witnesses.

(** ** A larger count keeps the documents of a smaller one *)

Module Monotone.
Import Py.
Import Retriever.
Import Notions.
Import RetrieverFacts.
Import SortFacts.
Import DictFacts.
Import SearchFacts.
Import RetrieveFacts.
Import Ranking.
Local Open Scope list_scope.

Lemma same_document_refl d : same_document d d.
Proof. repeat split. Qed.

Lemma same_document_trans a b c :
  same_document a b -> same_document b c -> same_document a c.
Proof.
  intros (H1 & H2 & H3 & H4) (H1' & H2' & H3' & H4').
  repeat split; congruence.
Qed.

Lemma same_document_mark k s d : same_document d (mark k s d).
Proof. repeat split. Qed.

(** *** One more vector match *)

(** Two splits of one list: the shorter first part is a part of the
    longer one. *)
Lemma split_compare {A} (l1 l2 l1' l2' : list A) :
  l1 ++ l2 = l1' ++ l2' -> (length l1 < length l1')%nat ->
  exists y rest, l2 = y :: rest /\ y ∈ l1'.
Proof.
  intros Heq Hlen.
  destruct l2 as [|y rest].
  - rewrite app_nil_r in Heq. subst l1. rewrite length_app in Hlen. lia.
  - exists y, rest. split; [reflexivity|].
    assert ((l1 ++ y :: rest) !! length l1 = Some y) as Hy.
    { rewrite lookup_app_r by lia. rewrite Nat.sub_diag. reflexivity. }
    rewrite Heq, lookup_app_l in Hy by assumption.
    eapply list_elem_of_lookup_2; eassumption.
Qed.

Lemma keyed_app l1 l2 : keyed (l1 ++ l2) = keyed l1 ++ keyed l2.
Proof. unfold keyed. apply map_app. Qed.

Lemma dict_values_app (a b : dict) :
  dict_values (a ++ b) = dict_values a ++ dict_values b.
Proof. unfold dict_values. apply map_app. Qed.

(** An appended value takes one place in the sorted list. *)
Lemma ranked_append v t k d :
  d ∈ take k (ranked v) -> d ∈ take (S k) (ranked (v ++ [t])).
Proof.
  unfold ranked. rewrite keyed_app. simpl.
  destruct (sort_desc_middle (keyed v) [] (score t, t)) as (l1 & l2 & H1 & H2).
  rewrite app_nil_r in H2. rewrite H1, H2, !map_app. simpl.
  apply take_without.
Qed.

(** A value whose score grows moves towards the front. *)
Lemma ranked_upgrade a b cur cur' k d :
  (score cur < score cur')%Q ->
  d ∈ take k (ranked (a ++ cur :: b)) ->
  (d = cur /\ cur' ∈ take (S k) (ranked (a ++ cur' :: b)))
  \/ d ∈ take (S k) (ranked (a ++ cur' :: b)).
Proof.
  intros Hlt. unfold ranked. rewrite !keyed_app. simpl.
  destruct (sort_desc_middle (keyed a) (keyed b) (score cur, cur))
    as (l1 & l2 & H1 & H2).
  destruct (sort_desc_middle (keyed a) (keyed b) (score cur', cur'))
    as (l1' & l2' & H1' & H2').
  pose proof (sort_desc_sorted (keyed a ++ (score cur, cur) :: keyed b)) as Hs.
  pose proof (sort_desc_sorted (keyed a ++ (score cur', cur') :: keyed b))
    as Hs'.
  rewrite H1 in Hs. rewrite H1' in Hs'. rewrite H1, H1', !map_app. simpl.
  intros Hd. apply take_with in Hd. destruct Hd as [[-> Hlen] | Hd].
  - left. split; [reflexivity|]. apply take_at.
    rewrite !length_map in *.
    destruct (decide (length l1' <= length l1)%nat) as [Hle|Hgt]; [lia|].
    exfalso.
    destruct (split_compare l1 l2 l1' l2') as (y & rest & -> & Hy);
      [congruence|lia|].
    apply StronglySorted_app_1_r in Hs. apply sorted_desc_cons in Hs.
    destruct Hs as [Hs _]. inversion Hs as [|? ? Hye _]; subst.
    pose proof (StronglySorted_app_1_elem_of _ _ _ y (score cur', cur') Hs' Hy
                  (list_elem_of_here _ _)) as Hey.
    simpl in Hye, Hey.
    apply (Qlt_not_le _ _ Hlt). eapply Qle_trans; eassumption.
  - right. rewrite <- map_app in Hd. rewrite <- H2, H2', map_app in Hd.
    apply take_without. exact Hd.
Qed.

(** One step of the loop of [add_tfidf] pushes no document out of the
    first places, when one place is added. *)
Lemma merge_step_keeps (m : dict) t k d :
  dict_ok m -> ready t ->
  d ∈ take k (ranked (dict_values m)) ->
  exists d', d' ∈ take (S k) (ranked (dict_values (merge_step m t)))
             /\ same_document d d'.
Proof.
  intros Hm Ht Hd. unfold merge_step.
  destruct (dict_get (name t) m) as [cur|] eqn:E.
  - destruct (Qltb (score cur) (score t)) eqn:El.
    + destruct (dict_get_Some _ _ _ E) as (a & b & -> & Ha).
      rewrite dict_set_at by assumption.
      rewrite dict_values_app in Hd |- *. simpl in Hd |- *.
      apply (ranked_upgrade _ _ cur
               (mark hybrid (max (score cur) (score t)) cur)) in Hd.
      * destruct Hd as [[-> Hd] | Hd].
        -- eexists. split; [exact Hd|]. apply same_document_mark.
        -- exists d. split; [exact Hd|]. apply same_document_refl.
      * change (score (mark hybrid (max (score cur) (score t)) cur))
          with (max (score cur) (score t)).
        destruct (max_cases (score cur) (score t)) as [[H ->] | [H _]];
          [apply Qltb_true, H|congruence].
    + exists d. split; [|apply same_document_refl].
      apply elem_of_take in Hd. destruct Hd as (i & Hi & Hk).
      apply elem_of_take. exists i. split; [assumption|lia].
  - rewrite dict_set_new by assumption. rewrite dict_values_app. simpl.
    exists d. split; [|apply same_document_refl].
    apply ranked_append. exact Hd.
Qed.

Lemma take_more {A} (l : list A) k d : d ∈ take k l -> d ∈ take (S k) l.
Proof.
  rewrite !elem_of_take. intros (i & Hi & Hk). exists i. split; [assumption|lia].
Qed.

(** *** The rounds as functions of the count *)

Lemma merge_step_nonempty (m : dict) t : merge_step m t <> [].
Proof.
  unfold merge_step. destruct (dict_get (name t) m) as [cur|] eqn:E.
  - destruct (dict_get_Some _ _ _ E) as (a & b & -> & Ha).
    destruct (Qltb _ _).
    + rewrite dict_set_at by assumption. intros H.
      apply app_eq_nil in H. destruct H as [_ H]. discriminate.
    + intros H. apply app_eq_nil in H. destruct H as [_ H]. discriminate.
  - rewrite dict_set_new by assumption. intros H.
    apply app_eq_nil in H. destruct H as [_ H]. discriminate.
Qed.

Lemma fold_merge_nil tf (m : dict) :
  fold_left merge_step tf m = [] -> tf = [] /\ m = [].
Proof.
  revert m. induction tf as [|t rest IH]; simpl; intros m H; [auto|].
  apply IH in H. destruct H as [_ H]. exfalso.
  apply (merge_step_nonempty m t H).
Qed.

Lemma ranked_nil l : ranked l = [] -> l = [].
Proof.
  intros H. apply Permutation_nil. rewrite <- H. apply ranked_perm.
Qed.

Section Rounds.

Variables Vectorizer DocVectors : Type.
Variable cosine_scores : Vectorizer -> DocVectors -> string -> result (list Q).
Variable argsort : list Q -> list nat.
Variable self : SimpleRetriever Vectorizer DocVectors.

Hypothesis argsort_ok : argsort_spec argsort.
Hypothesis docs_named : named (documents self).
Hypothesis index_aligned : aligned cosine_scores self.

(** what a round returns for the count [k] *)
Abbreviation found := (fun (k : nat) (q : string) =>
  returned (_search_with_query Vectorizer DocVectors cosine_scores argsort
              self q (Z.of_nat k))).

(** the vector matches and the dictionary of a round with scores
    [sims] *)
Abbreviation matches := (fun (sims : list Q) (k : nat) =>
  omap (tf_of (documents self) sims) (take k (rev (argsort sims)))).

Lemma argsort_length sims : length (rev (argsort sims)) = length sims.
Proof.
  rewrite length_rev. destruct (argsort_ok sims) as [Hp _].
  rewrite (Permutation_length Hp). apply length_seq.
Qed.

Lemma top_indices_nat sims k :
  length sims = length (documents self) ->
  top_indices argsort sims (length (documents self)) (Z.of_nat k)
  = take k (rev (argsort sims)).
Proof.
  intros Hlen. unfold top_indices.
  rewrite slice_to_nonneg by lia.
  replace (Z.to_nat (Z.min (Z.of_nat k) (Z.of_nat (length (documents self)))))
    with (Nat.min k (length (documents self))) by lia.
  rewrite <- take_take. f_equal. apply take_ge.
  rewrite argsort_length. lia.
Qed.

Lemma found_closed sims k q :
  similarities Vectorizer DocVectors cosine_scores self q = Ok sims ->
  found k q
  = take k (ranked (dict_values (merged (documents self) q (matches sims k)))).
Proof.
  intros Hsims. cbv beta.
  rewrite (search_closed Vectorizer DocVectors cosine_scores argsort self
             argsort_ok docs_named index_aligned q sims _ Hsims).
  cbn [returned]. rewrite slice_to_nonneg by lia. rewrite Nat2Z.id.
  rewrite top_indices_nat; [reflexivity|].
  eapply similarities_length; eassumption.
Qed.

Lemma found_failed e k q :
  similarities Vectorizer DocVectors cosine_scores self q = Raise e ->
  found k q = [].
Proof.
  intros Hsims. cbv beta.
  rewrite (search_failed Vectorizer DocVectors cosine_scores argsort self q e
             _ Hsims). reflexivity.
Qed.

Lemma matches_ready sims k : Forall ready (matches sims k).
Proof. apply omap_tf_ready, docs_named. Qed.

Lemma found_tidy k q : tidy (found k q).
Proof.
  destruct (similarities Vectorizer DocVectors cosine_scores self q)
    as [sims|e] eqn:E.
  - rewrite (found_closed sims k q E). apply tidy_take, tidy_ranked_values.
    apply merged_ok; [assumption|apply matches_ready].
  - rewrite (found_failed e k q E). apply tidy_nil.
Qed.

Lemma found_short k q : (length (found k q) <= Z.to_nat (Z.of_nat k))%nat.
Proof.
  rewrite Nat2Z.id.
  destruct (similarities Vectorizer DocVectors cosine_scores self q)
    as [sims|e] eqn:E.
  - rewrite (found_closed sims k q E). rewrite length_take. lia.
  - rewrite (found_failed e k q E). simpl. lia.
Qed.

(** The vector matches for one place more are those for [k], and at
    most one more. *)
Lemma matches_step sims k :
  matches sims (S k) = matches sims k
  \/ exists t, ready t /\ matches sims (S k) = matches sims k ++ [t].
Proof.
  destruct (rev (argsort sims) !! k) as [x|] eqn:E.
  - rewrite (take_S_r _ _ _ E), omap_app. cbn [omap list_omap].
    destruct (tf_of (documents self) sims x) as [t|] eqn:Et.
    + right. exists t. split; [|reflexivity].
      eapply tf_of_ready; eassumption.
    + left. rewrite app_nil_r. reflexivity.
  - left. apply lookup_ge_None in E.
    rewrite !take_ge by lia. reflexivity.
Qed.

(** A round with one place more keeps the documents of the round. *)
Lemma found_step k q d :
  d ∈ found k q -> exists d', d' ∈ found (S k) q /\ same_document d d'.
Proof.
  destruct (similarities Vectorizer DocVectors cosine_scores self q)
    as [sims|e] eqn:E.
  2:{ rewrite (found_failed e k q E). intros H.
      apply elem_of_nil in H. contradiction. }
  rewrite (found_closed sims k q E), (found_closed sims (S k) q E).
  intros Hd. unfold merged.
  destruct (matches_step sims k) as [-> | (t & Ht & ->)].
  - exists d. split; [apply take_more, Hd|apply same_document_refl].
  - rewrite fold_left_app. cbn [fold_left].
    apply merge_step_keeps; [|assumption|exact Hd].
    apply merged_ok; [assumption|apply matches_ready].
Qed.

Lemma found_more k m q d :
  d ∈ found k q -> exists d', d' ∈ found (k + m) q /\ same_document d d'.
Proof.
  induction m as [|m IH]; intros Hd.
  - rewrite Nat.add_0_r. exists d. split; [assumption|apply same_document_refl].
  - destruct (IH Hd) as (d1 & Hd1 & Hs1).
    destruct (found_step _ _ _ Hd1) as (d2 & Hd2 & Hs2).
    exists d2. replace (k + S m)%nat with (S (k + m)) by lia.
    split; [assumption|]. eapply same_document_trans; eassumption.
Qed.

(** A round that finds nothing with one place finds nothing with
    more. *)
Lemma matches_none sims k m :
  length sims = length (documents self) ->
  matches sims (S k) = [] -> matches sims m = [].
Proof.
  intros Hlen Hnone. cbv beta in Hnone |- *.
  assert (forall i, i ∈ rev (argsort sims) ->
            tf_of (documents self) sims i = None) as Hall.
  { destruct (rev (argsort sims)) as [|r0 rest] eqn:Er.
    - intros i Hi. apply elem_of_nil in Hi. contradiction.
    - cbn [firstn omap list_omap] in Hnone.
      destruct (tf_of (documents self) sims r0) as [t0|] eqn:E0;
        [discriminate|].
      intros i Hi. apply list_elem_of_lookup in Hi. destruct Hi as [p Hp].
      destruct p as [|p']; [simpl in Hp; congruence|].
      assert (i ∈ argsort sims) as Hin.
      { apply list_elem_of_In, in_rev, list_elem_of_In. rewrite Er.
        eapply list_elem_of_lookup_2; eassumption. }
      assert (r0 ∈ argsort sims) as Hin0.
      { apply list_elem_of_In, in_rev, list_elem_of_In. rewrite Er. left. }
      pose proof (argsort_in_range argsort argsort_ok sims i Hin) as Hi.
      pose proof (argsort_in_range argsort argsort_ok sims r0 Hin0) as Hr0.
      destruct (lookup_lt_is_Some_2 sims i Hi) as [s Es].
      destruct (lookup_lt_is_Some_2 sims r0 Hr0) as [s0 Es0].
      rewrite Hlen in Hi, Hr0.
      destruct (lookup_lt_is_Some_2 (documents self) i Hi) as [d Ed].
      destruct (lookup_lt_is_Some_2 (documents self) r0 Hr0) as [d0 Ed0].
      unfold tf_of in E0 |- *. rewrite Es0, Ed0 in E0. rewrite Es, Ed.
      destruct (Qltb 0.05 s0) eqn:E5; [discriminate|].
      assert (Qltb 0.05 s = false) as ->; [|reflexivity].
      apply Qltb_false. apply Qltb_false in E5.
      eapply Qle_trans; [|exact E5].
      pose proof (descending_along_rev sims (argsort sims)
                    (proj2 (argsort_ok sims))) as Hd.
      rewrite Er in Hd.
      eapply (Hd 0%nat (S p')); [lia|reflexivity|exact Hp|exact Es0|exact Es]. }
  generalize (take m (rev (argsort sims))) (subseteq_take m (rev (argsort sims))).
  intros l Hl. induction l as [|i t IH]; [reflexivity|].
  cbn [omap list_omap]. rewrite Hall by (apply Hl; left).
  apply IH. intros x Hx. apply Hl. right. exact Hx.
Qed.

Lemma found_none k m q : found (S k) q = [] -> found m q = [].
Proof.
  destruct (similarities Vectorizer DocVectors cosine_scores self q)
    as [sims|e] eqn:E.
  2:{ intros _. apply (found_failed e m q E). }
  rewrite (found_closed sims (S k) q E), (found_closed sims m q E).
  intros H.
  assert (ranked (dict_values
            (merged (documents self) q (matches sims (S k)))) = []) as Hr.
  { destruct (ranked _) as [|x l]; [reflexivity|simpl in H; discriminate]. }
  apply ranked_nil in Hr. unfold dict_values in Hr.
  apply map_eq_nil in Hr. unfold merged in Hr.
  apply fold_merge_nil in Hr. destruct Hr as [Hm H0].
  unfold merged. rewrite H0.
  rewrite (matches_none sims k m
             (similarities_length _ _ cosine_scores self index_aligned q sims E)
             Hm).
  simpl. apply take_nil.
Qed.

(** The first successful round is the same for both counts. *)
Lemma first_found_more k m qs d :
  d ∈ first_found (found (S k)) qs ->
  exists d', d' ∈ first_found (found (S k + m)) qs /\ same_document d d'.
Proof.
  induction qs as [|q rest IH]; cbn [first_found]; intros Hd.
  - apply elem_of_nil in Hd. contradiction.
  - destruct (found (S k) q) as [|x l] eqn:Ek.
    + rewrite (found_none k (S k + m) q Ek). apply IH, Hd.
    + rewrite <- Ek in Hd.
      destruct (found_more (S k) m q d Hd) as (d' & Hd' & Hs).
      exists d'. split; [|exact Hs].
      destruct (found (S k + m) q) as [|x' l'] eqn:Ek'; [|exact Hd'].
      apply elem_of_nil in Hd'. contradiction.
Qed.

End Rounds.

Section Claim.

Variables Vectorizer DocVectors : Type.
Variable cosine_scores : Vectorizer -> DocVectors -> string -> result (list Q).
Variable argsort : list Q -> list nat.

(** C5. For counts [0 <= k < k'], every document that
    [retrieve_relevant_chunks] returns for [k] is returned for [k'] too
    (as a copy of the same stored document: the score and the kind of
    match may have grown). The corpus is one of named documents, the
    index is aligned with it, and [argsort] is an argsort. *)
Theorem retrieval_monotone :
  forall (self : SimpleRetriever Vectorizer DocVectors) (query : string)
         (k k' : Z),
    argsort_spec argsort ->
    named (documents self) ->
    aligned cosine_scores self ->
    (0 <= k)%Z -> (k < k')%Z ->
    exists l l',
      retrieve_relevant_chunks Vectorizer DocVectors cosine_scores argsort
        self query k = Ok l
      /\ retrieve_relevant_chunks Vectorizer DocVectors cosine_scores argsort
           self query k' = Ok l'
      /\ forall d, d ∈ l -> exists d', d' ∈ l' /\ same_document d d'.
Proof.
  intros self query k k' Hsort Hnamed Haligned Hk Hkk'.
  destruct (doc_vectors self) as [dv|] eqn:Edv.
  2:{ exists [], []. unfold retrieve_relevant_chunks. rewrite Edv.
      repeat split. intros d Hd. apply elem_of_nil in Hd. contradiction. }
  destruct (is_empty (documents self)) eqn:Ee.
  { exists [], []. unfold retrieve_relevant_chunks. rewrite Edv, Ee.
    repeat split. intros d Hd. apply elem_of_nil in Hd. contradiction. }
  assert (doc_vectors self <> None) as Hdv by congruence.
  assert (documents self <> []) as Hdocs.
  { intros H. apply is_empty_true in H. congruence. }
  assert (forall n : nat,
            retrieve_relevant_chunks Vectorizer DocVectors cosine_scores
              argsort self query (Z.of_nat n)
            = Ok (first_found
                    (fun q => returned
                       (_search_with_query Vectorizer DocVectors cosine_scores
                          argsort self q (Z.of_nat n)))
                    (candidates query))) as Hclosed.
  { intros n. apply retrieve_closed; try assumption; try lia.
    - intros q. apply found_tidy; assumption.
    - intros q. apply found_short; assumption. }
  rewrite <- (Z2Nat.id k) by lia. rewrite <- (Z2Nat.id k') by lia.
  rewrite !Hclosed. eexists. eexists.
  split; [reflexivity|]. split; [reflexivity|].
  intros d Hd.
  destruct (Z.to_nat k) as [|n] eqn:En.
  - exfalso. clear -Hd.
    induction (candidates query) as [|q rest IH]; simpl in Hd.
    + apply elem_of_nil in Hd. contradiction.
    + destruct (returned _) as [|x l] eqn:E.
      * apply IH, Hd.
      * assert (length (x :: l) <= 0)%nat as Hlen; [|simpl in Hlen; lia].
        rewrite <- E.
        destruct (RetrieverTotal.search_never_raises Vectorizer DocVectors
                    cosine_scores argsort self q (Z.of_nat 0)) as [r Hr].
        rewrite Hr. cbn [returned].
        unfold _search_with_query, search_body, try_except in Hr.
        destruct (relevant_docs _ _ _ _ _ _ _); cbn [bind] in Hr;
          injection Hr as <-; simpl; lia.
  - replace (Z.to_nat k') with (S n + (Z.to_nat k' - S n))%nat by lia.
    apply (first_found_more Vectorizer DocVectors cosine_scores argsort self
             Hsort Hnamed Haligned n). exact Hd.
Qed.

End Claim.

Lemma retrieval_monotone_witness :
  (0 <= 1)%Z /\ (1 < 3)%Z
  /\ exists l l',
       retrieve_relevant_chunks unit (list Q) Samples.table_scores
         stable_argsort
         (Samples.retriever_of Samples.python_docs [0.9; 0.1; 0.2]%Q)
         "python" 1 = Ok l
       /\ retrieve_relevant_chunks unit (list Q) Samples.table_scores
            stable_argsort
            (Samples.retriever_of Samples.python_docs [0.9; 0.1; 0.2]%Q)
            "python" 3 = Ok l'
       /\ forall d, d ∈ l -> exists d', d' ∈ l' /\ same_document d d'.
Proof.
  split; [lia|]. split; [lia|].
  apply (retrieval_monotone unit (list Q) Samples.table_scores stable_argsort
           (Samples.retriever_of Samples.python_docs [0.9; 0.1; 0.2]%Q)
           "python" 1 3).
  - apply stable_argsort_spec.
  - apply Witnesses.python_docs_named.
  - intros dv q sims Hdv Hs. simpl in Hdv. injection Hdv as <-.
    injection Hs as <-. reflexivity.
  - lia.
  - lia.
Defined.

End Monotone.

(** ** Retrieval leaves the retriever as it was *)

Module Frame.
Import Py.
Import Store.
Import StoreNotions.
Local Open Scope list_scope.

Section Frame.

Variables Vectorizer DocVectors : Type.
Variable cosine_scores : Vectorizer -> DocVectors -> string -> result (list Q).
Variable argsort : list Q -> list nat.

Abbreviation state := (State Vectorizer DocVectors).
Abbreviation St := (Store.St Vectorizer DocVectors).

Variable st0 : state.

Lemma extends_refl : extends Vectorizer DocVectors st0 st0.
Proof. split; reflexivity. Qed.

Lemma keeps_weaken {A} (m : St A) (P Q : A -> Prop) :
  keeps _ _ st0 m P -> (forall a, P a -> Q a) -> keeps _ _ st0 m Q.
Proof.
  intros Hm HPQ st Hst. destruct (Hm st Hst) as [He Hp]. split; auto.
Qed.

Lemma keeps_ret {A} (a : A) (P : A -> Prop) :
  P a -> keeps _ _ st0 (ret Vectorizer DocVectors a) P.
Proof.
  intros Ha st Hst. split; [exact Hst|]. simpl. intros a' [= <-]. exact Ha.
Qed.

Lemma keeps_raise {A} e (P : A -> Prop) :
  keeps _ _ st0 (raise Vectorizer DocVectors e) P.
Proof. intros st Hst. split; [exact Hst|]. simpl. discriminate. Qed.

Lemma keeps_lift {A} (r : result A) :
  keeps _ _ st0 (lift Vectorizer DocVectors r) (fun _ => True).
Proof. intros st Hst. split; [exact Hst|]. auto. Qed.

Lemma keeps_bind {A B} (m : St A) (f : A -> St B) (P : A -> Prop)
    (Q : B -> Prop) :
  keeps _ _ st0 m P -> (forall a, P a -> keeps _ _ st0 (f a) Q) ->
  keeps _ _ st0 (bindS Vectorizer DocVectors m f) Q.
Proof.
  intros Hm Hf st Hst. unfold bindS.
  destruct (Hm st Hst) as [He Hp].
  destruct (m st) as [[a|e] st1]; simpl in *.
  - apply (Hf a (Hp a eq_refl) st1 He).
  - split; [exact He|discriminate].
Qed.

Lemma keeps_try {A} (m : St A) (h : exn -> St A) (P : A -> Prop) :
  keeps _ _ st0 m P -> (forall e, keeps _ _ st0 (h e) P) ->
  keeps _ _ st0 (tryS Vectorizer DocVectors m h) P.
Proof.
  intros Hm Hh st Hst. unfold tryS.
  destruct (Hm st Hst) as [He Hp].
  destruct (m st) as [[a|e] st1]; simpl in *.
  - split; [exact He|]. intros a' [= <-]. apply Hp. reflexivity.
  - apply (Hh e st1 He).
Qed.

Lemma keeps_get_self :
  keeps _ _ st0 (get_self Vectorizer DocVectors) (fun s => s = self st0).
Proof.
  intros st Hst. split; [exact Hst|]. simpl. intros s [= <-]. apply Hst.
Qed.

Lemma keeps_read a :
  keeps _ _ st0 (read Vectorizer DocVectors a) (fun _ => True).
Proof.
  intros st Hst. unfold read. destruct (heap st !! a); split; auto.
Qed.

(** A copy is a new object. *)
Lemma keeps_dict_copy a :
  keeps _ _ st0 (dict_copy Vectorizer DocVectors a)
    (fresh_for Vectorizer DocVectors st0).
Proof.
  intros st [Hself Hheap]. unfold dict_copy, bindS, read.
  destruct (heap st !! a) as [d|]; simpl.
  - assert (heap st !! fresh (dom (heap st)) = None) as Hfresh.
    { apply not_elem_of_dom. apply is_fresh. }
    split.
    + split; [exact Hself|]. simpl.
      etransitivity; [exact Hheap|]. apply insert_subseteq. exact Hfresh.
    + intros a' [= <-]. unfold fresh_for.
      eapply lookup_weaken_None; eassumption.
  - split; [split; assumption|discriminate].
Qed.

(** An assignment to a key of a new object changes no object of
    [st0]. *)
Lemma keeps_update a f :
  fresh_for Vectorizer DocVectors st0 a ->
  keeps _ _ st0 (update Vectorizer DocVectors a f) (fun _ => True).
Proof.
  intros Ha st [Hself Hheap]. unfold update, bindS, read.
  destruct (heap st !! a) as [d|]; simpl.
  - split; [|auto]. split; [exact Hself|]. simpl.
    apply insert_subseteq_r; assumption.
  - split; [split; assumption|auto].
Qed.

Lemma keeps_getitem_file_name a :
  keeps _ _ st0 (getitem_file_name Vectorizer DocVectors a) (fun _ => True).
Proof.
  unfold getitem_file_name. eapply keeps_bind; [apply keeps_read|].
  intros d _. apply keeps_lift.
Qed.

Lemma keeps_getitem_score a :
  keeps _ _ st0 (getitem_score Vectorizer DocVectors a) (fun _ => True).
Proof.
  unfold getitem_score. eapply keeps_bind; [apply keeps_read|].
  intros d _. apply keeps_lift.
Qed.

Lemma keeps_mapS {A B} (f : A -> St B) l :
  (forall x, keeps _ _ st0 (f x) (fun _ => True)) ->
  keeps _ _ st0 (mapS Vectorizer DocVectors f l) (fun _ => True).
Proof.
  intros Hf. induction l as [|x t IH]; simpl.
  - apply keeps_ret. exact I.
  - eapply keeps_bind; [apply Hf|]. intros y _.
    eapply keeps_bind; [apply IH|]. intros ys _. apply keeps_ret. exact I.
Qed.

(** The copy of a match with its score and kind. *)
Lemma keeps_marked_copy a s k (rest : St (list addr)) :
  keeps _ _ st0 rest (Forall (fresh_for Vectorizer DocVectors st0)) ->
  keeps _ _ st0
    (bindS _ _ (dict_copy Vectorizer DocVectors a) (fun c =>
     bindS _ _ (setitem_score Vectorizer DocVectors c s) (fun _ =>
     bindS _ _ (setitem_match_type Vectorizer DocVectors c k) (fun _ =>
     bindS _ _ rest (fun ms => ret _ _ (c :: ms))))))
    (Forall (fresh_for Vectorizer DocVectors st0)).
Proof.
  intros Hrest.
  eapply keeps_bind; [apply keeps_dict_copy|]. intros c Hc.
  eapply keeps_bind; [apply keeps_update, Hc|]. intros _ _.
  eapply keeps_bind; [apply keeps_update, Hc|]. intros _ _.
  eapply keeps_bind; [exact Hrest|]. intros ms Hms.
  apply keeps_ret. constructor; assumption.
Qed.

Lemma keeps_exact_loop terms docs :
  keeps _ _ st0 (exact_loop Vectorizer DocVectors terms docs)
    (Forall (fresh_for Vectorizer DocVectors st0)).
Proof.
  induction docs as [|a rest IH]; simpl.
  - apply keeps_ret. constructor.
  - eapply keeps_bind; [apply keeps_read|]. intros d _.
    destruct (fst (Retriever.scan_terms _ _ _)); [|exact IH].
    apply keeps_marked_copy, IH.
Qed.

Lemma keeps_tfidf_loop docs sims idxs :
  keeps _ _ st0 (tfidf_loop Vectorizer DocVectors docs sims idxs)
    (Forall (fresh_for Vectorizer DocVectors st0)).
Proof.
  induction idxs as [|i rest IH]; simpl.
  - apply keeps_ret. constructor.
  - destruct (sims !! i) as [s|]; [|apply keeps_raise].
    destruct (Qltb 0.05 s); [|exact IH].
    destruct (docs !! i) as [a|]; [|apply keeps_raise].
    apply keeps_marked_copy, IH.
Qed.

Lemma refdict_set_fresh k a (d : refdict) :
  fresh_for Vectorizer DocVectors st0 a ->
  Forall (fresh_for Vectorizer DocVectors st0) (map snd d) ->
  Forall (fresh_for Vectorizer DocVectors st0) (map snd (refdict_set k a d)).
Proof.
  intros Ha. induction d as [|[k' v] t IH]; simpl; intros Hd.
  - constructor; [assumption|constructor].
  - inversion Hd; subst. destruct (String.eqb k k'); simpl;
      constructor; auto.
Qed.

Lemma refdict_get_fresh k a (d : refdict) :
  Forall (fresh_for Vectorizer DocVectors st0) (map snd d) ->
  refdict_get k d = Some a -> fresh_for Vectorizer DocVectors st0 a.
Proof.
  induction d as [|[k' v] t IH]; simpl; intros Hd; [discriminate|].
  inversion Hd; subst. destruct (String.eqb k k'); [intros [= <-]|]; auto.
Qed.

Lemma keeps_add_exact ms (d : refdict) :
  Forall (fresh_for Vectorizer DocVectors st0) ms ->
  Forall (fresh_for Vectorizer DocVectors st0) (map snd d) ->
  keeps _ _ st0 (add_exact Vectorizer DocVectors ms d)
    (fun d' => Forall (fresh_for Vectorizer DocVectors st0) (map snd d')).
Proof.
  revert d. induction ms as [|a rest IH]; simpl; intros d Hms Hd.
  - apply keeps_ret. exact Hd.
  - inversion Hms; subst.
    eapply keeps_bind; [apply keeps_getitem_file_name|]. intros fn _.
    apply IH; [assumption|]. apply refdict_set_fresh; assumption.
Qed.

Lemma keeps_add_tfidf ms (d : refdict) :
  Forall (fresh_for Vectorizer DocVectors st0) ms ->
  Forall (fresh_for Vectorizer DocVectors st0) (map snd d) ->
  keeps _ _ st0 (add_tfidf Vectorizer DocVectors ms d) (fun _ => True).
Proof.
  revert d. induction ms as [|a rest IH]; simpl; intros d Hms Hd.
  - apply keeps_ret. exact I.
  - inversion Hms; subst.
    eapply keeps_bind; [apply keeps_getitem_file_name|]. intros fn _.
    destruct (refdict_get fn d) as [cur|] eqn:E.
    + pose proof (refdict_get_fresh _ _ _ Hd E) as Hcur.
      eapply keeps_bind; [apply keeps_getitem_score|]. intros sc _.
      eapply keeps_bind; [apply keeps_getitem_score|]. intros sd _.
      destruct (Qltb sc sd); [|apply IH; assumption].
      eapply keeps_bind; [apply keeps_update, Hcur|]. intros _ _.
      eapply keeps_bind; [apply keeps_update, Hcur|]. intros _ _.
      apply IH; assumption.
    + apply IH; [assumption|]. apply refdict_set_fresh; assumption.
Qed.

Lemma keeps_sort_by_score l :
  keeps _ _ st0 (sort_by_score Vectorizer DocVectors l) (fun _ => True).
Proof.
  unfold sort_by_score.
  eapply keeps_bind; [apply keeps_mapS; intros; apply keeps_getitem_score|].
  intros keys _. apply keeps_ret. exact I.
Qed.

Lemma keeps_similarities query :
  keeps _ _ st0 (similarities Vectorizer DocVectors cosine_scores query)
    (fun _ => True).
Proof.
  unfold similarities. eapply keeps_bind; [apply keeps_get_self|].
  intros s _. destruct (doc_vectors s); [apply keeps_lift|apply keeps_raise].
Qed.

Lemma keeps_search query top_k :
  keeps _ _ st0
    (_search_with_query Vectorizer DocVectors cosine_scores argsort query
       top_k) (fun _ => True).
Proof.
  unfold _search_with_query.
  apply keeps_try; [|intros e; apply keeps_ret; exact I].
  unfold search_body.
  eapply keeps_bind; [apply keeps_get_self|]. intros s _.
  eapply keeps_bind; [apply keeps_exact_loop|]. intros exact_matches Hexact.
  eapply keeps_bind; [apply keeps_similarities|]. intros sims _.
  eapply keeps_bind; [apply keeps_tfidf_loop|]. intros tfidf_matches Htfidf.
  eapply keeps_bind; [apply keeps_add_exact; [assumption|constructor]|].
  intros all1 Hall1.
  eapply keeps_bind; [apply keeps_add_tfidf; assumption|]. intros all_matches _.
  eapply keeps_bind; [apply keeps_sort_by_score|]. intros relevant_docs _.
  apply keeps_ret. exact I.
Qed.

Lemma keeps_search_words top_k words acc :
  keeps _ _ st0
    (search_words Vectorizer DocVectors cosine_scores argsort top_k words acc)
    (fun _ => True).
Proof.
  revert acc. induction words as [|w rest IH]; simpl; intros acc.
  - apply keeps_ret. exact I.
  - destruct (4 <? len w)%nat; [|apply IH].
    eapply keeps_bind; [apply keeps_search|]. intros word_results _.
    destruct (Retriever.is_empty word_results);
      [apply IH|apply keeps_ret; exact I].
Qed.

Lemma keeps_unique_from seen l :
  keeps _ _ st0 (unique_from Vectorizer DocVectors seen l) (fun _ => True).
Proof.
  revert seen. induction l as [|a rest IH]; simpl; intros seen.
  - apply keeps_ret. exact I.
  - eapply keeps_bind.
    { unfold doc_id. eapply keeps_bind; [apply keeps_read|].
      intros d _. apply keeps_lift. }
    intros i _. destruct (existsb _ seen); [apply IH|].
    eapply keeps_bind; [apply IH|]. intros u _. apply keeps_ret. exact I.
Qed.

Lemma keeps_sort_by_score_default l :
  keeps _ _ st0 (sort_by_score_default Vectorizer DocVectors l)
    (fun _ => True).
Proof.
  unfold sort_by_score_default.
  eapply keeps_bind.
  { apply keeps_mapS. intros a. eapply keeps_bind; [apply keeps_read|].
    intros d _. apply keeps_ret. exact I. }
  intros keys _. apply keeps_ret. exact I.
Qed.

Lemma keeps_retrieve query top_k :
  keeps _ _ st0
    (retrieve_relevant_chunks Vectorizer DocVectors cosine_scores argsort
       query top_k) (fun _ => True).
Proof.
  unfold retrieve_relevant_chunks.
  eapply keeps_bind; [apply keeps_get_self|]. intros s _.
  destruct (doc_vectors s); [|apply keeps_ret; exact I].
  destruct (Retriever.is_empty (documents s)); [apply keeps_ret; exact I|].
  apply keeps_try; [|intros e; apply keeps_ret; exact I].
  unfold retrieve_body.
  eapply keeps_bind; [apply keeps_search|]. intros results1 _.
  eapply keeps_bind.
  { destruct (Retriever.is_empty results1); [|apply keeps_ret; exact I].
    destruct (_ && _); [|apply keeps_ret; exact I].
    eapply keeps_bind; [apply keeps_search|]. intros results2 _.
    apply keeps_ret. exact I. }
  intros all_results _.
  eapply keeps_bind.
  { destruct (Retriever.is_empty all_results);
      [apply keeps_search_words|apply keeps_ret; exact I]. }
  intros all_results' _.
  eapply keeps_bind; [apply keeps_unique_from|]. intros unique_results _.
  eapply keeps_bind; [apply keeps_sort_by_score_default|]. intros sorted _.
  apply keeps_ret. exact I.
Qed.

End Frame.

Section Claim.

Variables Vectorizer DocVectors : Type.
Variable cosine_scores : Vectorizer -> DocVectors -> string -> result (list Q).
Variable argsort : list Q -> list nat.

Lemma view_weaken (h h' : gmap addr Retriever.Doc) refs docs :
  h ⊆ h' -> view h refs = Some docs -> view h' refs = Some docs.
Proof.
  intros Hsub. unfold view. revert docs.
  induction refs as [|a rest IH]; simpl; intros docs H; [exact H|].
  destruct (h !! a) as [d|] eqn:Ea; simpl in H; [|discriminate].
  rewrite (lookup_weaken _ _ _ _ Ea Hsub). simpl.
  destruct (mapM (fun a0 => h !! a0) rest) as [ds|] eqn:Er; simpl in H;
    [|discriminate].
  rewrite (IH ds eq_refl). simpl. exact H.
Qed.

(** C8. [retrieve_relevant_chunks] leaves the state of the retriever as
    it was: after the call, raised or not, [self] (the list of document
    references, the vectorizer and the document vectors) is the same,
    every object of the store is in the store unchanged, and so the
    stored documents read as before. Scores and kinds of match are
    written to objects that [dict(doc)] made during the call. *)
Theorem retrieve_preserves_state :
  forall (st : State Vectorizer DocVectors) (query : string) (top_k : Z),
    let st' :=
      snd (retrieve_relevant_chunks Vectorizer DocVectors cosine_scores
             argsort query top_k st) in
    self st' = self st
    /\ heap st ⊆ heap st'
    /\ (forall docs,
          view (heap st) (documents (self st)) = Some docs ->
          view (heap st') (documents (self st')) = Some docs)
    /\ (forall self', self_view Vectorizer DocVectors st = Some self' ->
          self_view Vectorizer DocVectors st' = Some self').
Proof.
  intros st query top_k st'.
  destruct (keeps_retrieve Vectorizer DocVectors cosine_scores argsort st
              query top_k st (extends_refl _ _ st)) as [[Hself Hheap] _].
  fold st' in Hself, Hheap.
  assert (forall docs,
            view (heap st) (documents (self st)) = Some docs ->
            view (heap st') (documents (self st')) = Some docs) as Hview.
  { intros docs Hdocs. rewrite Hself. eapply view_weaken; eassumption. }
  split; [exact Hself|]. split; [exact Hheap|]. split; [exact Hview|].
  intros self' H. unfold self_view in *.
  destruct (view (heap st) (documents (self st))) as [docs|] eqn:E;
    [|discriminate].
  rewrite (Hview docs eq_refl), Hself. exact H.
Qed.

End Claim.

Lemma retrieve_preserves_state_witness :
  view (heap Samples.sample_state) (documents (self Samples.sample_state))
  = Some [Samples.doc "a.txt" "alpha beta"; Samples.doc "b.txt" "beta gamma"]
  /\ view
       (heap (snd (retrieve_relevant_chunks unit (list Q) Samples.table_scores
                     Retriever.stable_argsort "beta" 2 Samples.sample_state)))
       (documents
          (self (snd (retrieve_relevant_chunks unit (list Q)
                        Samples.table_scores Retriever.stable_argsort "beta" 2
                        Samples.sample_state))))
     = Some [Samples.doc "a.txt" "alpha beta";
             Samples.doc "b.txt" "beta gamma"].
Proof.
  split; [reflexivity|].
  apply (retrieve_preserves_state unit (list Q) Samples.table_scores
           Retriever.stable_argsort Samples.sample_state "beta" 2).
  reflexivity.
Defined.

(** On the sample state the store and the retriever over values give
    the same results. *)
Example store_agrees_with_values :
  exists refs st',
    retrieve_relevant_chunks unit (list Q) Samples.table_scores
      Retriever.stable_argsort "beta" 2 Samples.sample_state = (Ok refs, st')
    /\ option_map Ok (view (heap st') refs)
       = Some (Retriever.retrieve_relevant_chunks unit (list Q)
                 Samples.table_scores Retriever.stable_argsort
                 (Retriever.mkRetriever
                    [Samples.doc "a.txt" "alpha beta";
                     Samples.doc "b.txt" "beta gamma"]
                    true "cache" tt (Some [0.3; 0.9]%Q)) "beta" 2).
Proof.
  eexists. eexists. split; [vm_compute; reflexivity|].
  vm_compute. reflexivity.
Qed.

End Frame.

(** ** The store and the values give the same results *)

Module Refinement.
Import Py.
Import Store.
Import StoreNotions.
Local Open Scope list_scope.

Lemma denotes_weaken (h h' : gmap addr Retriever.Doc) refs docs :
  h ⊆ h' -> denotes h refs docs -> denotes h' refs docs.
Proof.
  intros Hsub Hd. unfold denotes in *.
  induction Hd as [|a d refs docs Ha _ IH]; constructor; [|exact IH].
  eapply lookup_weaken; eassumption.
Qed.

Lemma denotes_insert (h : gmap addr Retriever.Doc) refs docs c v :
  c ∉ refs -> denotes h refs docs -> denotes (<[c := v]> h) refs docs.
Proof.
  intros Hc Hd. unfold denotes in *.
  induction Hd as [|a d refs docs Ha _ IH]; [constructor|].
  rewrite not_elem_of_cons in Hc. destruct Hc as [Hne Hc].
  constructor; [|auto]. rewrite lookup_insert_ne by congruence. exact Ha.
Qed.

Lemma denotes_view (h : gmap addr Retriever.Doc) refs docs :
  denotes h refs docs <-> view h refs = Some docs.
Proof.
  unfold view. split.
  - induction 1 as [|a d refs docs Ha _ IH]; [reflexivity|].
    simpl. rewrite Ha. simpl. rewrite IH. reflexivity.
  - revert docs. induction refs as [|a rest IH]; simpl; intros docs H.
    + injection H as <-. constructor.
    + destruct (h !! a) as [d|] eqn:Ea; simpl in H; [|discriminate].
      destruct (mapM (fun a0 => h !! a0) rest) as [ds|] eqn:Er; simpl in H;
        [|discriminate].
      injection H as <-. constructor; [exact Ea|]. apply IH. reflexivity.
Qed.

Lemma denotes_lookup (h : gmap addr Retriever.Doc) refs docs i :
  denotes h refs docs ->
  match refs !! i, docs !! i with
  | Some a, Some d => h !! a = Some d
  | None, None => True
  | _, _ => False
  end.
Proof.
  intros Hd. revert i.
  induction Hd as [|a d refs docs Ha _ IH]; intros [|i]; simpl; auto.
  apply IH.
Qed.

Lemma denotes_app (h : gmap addr Retriever.Doc) refs docs refs' docs' :
  denotes h refs docs -> denotes h refs' docs' ->
  denotes h (refs ++ refs') (docs ++ docs').
Proof. apply Forall2_app. Qed.

Lemma denotes_slice (h : gmap addr Retriever.Doc) refs docs k :
  denotes h refs docs -> denotes h (slice_to refs k) (slice_to docs k).
Proof.
  intros Hd. unfold slice_to.
  rewrite (Forall2_length _ _ _ Hd).
  destruct (0 <=? k)%Z; apply Forall2_take; exact Hd.
Qed.

Lemma denotes_is_empty (h : gmap addr Retriever.Doc) refs docs :
  denotes h refs docs -> Retriever.is_empty refs = Retriever.is_empty docs.
Proof. intros Hd. destruct Hd; reflexivity. Qed.

Lemma agree_Ok_l {A B} (R : A -> B -> Prop) a r' :
  agree R (Ok a) r' -> exists b, r' = Ok b /\ R a b.
Proof. destruct r' as [b|e]; simpl; [eauto|tauto]. Qed.

Lemma agree_Raise_l {A B} (R : A -> B -> Prop) e r' :
  agree R (Raise e) r' -> exists e', r' = Raise e'.
Proof. destruct r' as [b|e']; simpl; [tauto|eauto]. Qed.

(** *** Dictionaries of references *)

Lemma refdict_get_elem k (all : refdict) a :
  refdict_get k all = Some a -> a ∈ map snd all.
Proof.
  induction all as [|[k' v] t IH]; simpl; [discriminate|].
  destruct (String.eqb k k').
  - intros [= <-]. apply list_elem_of_here.
  - intros H. apply list_elem_of_further, IH, H.
Qed.

Lemma refdict_set_elem k v (all : refdict) a :
  a ∈ map snd (refdict_set k v all) -> a = v \/ a ∈ map snd all.
Proof.
  induction all as [|[k' v'] t IH]; simpl.
  - rewrite list_elem_of_singleton. auto.
  - destruct (String.eqb k k'); simpl; rewrite !elem_of_cons; intuition.
Qed.

Lemma refdict_set_NoDup k v (all : refdict) :
  NoDup (map snd all) -> v ∉ map snd all ->
  NoDup (map snd (refdict_set k v all)).
Proof.
  induction all as [|[k' v'] t IH]; simpl; intros Hnd Hv.
  - apply NoDup_singleton.
  - rewrite NoDup_cons in Hnd. destruct Hnd as [Hv' Hnd].
    rewrite not_elem_of_cons in Hv. destruct Hv as [Hne Hv].
    destruct (String.eqb k k'); simpl; rewrite NoDup_cons.
    + split; assumption.
    + split; [|apply IH; assumption].
      intros Hin. apply refdict_set_elem in Hin. destruct Hin; congruence.
Qed.

Lemma refdict_set_step k v (all : refdict) rest :
  NoDup (map snd all ++ v :: rest) ->
  NoDup (map snd (refdict_set k v all) ++ rest).
Proof.
  rewrite !NoDup_app. intros (Hall & Hdis & Hrest).
  rewrite NoDup_cons in Hrest. destruct Hrest as [Hv Hrest].
  split; [|split; [|exact Hrest]].
  - apply refdict_set_NoDup; [exact Hall|].
    intros Hin. apply (Hdis v Hin). apply list_elem_of_here.
  - intros x Hx Hin. apply refdict_set_elem in Hx. destruct Hx as [->|Hx].
    + contradiction.
    + apply (Hdis x Hx). apply list_elem_of_further, Hin.
Qed.

Lemma dict_denotes_get (h : gmap addr Retriever.Doc) all alld k :
  dict_denotes h all alld ->
  match refdict_get k all, Retriever.dict_get k alld with
  | Some a, Some d => h !! a = Some d
  | None, None => True
  | _, _ => False
  end.
Proof.
  induction 1 as [|[k1 a] [k2 d] all alld [Hk Ha] _ IH]; simpl; [exact I|].
  simpl in Hk, Ha. subst k2. destruct (String.eqb k k1); [exact Ha|exact IH].
Qed.

Lemma dict_denotes_set (h : gmap addr Retriever.Doc) all alld k a d :
  dict_denotes h all alld -> h !! a = Some d ->
  dict_denotes h (refdict_set k a all) (Retriever.dict_set k d alld).
Proof.
  intros Hall Ha.
  induction Hall as [|[k1 a1] [k2 d1] all alld [Hk Ha1] Hrest IH]; simpl.
  - constructor; [split; [reflexivity|exact Ha]|constructor].
  - simpl in Hk, Ha1. subst k2. destruct (String.eqb k k1).
    + constructor; [split; [reflexivity|exact Ha]|exact Hrest].
    + constructor; [split; [reflexivity|exact Ha1]|exact IH].
Qed.

Lemma dict_denotes_insert (h : gmap addr Retriever.Doc) all alld c v :
  c ∉ map snd all -> dict_denotes h all alld ->
  dict_denotes (<[c := v]> h) all alld.
Proof.
  intros Hc Hall.
  induction Hall as [|[k1 a1] [k2 d1] all alld [Hk Ha1] _ IH];
    [constructor|].
  simpl in Hc. rewrite not_elem_of_cons in Hc. destruct Hc as [Hne Hc].
  constructor; [|apply IH; exact Hc]. split; [exact Hk|]. simpl in *.
  rewrite lookup_insert_ne by congruence. exact Ha1.
Qed.

(** An assignment to a key of the object that [all_matches] holds for
    a file name is an assignment of the changed dictionary to this
    name. *)
Lemma dict_denotes_upgrade (h : gmap addr Retriever.Doc) all alld k cur v :
  dict_denotes h all alld -> NoDup (map snd all) ->
  refdict_get k all = Some cur ->
  dict_denotes (<[cur := v]> h) all (Retriever.dict_set k v alld).
Proof.
  intros Hall.
  induction Hall as [|[k1 a1] [k2 d1] all alld [Hk Ha1] Hrest IH]; simpl;
    [discriminate|].
  simpl in Hk, Ha1. subst k2. rewrite NoDup_cons. intros [Ha1t Hnd].
  destruct (String.eqb k k1) eqn:Ek.
  - intros [= ->]. apply String.eqb_eq in Ek. subst k1.
    constructor; [split; [reflexivity|apply lookup_insert_eq]|].
    apply dict_denotes_insert; assumption.
  - intros Hget. constructor; [|apply IH; assumption].
    split; [reflexivity|]. simpl.
    rewrite lookup_insert_ne; [exact Ha1|].
    intros ->. apply Ha1t. eapply refdict_get_elem. exact Hget.
Qed.

Lemma dict_denotes_values (h : gmap addr Retriever.Doc) all alld :
  dict_denotes h all alld ->
  denotes h (map snd all) (Retriever.dict_values alld).
Proof.
  unfold Retriever.dict_values.
  induction 1 as [|[k1 a1] [k2 d1] all alld [Hk Ha1] _ IH]; simpl;
    constructor; assumption.
Qed.

(** *** Sorting references by the score of their objects *)

Lemma insert_desc_paired {A B} (R : A -> B -> Prop) x x' l l' :
  fst x = fst x' -> R (snd x) (snd x') -> paired R l l' ->
  paired R (Retriever.insert_desc x l) (Retriever.insert_desc x' l').
Proof.
  intros Hk Hx Hl.
  induction Hl as [|y y' l l' [Hky Hy] Hrest IH]; simpl.
  - constructor; [split; assumption|constructor].
  - rewrite <- Hk, <- Hky. destruct (Qltb (fst x) (fst y)).
    + constructor; [split; assumption|exact IH].
    + constructor; [split; assumption|].
      constructor; [split; assumption|exact Hrest].
Qed.

Lemma sort_desc_paired {A B} (R : A -> B -> Prop) l l' :
  paired R l l' ->
  paired R (Retriever.sort_desc l) (Retriever.sort_desc l').
Proof.
  induction 1 as [|x x' l l' [Hk Hx] _ IH]; simpl; [constructor|].
  apply insert_desc_paired; assumption.
Qed.

Lemma combine_paired {A B} (R : A -> B -> Prop) keys l l' :
  Forall2 R l l' -> paired R (combine keys l) (combine keys l').
Proof.
  intros Hl. revert keys.
  induction Hl as [|x x' l l' Hx _ IH]; intros [|k keys]; simpl;
    try constructor; [split; [reflexivity|exact Hx]|apply IH].
Qed.

Lemma paired_snd {A B} (R : A -> B -> Prop) l l' :
  paired R l l' -> Forall2 R (map snd l) (map snd l').
Proof.
  induction 1 as [|x x' l l' [Hk Hx] _ IH]; simpl; constructor; assumption.
Qed.

Lemma combine_map_keys {A} (f : A -> Q) (l : list A) :
  combine (map f l) l = map (fun x => (f x, x)) l.
Proof. induction l as [|x t IH]; simpl; [|rewrite IH]; reflexivity. Qed.

Lemma map_result_total {A B} (f : A -> B) (l : list A) :
  map_result (fun x => Ok (f x)) l = Ok (map f l).
Proof. induction l as [|x t IH]; simpl; [|rewrite IH]; reflexivity. Qed.

Section Refinement.

Variables Vectorizer DocVectors : Type.
Variable cosine_scores : Vectorizer -> DocVectors -> string -> result (list Q).
Variable argsort : list Q -> list nat.

Abbreviation state := (State Vectorizer DocVectors).
Abbreviation St := (Store.St Vectorizer DocVectors).
Abbreviation extends := (extends Vectorizer DocVectors).
Abbreviation fresh_for := (fresh_for Vectorizer DocVectors).
Abbreviation collected := (collected Vectorizer DocVectors).
Abbreviation simulates := (simulates Vectorizer DocVectors).
Abbreviation refers := (refers Vectorizer DocVectors).

Lemma extends_trans (st1 st2 st3 : state) :
  extends st1 st2 -> extends st2 st3 -> extends st1 st3.
Proof.
  intros [Hs1 Hh1] [Hs2 Hh2]. split; [congruence|].
  etransitivity; eassumption.
Qed.

Lemma extends_same (st : state) : extends st st.
Proof. split; reflexivity. Qed.

Lemma refers_extends (st st' : state) refs docs :
  extends st st' -> refers st refs docs -> refers st' refs docs.
Proof. intros [_ Hh]. apply denotes_weaken. exact Hh. Qed.

Lemma read_ok (st : state) a d :
  heap st !! a = Some d -> read Vectorizer DocVectors a st = (Ok d, st).
Proof. intros H. unfold read. rewrite H. reflexivity. Qed.

Lemma fresh_not_in (st : state) : heap st !! fresh (dom (heap st)) = None.
Proof. apply not_elem_of_dom, is_fresh. Qed.

(** The copy of a match, with its score and its kind: one new object. *)
Lemma marked_copy_run {B} (st : state) a d s k (f : addr -> St B) :
  heap st !! a = Some d ->
  bindS _ _ (dict_copy _ _ a) (fun c =>
  bindS _ _ (setitem_score _ _ c s) (fun _ =>
  bindS _ _ (setitem_match_type _ _ c k) (fun _ => f c))) st
  = f (fresh (dom (heap st)))
      (mkState (self st)
         (<[fresh (dom (heap st)) := Notions.mark k s d]> (heap st))).
Proof.
  intros Ha. unfold dict_copy, setitem_score, setitem_match_type, update.
  unfold bindS at 1. unfold bindS at 1. rewrite (read_ok st a d Ha).
  set (c := fresh (dom (heap st))).
  unfold bindS at 1. unfold bindS at 1. unfold read at 1. simpl.
  rewrite lookup_insert_eq.
  unfold bindS at 1. unfold bindS at 1. unfold read at 1. simpl.
  rewrite lookup_insert_eq. cbn [heap self].
  rewrite !insert_insert_eq. reflexivity.
Qed.

Lemma collected_nil (st : state) : collected st st [] [].
Proof.
  split; [apply extends_same|]. split; [constructor|].
  split; constructor.
Qed.

Lemma collected_cons (st st' : state) d k s cs ds :
  collected
    (mkState (self st)
       (<[fresh (dom (heap st)) := Notions.mark k s d]> (heap st))) st' cs ds ->
  collected st st' (fresh (dom (heap st)) :: cs) (Notions.mark k s d :: ds).
Proof.
  set (c := fresh (dom (heap st))).
  intros ([Hself Hheap] & Hden & Hnd & Hfr). simpl in Hself, Hheap.
  pose proof (fresh_not_in st) as Hc. fold c in Hc.
  assert (heap st ⊆ <[c := Notions.mark k s d]> (heap st)) as Hsub
    by (apply insert_subseteq; exact Hc).
  split; [|split; [|split]].
  - split; [exact Hself|]. etransitivity; eassumption.
  - constructor; [|exact Hden].
    eapply lookup_weaken; [|exact Hheap]. apply lookup_insert_eq.
  - constructor; [|exact Hnd]. intros Hin.
    rewrite Forall_forall in Hfr. specialize (Hfr c Hin).
    unfold StoreNotions.fresh_for in Hfr. simpl in Hfr.
    rewrite lookup_insert_eq in Hfr. discriminate.
  - constructor; [exact Hc|].
    eapply Forall_impl; [exact Hfr|]. intros x Hx.
    unfold StoreNotions.fresh_for in *. simpl in Hx.
    eapply lookup_weaken_None; eassumption.
Qed.

Lemma collected_extends (st st' : state) cs ds :
  collected st st' cs ds -> extends st st'.
Proof. intros [H _]. exact H. Qed.

Lemma extends_insert (st : state) c v :
  heap st !! c = None ->
  extends st (mkState (self st) (<[c := v]> (heap st))).
Proof. intros Hc. split; [reflexivity|]. apply insert_subseteq, Hc. Qed.

(** The loop over the documents collects the copies that
    [exact_matches] lists. *)
Lemma exact_loop_sim terms refs ds (st : state) :
  refers st refs ds ->
  exists cs st',
    exact_loop Vectorizer DocVectors terms refs st = (Ok cs, st')
    /\ collected st st' cs (omap (Retriever.exact_match terms) ds).
Proof.
  intros Hd. revert st Hd. revert ds.
  induction refs as [|a rest IH]; intros ds st Hd;
    inversion Hd as [|a' d rest' ds' Ha Hrest]; subst.
  - exists [], st. split; [reflexivity|]. apply collected_nil.
  - cbn [exact_loop]. unfold bindS at 1. rewrite (read_ok st a d Ha).
    cbn [omap list_omap]. unfold Retriever.exact_match at 1.
    destruct (fst (Retriever.scan_terms _ _ _)) eqn:Efound.
    + rewrite (marked_copy_run st a d _ _ _ Ha).
      set (st1 := mkState _ _).
      assert (extends st st1) as Hext
        by (apply extends_insert, fresh_not_in).
      destruct (IH ds' st1 (refers_extends _ _ _ _ Hext Hrest))
        as (cs & st' & Hrun & Hcol).
      unfold bindS at 1. rewrite Hrun. unfold ret.
      eexists. eexists. split; [reflexivity|].
      apply collected_cons. exact Hcol.
    + apply IH. exact Hrest.
Qed.

Lemma simulates_ret {A B} (R : state -> A -> B -> Prop) (st : state) a b :
  R st a b -> simulates R st (ret _ _ a) (Ok b).
Proof. intros H. split; [apply extends_same|exact H]. Qed.

Lemma simulates_raise {A B} (R : state -> A -> B -> Prop) (st : state) e e' :
  simulates R st (raise _ _ e) (Raise e').
Proof. split; [apply extends_same|exact I]. Qed.

Lemma simulates_bind {A B A' B'} (R : state -> A -> B -> Prop)
    (R' : state -> A' -> B' -> Prop) (st : state) m f r g :
  simulates R st m r ->
  (forall st1 a b, extends st st1 -> R st1 a b ->
     simulates R' st1 (f a) (g b)) ->
  simulates R' st (bindS _ _ m f) (bind r g).
Proof.
  unfold StoreNotions.simulates, bindS. intros Hm Hf.
  destruct (m st) as [[a|e] st1], r as [b|e']; simpl in *;
    destruct Hm as [Hext Hag]; try contradiction.
  - specialize (Hf st1 a b Hext Hag).
    destruct (f a st1) as [r2 st2]. destruct Hf as [Hext2 Hag2].
    split; [eapply extends_trans; eassumption|exact Hag2].
  - split; [exact Hext|exact I].
Qed.

Lemma simulates_try {A B} (R : state -> A -> B -> Prop) (st : state) m r a b :
  simulates R st m r -> (forall st1, extends st st1 -> R st1 a b) ->
  simulates R st (tryS _ _ m (fun _ => ret _ _ a))
    (try_except r (fun _ => Ok b)).
Proof.
  unfold StoreNotions.simulates, tryS. intros Hm Hab.
  destruct (m st) as [[x|e] st1], r as [y|e']; simpl in *;
    destruct Hm as [Hext Hag]; try contradiction; split; auto.
Qed.

Lemma simulates_weaken {A B} (R R' : state -> A -> B -> Prop) (st : state)
    m r :
  simulates R st m r -> (forall st1 a b, extends st st1 -> R st1 a b ->
                           R' st1 a b) ->
  simulates R' st m r.
Proof.
  unfold StoreNotions.simulates. intros Hm HR.
  destruct (m st) as [[x|e] st1], r as [y|e']; simpl in *;
    destruct Hm as [Hext Hag]; try contradiction; split; auto.
Qed.

(** The loop over the best indices collects the copies that
    [tfidf_loop] lists, or raises as it does. *)
Lemma tfidf_loop_sim refs ds sims idxs (st : state) :
  refers st refs ds ->
  simulates (fun st' cs tf => collected st st' cs tf) st
    (tfidf_loop Vectorizer DocVectors refs sims idxs)
    (Retriever.tfidf_loop ds sims idxs).
Proof.
  intros Hd. revert st Hd.
  induction idxs as [|i rest IH]; intros st Hd.
  - apply simulates_ret, collected_nil.
  - cbn [tfidf_loop Retriever.tfidf_loop].
    destruct (sims !! i) as [s|]; [|apply simulates_raise].
    destruct (Qltb 0.05 s); [|apply IH; exact Hd].
    pose proof (denotes_lookup _ _ _ i Hd) as Hi.
    destruct (refs !! i) as [a|], (ds !! i) as [d|]; try contradiction;
      [|apply simulates_raise].
    unfold StoreNotions.simulates.
    rewrite (marked_copy_run st a d _ _ _ Hi).
    set (st1 := mkState _ _).
    assert (extends st st1) as Hext by (apply extends_insert, fresh_not_in).
    pose proof (IH st1 (refers_extends _ _ _ _ Hext Hd)) as H1.
    unfold StoreNotions.simulates in H1. unfold bindS.
    destruct (tfidf_loop Vectorizer DocVectors refs sims rest st1)
      as [[cs|e] st'] eqn:Hrun;
      destruct (Retriever.tfidf_loop ds sims rest) as [tf|e'];
      simpl in H1 |- *; destruct H1 as [Hext1 Hag]; try contradiction;
      (split; [eapply extends_trans; eassumption|]); simpl; [|exact I].
    apply collected_cons. exact Hag.
Qed.

(** *** Reading through references *)

Lemma getitem_file_name_run (st : state) a d :
  heap st !! a = Some d ->
  getitem_file_name Vectorizer DocVectors a st
  = (Retriever.get_file_name d, st).
Proof.
  intros Ha. unfold getitem_file_name, bindS. rewrite (read_ok st a d Ha).
  reflexivity.
Qed.

Lemma getitem_score_run (st : state) a d :
  heap st !! a = Some d ->
  getitem_score Vectorizer DocVectors a st = (Retriever.get_score d, st).
Proof.
  intros Ha. unfold getitem_score, bindS. rewrite (read_ok st a d Ha).
  reflexivity.
Qed.

Lemma doc_id_run (st : state) a d :
  heap st !! a = Some d ->
  doc_id Vectorizer DocVectors a st = (Retriever.doc_id d, st).
Proof.
  intros Ha. unfold doc_id, bindS. rewrite (read_ok st a d Ha).
  reflexivity.
Qed.

Lemma mapS_sim {B} (f : addr -> St B) (g : Retriever.Doc -> result B)
    (st : state) refs ds :
  refers st refs ds ->
  (forall a d, heap st !! a = Some d -> f a st = (g d, st)) ->
  mapS Vectorizer DocVectors f refs st = (map_result g ds, st).
Proof.
  intros Hd Hf.
  induction Hd as [|a d refs ds Ha _ IH]; [reflexivity|].
  cbn [mapS map_result]. unfold bindS at 1. rewrite (Hf a d Ha).
  destruct (g d) as [y|e]; [|reflexivity].
  unfold bindS. rewrite IH.
  destruct (map_result g ds) as [ys|e]; reflexivity.
Qed.

(** Two assignments to keys of the object [cur]. *)
Lemma upgrade_run {B} (st : state) cur curd s k (f : St B) :
  heap st !! cur = Some curd ->
  bindS _ _ (setitem_score _ _ cur s) (fun _ =>
  bindS _ _ (setitem_match_type _ _ cur k) (fun _ => f)) st
  = f (mkState (self st) (<[cur := Notions.mark k s curd]> (heap st))).
Proof.
  intros Ha. unfold setitem_score, setitem_match_type, update.
  unfold bindS at 1. unfold bindS at 1. rewrite (read_ok st cur curd Ha).
  unfold bindS at 1. unfold bindS at 1. unfold read at 1. simpl.
  rewrite lookup_insert_eq. cbn [heap self].
  rewrite insert_insert_eq. reflexivity.
Qed.

(** *** The two loops that fill [all_matches] *)

Lemma add_exact_sim (st : state) ms ds all alld :
  refers st ms ds -> dict_denotes (heap st) all alld ->
  NoDup (map snd all ++ ms) ->
  exists r,
    add_exact Vectorizer DocVectors ms all st = (r, st)
    /\ agree (fun all' alld' =>
                dict_denotes (heap st) all' alld'
                /\ NoDup (map snd all')
                /\ forall a, a ∈ map snd all' -> a ∈ map snd all ++ ms)
         r (Retriever.add_exact ds alld).
Proof.
  intros Hd. revert all alld.
  induction Hd as [|a d ms ds Ha Hrest IH]; intros all alld Hall Hnd.
  - exists (Ok all). split; [reflexivity|]. simpl.
    rewrite app_nil_r in Hnd. rewrite app_nil_r. auto.
  - cbn [add_exact Retriever.add_exact]. unfold bindS.
    rewrite (getitem_file_name_run st a d Ha).
    destruct (Retriever.get_file_name d) as [fn|e]; simpl.
    + destruct (IH (refdict_set fn a all) (Retriever.dict_set fn d alld))
        as (r & Hrun & Hag).
      * apply dict_denotes_set; assumption.
      * apply refdict_set_step. exact Hnd.
      * exists r. split; [exact Hrun|].
        destruct r as [all'|e], (Retriever.add_exact ds _) as [alld'|e'];
          simpl in *; try contradiction; [|exact I].
        destruct Hag as (H1 & H2 & H3). split; [exact H1|].
        split; [exact H2|]. intros x Hx. specialize (H3 x Hx).
        rewrite elem_of_app in H3. rewrite elem_of_app, elem_of_cons.
        destruct H3 as [H3|H3]; [|auto].
        apply refdict_set_elem in H3. tauto.
    + exists (Raise e). split; [reflexivity|exact I].
Qed.

Lemma add_tfidf_sim ms : forall ds all alld (st : state),
  refers st ms ds -> dict_denotes (heap st) all alld ->
  NoDup (map snd all ++ ms) ->
  match add_tfidf Vectorizer DocVectors ms all st with
  | (r, st') =>
      self st' = self st
      /\ (forall a, a ∉ map snd all ++ ms -> heap st' !! a = heap st !! a)
      /\ agree (fun all' alld' => dict_denotes (heap st') all' alld') r
           (Retriever.add_tfidf ds alld)
  end.
Proof.
  induction ms as [|a rest IH]; intros ds all alld st Hd Hall Hnd;
    inversion Hd as [|a' d rest' ds' Ha Hrest]; subst.
  - simpl. auto.
  - cbn [add_tfidf Retriever.add_tfidf]. unfold bindS at 1.
    rewrite (getitem_file_name_run st a d Ha).
    destruct (Retriever.get_file_name d) as [fn|e]; simpl; [|auto].
    assert (NoDup (map snd all ++ rest)) as Hnd'.
    { revert Hnd. rewrite !NoDup_app, NoDup_cons.
      intros (H1 & H2 & _ & H3). split; [exact H1|]. split; [|exact H3].
      intros x Hx Hin. apply (H2 x Hx). apply list_elem_of_further, Hin. }
    assert (forall x, x ∉ map snd all ++ a :: rest ->
                      x ∉ map snd all ++ rest) as Hout.
    { intros x Hx Hin. apply Hx. rewrite elem_of_app in Hin.
      rewrite elem_of_app, elem_of_cons. tauto. }
    pose proof (dict_denotes_get _ _ _ fn Hall) as Hg.
    destruct (refdict_get fn all) as [cur|] eqn:Eg,
             (Retriever.dict_get fn alld) as [curd|]; try contradiction.
    + unfold bindS at 1. rewrite (getitem_score_run st cur curd Hg).
      destruct (Retriever.get_score curd) as [sc|e]; simpl; [|auto].
      unfold bindS at 1. rewrite (getitem_score_run st a d Ha).
      destruct (Retriever.get_score d) as [sd|e]; simpl; [|auto].
      destruct (Qltb sc sd).
      * rewrite (upgrade_run st cur curd _ _ _ Hg).
        set (st1 := mkState _ _).
        pose proof (refdict_get_elem _ _ _ Eg) as Hcur.
        assert (NoDup (map snd all)) as Hnda
          by (apply NoDup_app in Hnd; tauto).
        assert (cur ∉ rest) as Hcr.
        { intros Hin. apply NoDup_app in Hnd.
          destruct Hnd as (_ & H2 & _). apply (H2 cur Hcur).
          apply list_elem_of_further, Hin. }
        specialize (IH ds' all
                      (Retriever.dict_set fn
                         (Notions.mark Retriever.hybrid (max sc sd) curd) alld)
                      st1).
        destruct (add_tfidf Vectorizer DocVectors rest all st1) as [r st'].
        destruct IH as (Hs & Hf & Hag).
        -- apply denotes_insert; assumption.
        -- apply dict_denotes_upgrade; assumption.
        -- exact Hnd'.
        -- split; [exact Hs|]. split; [|exact Hag].
           intros x Hx. rewrite (Hf x (Hout x Hx)). simpl.
           apply lookup_insert_ne. intros <-. apply Hx.
           rewrite elem_of_app. auto.
      * specialize (IH ds' all alld st Hrest Hall Hnd').
        destruct (add_tfidf Vectorizer DocVectors rest all st) as [r st'].
        destruct IH as (Hs & Hf & Hag).
        split; [exact Hs|]. split; [|exact Hag]. intros x Hx. auto.
    + specialize (IH ds' (refdict_set fn a all)
                    (Retriever.dict_set fn d alld) st Hrest
                    (dict_denotes_set _ _ _ fn a d Hall Ha)
                    (refdict_set_step fn a all rest Hnd)).
      destruct (add_tfidf Vectorizer DocVectors rest _ st) as [r st'].
      destruct IH as (Hs & Hf & Hag).
      split; [exact Hs|]. split; [|exact Hag].
      intros x Hx. apply Hf. intros Hin. apply Hx.
      rewrite elem_of_app in Hin. rewrite elem_of_app, elem_of_cons.
      destruct Hin as [Hin|Hin]; [|auto].
      apply refdict_set_elem in Hin. tauto.
Qed.

(** *** Sorting and removing duplicates *)

Lemma sort_by_score_sim (st : state) refs ds :
  refers st refs ds ->
  exists r,
    sort_by_score Vectorizer DocVectors refs st = (r, st)
    /\ agree (refers st) r (Retriever.sort_by_score ds).
Proof.
  intros Hd. unfold sort_by_score, Retriever.sort_by_score, bindS.
  rewrite (mapS_sim _ Retriever.get_score st refs ds Hd
             (getitem_score_run st)).
  destruct (map_result Retriever.get_score ds) as [keys|e]; simpl.
  - eexists. split; [reflexivity|]. simpl.
    apply paired_snd, sort_desc_paired, combine_paired. exact Hd.
  - eexists. split; [reflexivity|]. exact I.
Qed.

Lemma sort_by_score_default_sim (st : state) refs ds :
  refers st refs ds ->
  exists rs,
    sort_by_score_default Vectorizer DocVectors refs st = (Ok rs, st)
    /\ refers st rs (Retriever.sort_by_score_default ds).
Proof.
  intros Hd. unfold sort_by_score_default, Retriever.sort_by_score_default.
  unfold bindS at 1.
  rewrite (mapS_sim _
             (fun d => Ok (default 0%Q (Retriever.similarity_score d)))
             st refs ds Hd).
  - rewrite map_result_total. eexists. split; [reflexivity|].
    rewrite <- combine_map_keys.
    apply paired_snd, sort_desc_paired, combine_paired. exact Hd.
  - intros a d Ha. unfold bindS. rewrite (read_ok st a d Ha). reflexivity.
Qed.

Lemma unique_from_sim (st : state) seen refs ds :
  refers st refs ds ->
  exists r,
    unique_from Vectorizer DocVectors seen refs st = (r, st)
    /\ agree (refers st) r (Retriever.unique_from seen ds).
Proof.
  intros Hd. revert seen.
  induction Hd as [|a d refs ds Ha Hrest IH]; intros seen.
  - exists (Ok []). split; [reflexivity|]. constructor.
  - cbn [unique_from Retriever.unique_from]. unfold bindS at 1.
    rewrite (doc_id_run st a d Ha).
    destruct (Retriever.doc_id d) as [i|e]; simpl;
      [|eexists; split; [reflexivity|exact I]].
    destruct (existsb (Retriever.id_eqb i) seen); [apply IH|].
    destruct (IH (i :: seen)) as (r & Hrun & Hag).
    unfold bindS. rewrite Hrun.
    destruct r as [u|e], (Retriever.unique_from (i :: seen) ds) as [u'|e'];
      simpl in *; try contradiction;
      (eexists; split; [reflexivity|]); simpl; [|exact I].
    constructor; assumption.
Qed.

(** *** One search round *)

Lemma bindS_ok {A B} (m : St A) (f : A -> St B) (st : state) a st1 :
  m st = (Ok a, st1) -> bindS _ _ m f st = f a st1.
Proof. intros H. unfold bindS. rewrite H. reflexivity. Qed.

Lemma bindS_raise {A B} (m : St A) (f : A -> St B) (st : state) e st1 :
  m st = (Raise e, st1) -> bindS _ _ m f st = (Raise e, st1).
Proof. intros H. unfold bindS. rewrite H. reflexivity. Qed.

Lemma self_view_inv (st : state) selfv :
  self_view Vectorizer DocVectors st = Some selfv ->
  refers st (documents (self st)) (Retriever.documents selfv)
  /\ Retriever.vectorizer selfv = vectorizer (self st)
  /\ Retriever.doc_vectors selfv = doc_vectors (self st).
Proof.
  unfold self_view.
  destruct (view (heap st) (documents (self st))) as [docs|] eqn:E;
    [|discriminate].
  intros [= <-]. simpl. split; [apply denotes_view; exact E|auto].
Qed.

Lemma self_view_extends (st st' : state) selfv :
  extends st st' ->
  self_view Vectorizer DocVectors st = Some selfv ->
  self_view Vectorizer DocVectors st' = Some selfv.
Proof.
  intros [Hs Hh]. unfold self_view. rewrite Hs.
  destruct (view (heap st) (documents (self st))) as [docs|] eqn:E;
    [|discriminate].
  apply denotes_view in E.
  apply (denotes_weaken _ _ _ _ Hh), denotes_view in E. rewrite E. auto.
Qed.

Lemma similarities_run (st : state) selfv query :
  self_view Vectorizer DocVectors st = Some selfv ->
  similarities Vectorizer DocVectors cosine_scores query st
  = (Retriever.similarities Vectorizer DocVectors cosine_scores selfv query,
     st).
Proof.
  intros Hv. destruct (self_view_inv _ _ Hv) as (_ & Hvec & Hdv).
  unfold similarities, Retriever.similarities, bindS, get_self.
  rewrite Hdv, Hvec. destruct (doc_vectors (self st)); reflexivity.
Qed.

(** References made by two loops, one after the other, are distinct. *)
Lemma collected_apart (st st1 st2 : state) cs ds cs' ds' :
  collected st st1 cs ds -> collected st1 st2 cs' ds' ->
  NoDup (cs ++ cs').
Proof.
  intros (_ & Hden & Hnd & _) (_ & _ & Hnd' & Hfr').
  apply NoDup_app. split; [exact Hnd|]. split; [|exact Hnd'].
  intros x Hx Hx'. rewrite Forall_forall in Hfr'. specialize (Hfr' x Hx').
  unfold StoreNotions.fresh_for in Hfr'.
  unfold denotes in Hden. apply list_elem_of_lookup_1 in Hx.
  destruct Hx as [i Hi].
  destruct (Forall2_lookup_l _ _ _ _ _ Hden Hi) as (d & _ & Hd).
  congruence.
Qed.

Lemma collected_fresh (st st1 st2 : state) cs ds :
  extends st st1 -> collected st1 st2 cs ds -> Forall (fresh_for st) cs.
Proof.
  intros [_ Hh] (_ & _ & _ & Hfr).
  eapply Forall_impl; [exact Hfr|]. intros x Hx.
  unfold StoreNotions.fresh_for in *.
  eapply lookup_weaken_None; eassumption.
Qed.

Lemma search_body_sim (st : state) selfv query top_k :
  self_view Vectorizer DocVectors st = Some selfv ->
  simulates refers st
    (search_body Vectorizer DocVectors cosine_scores argsort query top_k)
    (Retriever.search_body Vectorizer DocVectors cosine_scores argsort selfv
       query top_k).
Proof.
  intros Hv. destruct (self_view_inv _ _ Hv) as (Hdocs & _ & _).
  unfold StoreNotions.simulates, search_body.
  rewrite (bindS_ok (get_self _ _) _ st (self st) st eq_refl).
  destruct (exact_loop_sim (Retriever.search_terms query) _ _ st Hdocs)
    as (cs_e & st1 & Hrun1 & Hcol1).
  rewrite (bindS_ok _ _ _ _ _ Hrun1).
  pose proof Hcol1 as (Hext1 & Hden_e & Hnd_e & Hfr_e).
  unfold Retriever.search_body, Retriever.relevant_docs.
  pose proof (similarities_run st1 selfv query
                (self_view_extends _ _ _ Hext1 Hv)) as Hsim.
  destruct (Retriever.similarities _ _ cosine_scores selfv query)
    as [sims|e].
  2: { rewrite (bindS_raise _ _ _ _ _ Hsim). split; [exact Hext1|exact I]. }
  rewrite (bindS_ok _ _ _ _ _ Hsim). cbn [bind]. cbv zeta.
  unfold Retriever.tfidf_matches, Retriever.top_indices.
  rewrite <- (Forall2_length _ _ _ Hdocs).
  set (idxs := slice_to _ _).
  pose proof (tfidf_loop_sim (documents (self st)) (Retriever.documents selfv)
                sims idxs st1 (refers_extends _ _ _ _ Hext1 Hdocs)) as Htf.
  unfold StoreNotions.simulates in Htf.
  destruct (tfidf_loop Vectorizer DocVectors (documents (self st)) sims idxs
              st1) as [[cs_t|e] st2] eqn:Hrun2;
    destruct (Retriever.tfidf_loop (Retriever.documents selfv) sims idxs)
      as [tf|e']; simpl in Htf; destruct Htf as [Hext2 Hcol2];
    try contradiction.
  2: { rewrite (bindS_raise _ _ _ _ _ Hrun2).
       split; [eapply extends_trans; eassumption|exact I]. }
  rewrite (bindS_ok _ _ _ _ _ Hrun2). cbn [bind].
  pose proof Hcol2 as (_ & Hden_t & Hnd_t & Hfr_t).
  pose proof (collected_apart _ _ _ _ _ _ _ Hcol1 Hcol2) as Hapart.
  assert (dict_denotes (heap st2) [] []) as Hden0 by constructor.
  destruct (add_exact_sim st2 cs_e
              (Retriever.exact_matches query (Retriever.documents selfv))
              [] [] (refers_extends _ _ _ _ Hext2 Hden_e) Hden0 Hnd_e)
    as (r3 & Hrun3 & Hag3).
  destruct r3 as [all1|e],
    (Retriever.add_exact
       (Retriever.exact_matches query (Retriever.documents selfv)) [])
    as [alld1|e']; simpl in Hag3; try contradiction.
  2: { rewrite (bindS_raise _ _ _ _ _ Hrun3).
       split; [eapply extends_trans; eassumption|exact I]. }
  rewrite (bindS_ok _ _ _ _ _ Hrun3). cbn [bind].
  destruct Hag3 as (Hden1 & Hnd1 & Hin1).
  assert (NoDup (map snd all1 ++ cs_t)) as Hnd14.
  { apply NoDup_app in Hapart. destruct Hapart as (_ & Hdis & _).
    apply NoDup_app. split; [exact Hnd1|]. split; [|exact Hnd_t].
    intros x Hx. apply Hdis. specialize (Hin1 x Hx). exact Hin1. }
  pose proof (add_tfidf_sim cs_t tf all1 alld1 st2 Hden_t Hden1 Hnd14) as H4.
  destruct (add_tfidf Vectorizer DocVectors cs_t all1 st2) as [r4 st3]
    eqn:Hrun4.
  destruct H4 as (Hs4 & Hf4 & Hag4).
  assert (extends st st3) as Hext3.
  { destruct (extends_trans _ _ _ Hext1 Hext2) as [Hs2 Hh2].
    split; [congruence|]. apply map_subseteq_spec. intros x d Hx.
    rewrite Hf4; [eapply lookup_weaken; eassumption|].
    intros Hin. apply elem_of_app in Hin.
    pose proof (collected_fresh _ _ _ _ _ Hext1 Hcol2) as Hfr_t0.
    rewrite Forall_forall in Hfr_e, Hfr_t0.
    unfold StoreNotions.fresh_for in *.
    destruct Hin as [Hin|Hin].
    - specialize (Hfr_e x (Hin1 x Hin)). congruence.
    - specialize (Hfr_t0 x Hin). congruence. }
  destruct r4 as [all|e], (Retriever.add_tfidf tf alld1) as [alld|e'];
    simpl in Hag4; try contradiction.
  2: { rewrite (bindS_raise _ _ _ _ _ Hrun4). split; [exact Hext3|exact I]. }
  rewrite (bindS_ok _ _ _ _ _ Hrun4). cbn [bind].
  destruct (sort_by_score_sim st3 (map snd all) (Retriever.dict_values alld)
              (dict_denotes_values _ _ _ Hag4)) as (r5 & Hrun5 & Hag5).
  destruct r5 as [rs|e],
    (Retriever.sort_by_score (Retriever.dict_values alld)) as [rd|e'];
    simpl in Hag5; try contradiction.
  2: { rewrite (bindS_raise _ _ _ _ _ Hrun5). split; [exact Hext3|exact I]. }
  rewrite (bindS_ok _ _ _ _ _ Hrun5). cbn [bind]. unfold ret.
  split; [exact Hext3|]. simpl. apply denotes_slice. exact Hag5.
Qed.

Lemma search_sim (st : state) selfv query top_k :
  self_view Vectorizer DocVectors st = Some selfv ->
  simulates refers st
    (_search_with_query Vectorizer DocVectors cosine_scores argsort query
       top_k)
    (Retriever._search_with_query Vectorizer DocVectors cosine_scores argsort
       selfv query top_k).
Proof.
  intros Hv. unfold _search_with_query, Retriever._search_with_query.
  apply simulates_try; [apply search_body_sim; exact Hv|].
  intros st1 _. constructor.
Qed.

(** *** The strategies of [retrieve_relevant_chunks] *)

Lemma search_words_sim selfv top_k words :
  forall (st : state) acc accd,
    self_view Vectorizer DocVectors st = Some selfv ->
    refers st acc accd ->
    simulates refers st
      (search_words Vectorizer DocVectors cosine_scores argsort top_k words
         acc)
      (Retriever.search_words Vectorizer DocVectors cosine_scores argsort
         selfv top_k words accd).
Proof.
  induction words as [|w rest IH]; intros st acc accd Hv Hacc.
  - apply simulates_ret. exact Hacc.
  - cbn [search_words Retriever.search_words].
    destruct (4 <? len w)%nat; [|apply IH; assumption].
    eapply simulates_bind; [apply search_sim; exact Hv|].
    intros st1 a b Hext Hab. cbv beta.
    pose proof (denotes_app _ _ _ _ _
                  (refers_extends _ _ _ _ Hext Hacc) Hab) as Happ.
    rewrite (denotes_is_empty _ _ _ Hab).
    destruct (Retriever.is_empty b).
    + apply IH; [|exact Happ]. eapply self_view_extends; eassumption.
    + apply simulates_ret. exact Happ.
Qed.

Lemma simulates_of_run {A B} (R : state -> A -> B -> Prop) (st : state)
    (m : St A) r r' :
  m st = (r, st) -> agree (R st) r r' -> simulates R st m r'.
Proof.
  intros Hrun Hag. unfold StoreNotions.simulates. rewrite Hrun.
  split; [apply extends_same|exact Hag].
Qed.

Lemma retrieve_body_sim (st : state) selfv query top_k :
  self_view Vectorizer DocVectors st = Some selfv ->
  simulates refers st
    (retrieve_body Vectorizer DocVectors cosine_scores argsort query top_k)
    (Retriever.retrieve_body Vectorizer DocVectors cosine_scores argsort
       selfv query top_k).
Proof.
  intros Hv. unfold retrieve_body, Retriever.retrieve_body.
  eapply simulates_bind; [apply search_sim; exact Hv|].
  intros st1 results1 results1d Hext1 H1. cbv beta.
  pose proof (self_view_extends _ _ _ Hext1 Hv) as Hv1.
  eapply simulates_bind.
  { rewrite (denotes_is_empty _ _ _ H1).
    destruct (Retriever.is_empty results1d);
      [|apply simulates_ret; exact H1].
    cbv zeta. destruct (_ && _); [|apply simulates_ret; exact H1].
    eapply simulates_bind; [apply search_sim; exact Hv1|].
    intros st2 results2 results2d Hext2 H2. cbv beta.
    apply simulates_ret. apply denotes_app; [|exact H2].
    eapply refers_extends; eassumption. }
  intros st2 all_results all_resultsd Hext2 H2. cbv beta.
  pose proof (self_view_extends _ _ _ Hext2 Hv1) as Hv2.
  eapply simulates_bind.
  { rewrite (denotes_is_empty _ _ _ H2).
    destruct (Retriever.is_empty all_resultsd);
      [|apply simulates_ret; exact H2].
    apply search_words_sim; assumption. }
  intros st3 found foundd Hext3 H3. cbv beta.
  eapply simulates_bind.
  { destruct (unique_from_sim st3 [] found foundd H3) as (r & Hrun & Hag).
    eapply simulates_of_run; eassumption. }
  intros st4 unique uniqued Hext4 H4. cbv beta.
  destruct (sort_by_score_default_sim st4 unique uniqued H4)
    as (rs & Hrun & Hrs).
  unfold StoreNotions.simulates. rewrite (bindS_ok _ _ _ _ _ Hrun).
  split; [apply extends_same|]. simpl. apply denotes_slice. exact Hrs.
Qed.

(** On a store in which the references of [self.documents] are to
    documents, [retrieve_relevant_chunks] over the store returns
    references to the very dictionaries that the method over values
    returns, in the same order, and it raises no more than it does. *)
Theorem store_simulates (st : state) selfv query top_k :
  self_view Vectorizer DocVectors st = Some selfv ->
  simulates refers st
    (retrieve_relevant_chunks Vectorizer DocVectors cosine_scores argsort
       query top_k)
    (Retriever.retrieve_relevant_chunks Vectorizer DocVectors cosine_scores
       argsort selfv query top_k).
Proof.
  intros Hv. destruct (self_view_inv _ _ Hv) as (Hdocs & _ & Hdv).
  unfold retrieve_relevant_chunks, Retriever.retrieve_relevant_chunks.
  unfold StoreNotions.simulates.
  rewrite (bindS_ok (get_self _ _) _ st (self st) st eq_refl).
  fold (simulates refers st).
  rewrite Hdv. destruct (doc_vectors (self st));
    [|apply simulates_ret; constructor].
  rewrite (denotes_is_empty _ _ _ Hdocs).
  destruct (Retriever.is_empty (Retriever.documents selfv));
    [apply simulates_ret; constructor|].
  apply simulates_try; [apply retrieve_body_sim; exact Hv|].
  intros st1 _. constructor.
Qed.

(** X21. Sharing plays no part in the results: with the dictionaries
    as objects of a store, where [dict(doc)] makes a new object and
    [all_matches[file_name]['similarity_score'] = ...] writes to the
    object that the dictionary of matches and the list of results
    share, [retrieve_relevant_chunks] returns references to exactly the
    dictionaries that it returns when every assignment makes a changed
    copy; the references of [self.documents] are to objects of the
    store. *)
Corollary store_refines (st : state) selfv query top_k :
  self_view Vectorizer DocVectors st = Some selfv ->
  exists refs st' docs,
    retrieve_relevant_chunks Vectorizer DocVectors cosine_scores argsort
      query top_k st = (Ok refs, st')
    /\ Retriever.retrieve_relevant_chunks Vectorizer DocVectors cosine_scores
         argsort selfv query top_k = Ok docs
    /\ view (heap st') refs = Some docs
    /\ self_view Vectorizer DocVectors st' = Some selfv.
Proof.
  intros Hv. pose proof (store_simulates st selfv query top_k Hv) as H.
  unfold StoreNotions.simulates in H.
  assert (exists docs,
            Retriever.retrieve_relevant_chunks Vectorizer DocVectors
              cosine_scores argsort selfv query top_k = Ok docs)
    as [docs Hdocs].
  { unfold Retriever.retrieve_relevant_chunks.
    destruct (Retriever.doc_vectors selfv); [|eauto].
    destruct (Retriever.is_empty _); [eauto|].
    destruct (Retriever.retrieve_body _ _ _ _ _ _ _); simpl; eauto. }
  rewrite Hdocs in H.
  destruct (retrieve_relevant_chunks Vectorizer DocVectors cosine_scores
              argsort query top_k st) as [[refs|e] st'];
    destruct H as [Hext Hag]; simpl in Hag; [|contradiction].
  exists refs, st', docs. split; [reflexivity|]. split; [exact Hdocs|].
  split; [apply denotes_view; exact Hag|].
  eapply self_view_extends; eassumption.
Qed.

End Refinement.

Lemma store_refines_witness :
  exists refs st' docs,
    retrieve_relevant_chunks unit (list Q) Samples.table_scores
      Retriever.stable_argsort "beta" 2 Samples.sample_state = (Ok refs, st')
    /\ Retriever.retrieve_relevant_chunks unit (list Q) Samples.table_scores
         Retriever.stable_argsort
         (Retriever.mkRetriever
            [Samples.doc "a.txt" "alpha beta";
             Samples.doc "b.txt" "beta gamma"]
            true "cache" tt (Some [0.3; 0.9]%Q)) "beta" 2 = Ok docs
    /\ view (heap st') refs = Some docs.
Proof.
  destruct (store_refines unit (list Q) Samples.table_scores
              Retriever.stable_argsort Samples.sample_state
              (Retriever.mkRetriever
                 [Samples.doc "a.txt" "alpha beta";
                  Samples.doc "b.txt" "beta gamma"]
                 true "cache" tt (Some [0.3; 0.9]%Q)) "beta" 2)
    as (refs & st' & docs & H1 & H2 & H3 & _).
  - vm_compute. reflexivity.
  - exists refs, st', docs. split; [exact H1|]. split; [exact H2|exact H3].
Defined.

End Refinement.

(** * More properties of the retriever *)

(** ** The pickle files of the index *)

Module PickleFiles.
Import Py.
Import Retriever.
Import Files.
Import MoreNotions.
Local Open Scope list_scope.

(** *** The names of the files *)

Lemma len_app (a b : string) : len (a ++ b)%string = (len a + len b)%nat.
Proof.
  unfold len. induction a as [|x a IH]; [reflexivity|].
  change (S (String.length (a ++ b)%string)
          = S (String.length a + String.length b)).
  f_equal. exact IH.
Qed.

Lemma app_cancel_r (a b c : string) :
  (a ++ c)%string = (b ++ c)%string -> a = b.
Proof.
  revert b. induction a as [|x a IH]; intros [|y b] H.
  - reflexivity.
  - apply (f_equal len) in H. rewrite !len_app in H. simpl in H. lia.
  - apply (f_equal len) in H. rewrite !len_app in H. simpl in H. lia.
  - change (String x (a ++ c)%string = String y (b ++ c)%string) in H.
    injection H as -> H. f_equal. apply IH, H.
Qed.

Lemma path_join_prefix (a : string) :
  exists pre, forall b,
    startswith "/" b = false -> path_join a b = (pre ++ b)%string.
Proof.
  unfold path_join.
  destruct (String.eqb a "" || ends_with_slash a).
  - exists a. intros b ->. reflexivity.
  - exists (a ++ "/")%string. intros b ->.
    induction a as [|x a IH]; [reflexivity|].
    change (String x (a ++ "/" ++ b)%string
            = String x ((a ++ "/") ++ b)%string).
    f_equal. exact IH.
Qed.

Section Names.

Variable cache_dir : string.

Abbreviation vectorizer_path := (RetrieverCache.vectorizer_path cache_dir).
Abbreviation vectors_path := (RetrieverCache.vectors_path cache_dir).
Abbreviation documents_path := (RetrieverCache.documents_path cache_dir).

Local Ltac same_kind :=
  let pre := fresh "pre" in
  let Hpre := fresh "Hpre" in
  let H := fresh "H" in
  intros H;
  unfold RetrieverCache.vectorizer_path, RetrieverCache.vectors_path,
    RetrieverCache.documents_path in H;
  destruct (path_join_prefix cache_dir) as [pre Hpre];
  rewrite !Hpre in H by reflexivity;
  apply String.app_inj in H; apply String.app_inj in H;
  apply app_cancel_r in H; exact H.

Local Ltac other_kind n :=
  let pre := fresh "pre" in
  let Hpre := fresh "Hpre" in
  let H := fresh "H" in
  intros H;
  unfold RetrieverCache.vectorizer_path, RetrieverCache.vectors_path,
    RetrieverCache.documents_path in H;
  destruct (path_join_prefix cache_dir) as [pre Hpre];
  rewrite !Hpre in H by reflexivity;
  apply String.app_inj in H;
  apply (f_equal (String.get n)) in H; cbv in H; discriminate H.

Lemma vectorizer_path_inj k k' :
  vectorizer_path k = vectorizer_path k' -> k = k'.
Proof. same_kind. Qed.

Lemma vectors_path_inj k k' : vectors_path k = vectors_path k' -> k = k'.
Proof. same_kind. Qed.

Lemma documents_path_inj k k' :
  documents_path k = documents_path k' -> k = k'.
Proof. same_kind. Qed.

Lemma vectorizer_not_vectors k k' : vectorizer_path k <> vectors_path k'.
Proof. other_kind 6%nat. Qed.

Lemma vectorizer_not_documents k k' : vectorizer_path k <> documents_path k'.
Proof. other_kind 0%nat. Qed.

Lemma vectors_not_documents k k' : vectors_path k <> documents_path k'.
Proof. other_kind 0%nat. Qed.

End Names.

(** *** Reading and writing *)

Section Pickle.

Variables Vectorizer DocVectors : Type.
Variable dumps_vectorizer : Vectorizer -> string.
Variable loads_vectorizer : string -> result Vectorizer.
Variable dumps_vectors : DocVectors -> string.
Variable loads_vectors : string -> result DocVectors.
Variable dumps_documents : list Doc -> string.
Variable loads_documents : string -> result (list Doc).

Abbreviation load :=
  (RetrieverCache.load_from_cache Vectorizer DocVectors loads_vectorizer
     loads_vectors loads_documents).
Abbreviation save :=
  (RetrieverCache.save_to_cache Vectorizer DocVectors dumps_vectorizer
     dumps_vectors dumps_documents).

(** What [load_from_cache] returns, by what the three files hold. *)
Lemma load_run (self : SimpleRetriever Vectorizer DocVectors) key fs :
  load self key fs
  = (Ok match pickled loads_vectorizer fs
                (RetrieverCache.vectorizer_path (cache_dir self) key),
              pickled loads_vectors fs
                (RetrieverCache.vectors_path (cache_dir self) key),
              pickled loads_documents fs
                (RetrieverCache.documents_path (cache_dir self) key) with
        | Some v, Some dv, Some ds =>
            match v, dv, ds with
            | Ok v', Ok dv', Ok _ => Some (v', dv')
            | _, _, _ => None
            end
        | _, _, _ => None
        end, fs).
Proof.
  unfold RetrieverCache.load_from_cache, RetrieverCache.load_pickle, pickled,
    tryM, bindM, lift, ret, bind, path_exists, read_file.
  cbv zeta. cbn [forallb].
  destruct (nodes fs !! RetrieverCache.vectorizer_path (cache_dir self) key)
    as [[|b1|]|];
    destruct (nodes fs !! RetrieverCache.vectors_path (cache_dir self) key)
      as [[|b2|]|];
    destruct (nodes fs !! RetrieverCache.documents_path (cache_dir self) key)
      as [[|b3|]|];
    cbn [andb]; try reflexivity;
    try (destruct (loads_vectorizer b1); try reflexivity);
    try (destruct (loads_vectors b2); try reflexivity);
    try (destruct (loads_documents b3); reflexivity).
Qed.

Lemma save_run (self : SimpleRetriever Vectorizer DocVectors) key v dv fs :
  save self key v dv fs
  = (Ok tt,
     if can_write fs
     then mkFS
            (<[RetrieverCache.documents_path (cache_dir self) key
               := File (dumps_documents (documents self))]>
               (<[RetrieverCache.vectors_path (cache_dir self) key
                  := File (dumps_vectors dv)]>
                  (<[RetrieverCache.vectorizer_path (cache_dir self) key
                     := File (dumps_vectorizer v)]> (nodes fs))))
            (can_write fs)
     else fs).
Proof.
  unfold RetrieverCache.save_to_cache, tryM, bindM, write_file, ret.
  cbv zeta. destruct (can_write fs) eqn:Hw; [|reflexivity].
  cbn [can_write nodes]. reflexivity.
Qed.

(** The files of another key are not touched. *)
Lemma pickled_other {A} (loads : string -> result A) fs fs' p :
  nodes fs' !! p = nodes fs !! p -> pickled loads fs' p = pickled loads fs p.
Proof. unfold pickled. intros ->. reflexivity. Qed.

Lemma lookup_saved (self : SimpleRetriever Vectorizer DocVectors) key v dv fs
    p :
  can_write fs = true ->
  nodes (snd (save self key v dv fs)) !! p
  = if String.eqb p (RetrieverCache.documents_path (cache_dir self) key)
    then Some (File (dumps_documents (documents self)))
    else if String.eqb p (RetrieverCache.vectors_path (cache_dir self) key)
    then Some (File (dumps_vectors dv))
    else if String.eqb p
              (RetrieverCache.vectorizer_path (cache_dir self) key)
    then Some (File (dumps_vectorizer v))
    else nodes fs !! p.
Proof.
  intros Hw. rewrite save_run, Hw. cbn [snd nodes].
  destruct (String.eqb_spec p
              (RetrieverCache.documents_path (cache_dir self) key)) as [->|H1].
  { apply lookup_insert_eq. }
  rewrite lookup_insert_ne by congruence.
  destruct (String.eqb_spec p
              (RetrieverCache.vectors_path (cache_dir self) key)) as [->|H2].
  { apply lookup_insert_eq. }
  rewrite lookup_insert_ne by congruence.
  destruct (String.eqb_spec p
              (RetrieverCache.vectorizer_path (cache_dir self) key))
    as [->|H3].
  { apply lookup_insert_eq. }
  rewrite lookup_insert_ne by congruence. reflexivity.
Qed.

Lemma eqb_false (a b : string) : a <> b -> String.eqb a b = false.
Proof. intros H. apply String.eqb_neq, H. Qed.

(** What the three files of a key hold after [save_to_cache]. *)
Lemma pickled_saved (self : SimpleRetriever Vectorizer DocVectors) key v dv fs :
  can_write fs = true ->
  let fs' := snd (save self key v dv fs) in
  pickled loads_vectorizer fs'
    (RetrieverCache.vectorizer_path (cache_dir self) key)
  = Some (loads_vectorizer (dumps_vectorizer v))
  /\ pickled loads_vectors fs'
       (RetrieverCache.vectors_path (cache_dir self) key)
     = Some (loads_vectors (dumps_vectors dv))
  /\ pickled loads_documents fs'
       (RetrieverCache.documents_path (cache_dir self) key)
     = Some (loads_documents (dumps_documents (documents self))).
Proof.
  intros Hw fs'. subst fs'. unfold pickled.
  rewrite !(lookup_saved self key v dv fs _ Hw).
  rewrite !String.eqb_refl.
  rewrite (eqb_false _ _ (vectorizer_not_documents _ key key)).
  rewrite (eqb_false _ _ (vectorizer_not_vectors _ key key)).
  rewrite (eqb_false _ _ (vectors_not_documents _ key key)).
  repeat split; reflexivity.
Qed.

(** The files of another key are as they were. *)
Lemma lookup_saved_other (self : SimpleRetriever Vectorizer DocVectors) key
    key' v dv fs :
  key' <> key ->
  let fs' := snd (save self key v dv fs) in
  nodes fs' !! RetrieverCache.vectorizer_path (cache_dir self) key'
  = nodes fs !! RetrieverCache.vectorizer_path (cache_dir self) key'
  /\ nodes fs' !! RetrieverCache.vectors_path (cache_dir self) key'
     = nodes fs !! RetrieverCache.vectors_path (cache_dir self) key'
  /\ nodes fs' !! RetrieverCache.documents_path (cache_dir self) key'
     = nodes fs !! RetrieverCache.documents_path (cache_dir self) key'.
Proof.
  intros Hne fs'. subst fs'. rewrite save_run.
  destruct (can_write fs) eqn:Hw; [|repeat split; reflexivity].
  cbn [snd nodes].
  pose proof (vectorizer_path_inj (cache_dir self) key' key) as I1.
  pose proof (vectors_path_inj (cache_dir self) key' key) as I2.
  pose proof (documents_path_inj (cache_dir self) key' key) as I3.
  pose proof (vectorizer_not_vectors (cache_dir self)) as N1.
  pose proof (vectorizer_not_documents (cache_dir self)) as N2.
  pose proof (vectors_not_documents (cache_dir self)) as N3.
  repeat split;
    rewrite !lookup_insert_ne; try reflexivity;
    intros E; first [ apply Hne; auto; fail
                    | eapply N1; eauto; fail
                    | eapply N2; eauto; fail
                    | eapply N3; eauto; fail ].
Qed.

(** *** The index cache by key *)

Lemma cache_is_no_pickle :
  forall key,
    "cache" <> RetrieverCache.vectorizer_path "cache" key
    /\ "cache" <> RetrieverCache.vectors_path "cache" key
    /\ "cache" <> RetrieverCache.documents_path "cache" key.
Proof.
  intros key. repeat split; intros H;
    apply (f_equal (String.get 5)) in H; cbv in H; discriminate H.
Qed.

(** [load_from_cache] over the files is the lookup in the index cache
    that they hold. *)
Lemma load_represented (self : SimpleRetriever Vectorizer DocVectors) key fs
    (cache : IndexCache Vectorizer DocVectors) :
  represents loads_vectorizer loads_vectors loads_documents fs cache ->
  cache_dir self = "cache" ->
  load self key fs
  = (Ok (Retriever.load_from_cache Vectorizer DocVectors cache key), fs).
Proof.
  intros (_ & _ & Hk) Hdir. rewrite load_run, Hdir.
  destruct (Hk key) as (H1 & H2 & H3).
  unfold Retriever.load_from_cache. rewrite H1, H2, H3. reflexivity.
Qed.

(** [save_to_cache] over the files is the insertion in the index cache
    that they hold, for values that [pickle] reads back. *)
Lemma save_represented (self : SimpleRetriever Vectorizer DocVectors) key v dv
    fs (cache : IndexCache Vectorizer DocVectors) :
  represents loads_vectorizer loads_vectors loads_documents fs cache ->
  cache_dir self = "cache" ->
  loads_vectorizer (dumps_vectorizer v) = Ok v ->
  loads_vectors (dumps_vectors dv) = Ok dv ->
  loads_documents (dumps_documents (documents self)) = Ok (documents self) ->
  represents loads_vectorizer loads_vectors loads_documents
    (snd (save self key v dv fs))
    (Retriever.save_to_cache Vectorizer DocVectors cache key (documents self)
       v dv).
Proof.
  intros (Hd & Hw & Hk) Hdir Hv Hdv Hdocs.
  unfold Retriever.save_to_cache. rewrite Hw.
  destruct (can_write fs) eqn:Hcw.
  2:{ rewrite save_run, Hcw. cbn [snd].
      split; [exact Hd|]. split; [congruence|exact Hk]. }
  split; [|split].
  - cbn [dir_exists]. rewrite Hd. unfold path_exists.
    rewrite (lookup_saved self key v dv fs "cache" Hcw), Hdir.
    destruct (cache_is_no_pickle key) as (N1 & N2 & N3).
    rewrite (eqb_false _ _ N1), (eqb_false _ _ N2), (eqb_false _ _ N3).
    reflexivity.
  - cbn [writable]. rewrite save_run, Hcw. reflexivity.
  - intros key0. cbn [vectorizer_pkl vectors_pkl documents_pkl].
    destruct (decide (key0 = key)) as [->|Hne].
    + rewrite !lookup_insert_eq.
      destruct (pickled_saved self key v dv fs Hcw) as (P1 & P2 & P3).
      rewrite Hdir in P1, P2, P3. rewrite P1, P2, P3, Hv, Hdv, Hdocs.
      repeat split; reflexivity.
    + rewrite !lookup_insert_ne by congruence.
      destruct (lookup_saved_other self key key0 v dv fs Hne)
        as (H1 & H2 & H3).
      rewrite Hdir in H1, H2, H3.
      rewrite (pickled_other _ _ _ _ H1), (pickled_other _ _ _ _ H2),
        (pickled_other _ _ _ _ H3).
      apply Hk.
Qed.


End Pickle.


End PickleFiles.

(** ** The constructor and the index cache *)

Module IndexCacheProps.
Import Py.
Import Retriever.
Local Open Scope list_scope.

Section Cache.

Variables Vectorizer DocVectors : Type.
Variable new_vectorizer : Vectorizer.
Variable Md5 : Type.
Variable md5_new : Md5.
Variable md5_update : Md5 -> string -> Md5.
Variable md5_hexdigest : Md5 -> string.

Abbreviation index_cache := (IndexCache Vectorizer DocVectors).
Abbreviation key_of := (get_cache_key Md5 md5_new md5_update md5_hexdigest).
Abbreviation load := (load_from_cache Vectorizer DocVectors).
Abbreviation save := (save_to_cache Vectorizer DocVectors).
Abbreviation construct := (fun fit_transform =>
  init Vectorizer DocVectors new_vectorizer fit_transform Md5 md5_new
    md5_update md5_hexdigest).

Lemma load_saved (cache : index_cache) key docs v dv :
  writable cache = true -> load (save cache key docs v dv) key = Some (v, dv).
Proof.
  intros Hw. unfold load_from_cache, save_to_cache. rewrite Hw. simpl.
  rewrite !lookup_insert_eq. reflexivity.
Qed.

Lemma key_of_contents docs docs' :
  map get_content docs' = map get_content docs -> key_of docs' = key_of docs.
Proof.
  intros H. unfold get_cache_key. do 2 f_equal.
  assert (forall l h,
            fold_left (fun h0 doc => md5_update h0 (get_content doc)) l h
            = fold_left md5_update (map get_content l) h) as Hfold.
  { induction l as [|d t IH]; simpl; intros h; [reflexivity|apply IH]. }
  rewrite !Hfold, H. reflexivity.
Qed.

(** The directory step of [__init__]. *)
Lemma cache_dir_step (cache : index_cache) :
  dir_exists cache = true \/ writable cache = true ->
  exists c0,
    (if dir_exists cache then Ok cache
     else if writable cache
     then Ok (mkIndexCache true (writable cache) (vectorizer_pkl cache)
                (vectors_pkl cache) (documents_pkl cache))
     else Raise (OSError "cache")) = Ok c0
    /\ dir_exists c0 = true /\ writable c0 = writable cache
    /\ vectorizer_pkl c0 = vectorizer_pkl cache
    /\ vectors_pkl c0 = vectors_pkl cache
    /\ documents_pkl c0 = documents_pkl cache.
Proof.
  intros H. destruct (dir_exists cache) eqn:Ed.
  - exists cache. auto 10.
  - destruct H as [H|H]; [discriminate|]. rewrite H.
    eexists. split; [reflexivity|]. simpl. auto 10.
Qed.

Lemma construct_caches fit_transform docs (cache c1 : index_cache) s :
  writable cache = true -> docs <> [] ->
  construct fit_transform docs true cache = Ok (s, c1) ->
  exists dv,
    doc_vectors s = Some dv
    /\ load c1 (key_of docs) = Some (vectorizer s, dv)
    /\ dir_exists c1 = true.
Proof.
  intros Hw Hdocs. cbv beta. unfold init.
  destruct (cache_dir_step cache (or_intror Hw))
    as (c0 & -> & Hd0 & Hw0 & _).
  rewrite Hw in Hw0. cbn [bind]. unfold build_index.
  cbn [documents use_cache vectorizer cache_dir].
  destruct docs as [|d0 docs0]; [congruence|]. cbn [is_empty].
  destruct (load c0 (key_of (d0 :: docs0))) as [[v dv]|] eqn:Eload.
  - intros [= <- <-]. exists dv. auto.
  - destruct (fit_transform new_vectorizer _) as [[v dv]|e];
      cbn [bind fst snd]; [|discriminate].
    intros [= <- <-]. exists dv. cbn [doc_vectors vectorizer].
    split; [reflexivity|]. split; [apply load_saved, Hw0|].
    unfold save_to_cache. rewrite Hw0. exact Hd0.
Qed.

(** X2. After one construction with caching, over a cache directory
    that can be written, a construction over documents with the same
    contents in the same order takes the vectorizer and the vectors of
    the first one from the cache: [fit_transform] plays no part, and the
    file names are not compared. *)
Theorem saved_index_is_reused fit_transform fit_transform' docs docs'
    (cache c1 : IndexCache Vectorizer DocVectors) s :
  writable cache = true ->
  docs <> [] ->
  map get_content docs' = map get_content docs ->
  init Vectorizer DocVectors new_vectorizer fit_transform Md5 md5_new
    md5_update md5_hexdigest docs true cache = Ok (s, c1) ->
  init Vectorizer DocVectors new_vectorizer fit_transform' Md5 md5_new
    md5_update md5_hexdigest docs' true c1
  = Ok (mkRetriever docs' true "cache" (vectorizer s) (doc_vectors s), c1).
Proof.
  intros Hw Hdocs Hsame Hfirst.
  assert (docs' <> []) as Hdocs'.
  { intros ->. destruct docs; [congruence|discriminate]. }
  destruct (construct_caches _ _ _ _ _ Hw Hdocs Hfirst)
    as (dv & Hdv & Hload & Hdir).
  cbv beta. unfold init. rewrite Hdir. cbn [bind]. unfold build_index.
  cbn [documents use_cache vectorizer cache_dir].
  destruct docs' as [|d0' docs0']; [congruence|]. cbn [is_empty].
  rewrite (key_of_contents docs (d0' :: docs0') Hsame), Hload, Hdv.
  reflexivity.
Qed.

(** X3. What a construction that returns leaves behind: the retriever
    holds the documents it was given, it has an index exactly when
    there is a document, and the cache directory exists; without
    caching no cache file is written. *)
Theorem construct_postconditions fit_transform docs use
    (cache c1 : IndexCache Vectorizer DocVectors) s :
  init Vectorizer DocVectors new_vectorizer fit_transform Md5 md5_new
    md5_update md5_hexdigest docs use cache = Ok (s, c1) ->
  documents s = docs /\ use_cache s = use /\ cache_dir s = "cache"
  /\ (doc_vectors s = None <-> docs = [])
  /\ dir_exists c1 = true
  /\ (use = false ->
      vectorizer_pkl c1 = vectorizer_pkl cache
      /\ vectors_pkl c1 = vectors_pkl cache
      /\ documents_pkl c1 = documents_pkl cache).
Proof.
  cbv beta. unfold init. intros H.
  assert (dir_exists cache = true \/ writable cache = true) as Hdir.
  { destruct (dir_exists cache); [auto|].
    destruct (writable cache); [auto|discriminate]. }
  destruct (cache_dir_step cache Hdir)
    as (c0 & E & Hd0 & Hw0 & Hp1 & Hp2 & Hp3).
  rewrite E in H. cbn [bind] in H. unfold build_index in H.
  cbn [documents use_cache vectorizer cache_dir] in H.
  destruct docs as [|d0 docs0]; cbn [is_empty] in H.
  { injection H as <- <-. simpl. repeat split; auto; try congruence. }
  destruct use.
  - destruct (load c0 (key_of (d0 :: docs0))) as [[v dv]|].
    + injection H as <- <-. simpl.
      repeat split; auto; try discriminate.
    + destruct (fit_transform new_vectorizer _) as [[v dv]|e];
        cbn [bind fst snd] in H; [|discriminate].
      injection H as <- <-. simpl.
      repeat split; auto; try discriminate.
      unfold save_to_cache. destruct (writable c0); exact Hd0.
  - destruct (fit_transform new_vectorizer _) as [[v dv]|e];
      cbn [bind fst snd] in H; [|discriminate].
    injection H as <- <-. simpl. repeat split; auto; discriminate.
Qed.

(** X4. [build_index] does not catch what [fit_transform] raises: with
    documents, and no index to take from the cache, the construction
    raises the same exception. *)
Theorem construct_propagates fit_transform docs use
    (cache : IndexCache Vectorizer DocVectors) e :
  docs <> [] ->
  dir_exists cache = true ->
  use = false
  \/ load_from_cache Vectorizer DocVectors cache
       (get_cache_key Md5 md5_new md5_update md5_hexdigest docs) = None ->
  fit_transform new_vectorizer (map get_content docs) = Raise e ->
  init Vectorizer DocVectors new_vectorizer fit_transform Md5 md5_new
    md5_update md5_hexdigest docs use cache = Raise e.
Proof.
  intros Hdocs Hdir Hmiss Hfit. cbv beta. unfold init. rewrite Hdir.
  cbn [bind]. unfold build_index.
  cbn [documents use_cache vectorizer cache_dir].
  destruct docs as [|d0 docs0]; [congruence|]. cbn [is_empty].
  assert ((if use then load cache (key_of (d0 :: docs0)) else None) = None)
    as ->.
  { destruct use; [|reflexivity]. destruct Hmiss; [discriminate|assumption]. }
  rewrite Hfit. reflexivity.
Qed.

End Cache.

Lemma saved_index_is_reused_witness :
  exists s c1,
    init unit (list Q) tt MoreSamples.length_fit string "" String.append
      (fun h => h) Samples.plain_docs true MoreSamples.fresh_cache
    = Ok (s, c1)
    /\ init unit (list Q) tt MoreSamples.failing_fit string "" String.append
         (fun h => h) MoreSamples.renamed_docs true c1
       = Ok (mkRetriever MoreSamples.renamed_docs true "cache" (vectorizer s)
               (doc_vectors s), c1).
Proof.
  eexists. eexists. split; [vm_compute; reflexivity|].
  apply (saved_index_is_reused unit (list Q) tt string "" String.append
           (fun h => h) MoreSamples.length_fit MoreSamples.failing_fit
           Samples.plain_docs MoreSamples.renamed_docs
           MoreSamples.fresh_cache).
  - reflexivity.
  - discriminate.
  - reflexivity.
  - vm_compute. reflexivity.
Defined.

Lemma construct_postconditions_witness :
  exists s c1,
    init unit (list Q) tt MoreSamples.length_fit string "" String.append
      (fun h => h) Samples.plain_docs false MoreSamples.fresh_cache
    = Ok (s, c1)
    /\ documents s = Samples.plain_docs
    /\ (doc_vectors s = None <-> Samples.plain_docs = [])
    /\ dir_exists c1 = true.
Proof.
  destruct (init unit (list Q) tt MoreSamples.length_fit string ""
              String.append (fun h => h) Samples.plain_docs false
              MoreSamples.fresh_cache) as [[s c1]|e] eqn:E;
    [|vm_compute in E; discriminate].
  exists s, c1. split; [reflexivity|].
  destruct (construct_postconditions unit (list Q) tt string ""
              String.append (fun h => h) MoreSamples.length_fit
              Samples.plain_docs false MoreSamples.fresh_cache c1 s E)
    as (H1 & _ & _ & H2 & H3 & _).
  split; [exact H1|]. split; [exact H2|exact H3].
Defined.

Lemma construct_propagates_witness :
  init unit (list Q) tt MoreSamples.failing_fit string "" String.append
    (fun h => h) Samples.plain_docs true
    (mkIndexCache true true ∅ ∅ ∅)
  = Raise (LibraryError "empty vocabulary").
Proof.
  apply (construct_propagates unit (list Q) tt string "" String.append
           (fun h => h) MoreSamples.failing_fit Samples.plain_docs true
           (mkIndexCache true true ∅ ∅ ∅)).
  - discriminate.
  - reflexivity.
  - right. reflexivity.
  - reflexivity.
Defined.

End IndexCacheProps.

(** ** The shape of what retrieval returns *)

Module ResultShape.
Import Py.
Import Retriever.
Import Notions.
Import MoreNotions.
Import RetrieverFacts.
Import SortFacts.
Import DictFacts.
Import RetrieveFacts.
Local Open Scope list_scope.

Lemma sorted_descending l : sorted_desc (keyed l) -> descending (scores l).
Proof.
  unfold sorted_desc, keyed, scores.
  induction l as [|d t IH]; simpl; intros H; [exact I|].
  apply StronglySorted_inv in H. destruct H as [Ht Hd].
  split; [|apply IH, Ht].
  rewrite Forall_fmap in Hd. rewrite Forall_fmap.
  eapply Forall_impl; [exact Hd|]. simpl. auto.
Qed.

Lemma sorted_desc_take {A} n (l : list (Q * A)) :
  sorted_desc l -> sorted_desc (take n l).
Proof.
  unfold sorted_desc. intros H. rewrite <- (take_drop n l) in H.
  eapply StronglySorted_app_1_l, H.
Qed.

Lemma keyed_take n l : keyed (take n l) = take n (keyed l).
Proof. unfold keyed. symmetry. apply firstn_map. Qed.

Lemma slice_to_take {A} (l : list A) k : exists n, slice_to l k = take n l.
Proof. unfold slice_to. destruct (0 <=? k)%Z; eauto. Qed.

Lemma id_eqb_eq a b : id_eqb a b = true <-> a = b.
Proof.
  unfold id_eqb. destruct a as [a1 a2], b as [b1 b2]. simpl.
  rewrite andb_true_iff, !String.eqb_eq. split.
  - intros [-> ->]. reflexivity.
  - intros [= -> ->]. auto.
Qed.

Lemma existsb_id_seen i seen :
  existsb (id_eqb i) seen = false -> i ∉ seen.
Proof.
  intros H Hin. apply not_true_iff_false in H. apply H.
  apply existsb_exists. exists i. split; [apply list_elem_of_In, Hin|].
  apply id_eqb_eq. reflexivity.
Qed.

Lemma doc_id_ident d i : doc_id d = Ok i -> i = ident d.
Proof.
  unfold doc_id, get_file_name, ident, name.
  destruct (file_name d); simpl; [|discriminate]. intros [= <-]. reflexivity.
Qed.

(** The loop that removes duplicates keeps one document of each
    identity, among those it has not seen. *)
Lemma unique_from_distinct l : forall seen u,
  unique_from seen l = Ok u ->
  NoDup (map ident u) /\ Forall (fun d => ident d ∉ seen) u
  /\ u `sublist_of` l.
Proof.
  induction l as [|d rest IH]; simpl; intros seen u H.
  - injection H as <-. repeat split; constructor.
  - destruct (doc_id d) as [i|e] eqn:Ei; simpl in H; [|discriminate].
    apply doc_id_ident in Ei. subst i.
    destruct (existsb (id_eqb (ident d)) seen) eqn:Eseen.
    + destruct (IH _ _ H) as (H1 & H2 & H3).
      split; [exact H1|]. split; [exact H2|]. apply sublist_cons, H3.
    + destruct (unique_from (ident d :: seen) rest) as [u'|e] eqn:Eu;
        simpl in H; [|discriminate].
      injection H as <-. destruct (IH _ _ Eu) as (H1 & H2 & H3).
      split; [|split].
      * simpl. constructor; [|exact H1]. intros Hin.
        apply list_elem_of_fmap in Hin. destruct Hin as (x & Hx & Hxu).
        rewrite Forall_forall in H2. apply (H2 x Hxu). rewrite Hx. left.
      * constructor; [apply existsb_id_seen, Eseen|].
        eapply Forall_impl; [exact H2|]. simpl. intros x Hx Hin.
        apply Hx. right. exact Hin.
      * apply sublist_skip, H3.
Qed.

Section Shape.

Variables Vectorizer DocVectors : Type.
Variable cosine_scores : Vectorizer -> DocVectors -> string -> result (list Q).
Variable argsort : list Q -> list nat.

Abbreviation retrieve :=
  (retrieve_relevant_chunks Vectorizer DocVectors cosine_scores argsort).

(** What the last lines of [retrieve_relevant_chunks] make of
    [all_results]. *)
Lemma finish_shape all_results top_k l :
  bind (unique_from [] all_results) (fun unique_results =>
    Ok (slice_to (sort_by_score_default unique_results) top_k)) = Ok l ->
  descending (scores l) /\ NoDup (map ident l)
  /\ ((0 <= top_k)%Z -> (length l <= Z.to_nat top_k)%nat)
  /\ forall d, d ∈ l -> d ∈ all_results.
Proof.
  destruct (unique_from [] all_results) as [u|e] eqn:Eu; simpl;
    [|discriminate].
  intros [= <-]. rewrite sort_by_score_default_ranked.
  destruct (unique_from_distinct _ _ _ Eu) as (Hnd & _ & Hsub).
  destruct (slice_to_take (ranked u) top_k) as [n Hn].
  split; [|split; [|split]].
  - rewrite Hn. apply sorted_descending. rewrite keyed_take.
    apply sorted_desc_take, ranked_sorted.
  - rewrite Hn, <- firstn_map.
    eapply sublist_NoDup; [|apply sublist_take].
    rewrite ranked_perm. exact Hnd.
  - intros Hk. rewrite slice_to_nonneg by assumption.
    rewrite length_take. lia.
  - intros d Hd. apply slice_to_sublist in Hd. rewrite ranked_perm in Hd.
    eapply elem_of_sublist; eassumption.
Qed.

(** X5. [retrieve_relevant_chunks] returns its results by descending
    score, no two of them with the same file name and the same first
    100 characters of content, and for a count that is not negative at
    most that many. *)
Theorem results_ranked_and_distinct
    (self : SimpleRetriever Vectorizer DocVectors) (query : string)
    (top_k : Z) :
  exists l,
    retrieve_relevant_chunks Vectorizer DocVectors cosine_scores argsort self
      query top_k = Ok l
    /\ descending (scores l)
    /\ NoDup (map ident l)
    /\ ((0 <= top_k)%Z -> (length l <= Z.to_nat top_k)%nat).
Proof.
  unfold retrieve_relevant_chunks.
  assert (descending (scores []) /\ NoDup (map ident [])
          /\ ((0 <= top_k)%Z -> (length (@nil Doc) <= Z.to_nat top_k)%nat))
    as Hnil.
  { split; [exact I|]. split; [constructor|]. simpl. lia. }
  destruct (doc_vectors self); [|exists []; split; [reflexivity|exact Hnil]].
  destruct (is_empty (documents self));
    [exists []; split; [reflexivity|exact Hnil]|].
  destruct (retrieve_body Vectorizer DocVectors cosine_scores argsort self
              query top_k) as [l|e] eqn:E; cbn [try_except];
    [|exists []; split; [reflexivity|exact Hnil]].
  exists l. split; [reflexivity|].
  unfold retrieve_body in E.
  destruct (_search_with_query _ _ _ _ self query top_k) as [r1|e1];
    cbn [bind] in E; [|discriminate].
  destruct (if is_empty r1 then _ else _) as [a1|e2]; cbn [bind] in E;
    [|discriminate].
  destruct (if is_empty a1 then _ else _) as [a2|e3]; cbn [bind] in E;
    [|discriminate].
  destruct (finish_shape a2 top_k l E) as (H1 & H2 & H3 & _). auto.
Qed.

End Shape.

End ResultShape.

(** ** Where results come from *)

Module Soundness.
Import Py.
Import Retriever.
Import Notions.
Import MoreNotions.
Import RetrieverFacts.
Import SortFacts.
Import DictFacts.
Local Open Scope list_scope.












Section Rounds.

Variables Vectorizer DocVectors : Type.
Variable cosine_scores : Vectorizer -> DocVectors -> string -> result (list Q).
Variable argsort : list Q -> list nat.
Variable self : SimpleRetriever Vectorizer DocVectors.

Abbreviation search :=
  (_search_with_query Vectorizer DocVectors cosine_scores argsort self).





End Rounds.

End Soundness.

(** ** The fallback rounds *)

Module Fallback.
Import Py.
Import Retriever.
Import Notions.
Import RetrieverFacts.
Import SearchFacts.
Import RetrieveFacts.
Local Open Scope list_scope.

Lemma first_found_nothing (search : string -> list Doc) queries :
  (forall q, search q = []) -> first_found search queries = [].
Proof.
  intros H. induction queries as [|q rest IH]; simpl; [reflexivity|].
  rewrite H. exact IH.
Qed.

Section Rounds.

Variables Vectorizer DocVectors : Type.
Variable cosine_scores : Vectorizer -> DocVectors -> string -> result (list Q).
Variable argsort : list Q -> list nat.
Variable self : SimpleRetriever Vectorizer DocVectors.

Hypothesis argsort_ok : argsort_spec argsort.
Hypothesis docs_named : named (documents self).
Hypothesis index_aligned : aligned cosine_scores self.

Abbreviation found := (fun (top_k : Z) (q : string) =>
  returned (_search_with_query Vectorizer DocVectors cosine_scores argsort
              self q top_k)).

Lemma found_without_index top_k q :
  doc_vectors self = None -> found top_k q = [].
Proof.
  intros Hdv. cbv beta.
  unfold _search_with_query, search_body, relevant_docs, similarities.
  rewrite Hdv. reflexivity.
Qed.

Lemma found_without_documents (k : nat) q :
  documents self = [] -> found (Z.of_nat k) q = [].
Proof.
  intros Hdocs.
  destruct (similarities Vectorizer DocVectors cosine_scores self q)
    as [sims|e] eqn:E.
  - rewrite (Monotone.found_closed Vectorizer DocVectors cosine_scores argsort
               self argsort_ok docs_named index_aligned sims k q E).
    rewrite Hdocs.
    assert (omap (tf_of [] sims) (take k (rev (argsort sims))) = []) as ->.
    { induction (take k (rev (argsort sims))) as [|i t IH]; [reflexivity|].
      simpl. unfold tf_of at 1. destruct (sims !! i); exact IH. }
    unfold merged, exact_matches. simpl. apply take_nil.
  - apply (Monotone.found_failed Vectorizer DocVectors cosine_scores argsort
             self e k q E).
Qed.

End Rounds.

Section Claim.

Variables Vectorizer DocVectors : Type.
Variable cosine_scores : Vectorizer -> DocVectors -> string -> result (list Q).
Variable argsort : list Q -> list nat.

(** X7. [retrieve_relevant_chunks] returns what the first round that
    finds something returns, the rounds being those of the query, of
    its key terms when there are some and they are not the lowercased
    query, and of the key terms of more than four characters one by
    one; it returns the empty list when no round finds anything. The
    documents have file names, the index has one score per document,
    and the count is not negative. *)
Theorem retrieve_first_found
    (self : SimpleRetriever Vectorizer DocVectors) (query : string)
    (top_k : Z) :
  argsort_spec argsort ->
  named (documents self) ->
  aligned cosine_scores self ->
  (0 <= top_k)%Z ->
  retrieve_relevant_chunks Vectorizer DocVectors cosine_scores argsort self
    query top_k
  = Ok (first_found
          (fun q => returned
             (_search_with_query Vectorizer DocVectors cosine_scores argsort
                self q top_k))
          (candidates query)).
Proof.
  intros Hsort Hnamed Haligned Hk.
  rewrite <- (Z2Nat.id top_k) by assumption.
  set (k := Z.to_nat top_k).
  destruct (doc_vectors self) as [dv|] eqn:Edv.
  2:{ rewrite first_found_nothing
        by (intros q; apply found_without_index; exact Edv).
      unfold retrieve_relevant_chunks. rewrite Edv. reflexivity. }
  destruct (is_empty (documents self)) eqn:Ee.
  { pose proof Ee as Hdocs. apply is_empty_true in Hdocs.
    rewrite first_found_nothing
      by (intros q; apply found_without_documents; assumption).
    unfold retrieve_relevant_chunks. rewrite Edv, Ee. reflexivity. }
  apply retrieve_closed.
  - intros q. apply Monotone.found_tidy; assumption.
  - intros q. apply Monotone.found_short; assumption.
  - lia.
  - congruence.
  - intros H. rewrite H in Ee. discriminate.
Qed.

End Claim.

Lemma retrieve_first_found_witness :
  retrieve_relevant_chunks unit (list Q) Samples.table_scores stable_argsort
    (Samples.retriever_of Samples.python_docs [0.9; 0.1; 0.2]%Q)
    "What is Python?" 2
  = Ok (first_found
          (fun q => returned
             (_search_with_query unit (list Q) Samples.table_scores
                stable_argsort
                (Samples.retriever_of Samples.python_docs [0.9; 0.1; 0.2]%Q)
                q 2))
          (candidates "What is Python?")).
Proof.
  apply (retrieve_first_found unit (list Q) Samples.table_scores
           stable_argsort
           (Samples.retriever_of Samples.python_docs [0.9; 0.1; 0.2]%Q)
           "What is Python?" 2).
  - apply Ranking.stable_argsort_spec.
  - apply Witnesses.python_docs_named.
  - intros dv q sims Hdv Hs. simpl in Hdv. injection Hdv as <-.
    injection Hs as <-. reflexivity.
  - lia.
Defined.

End Fallback.

(** ** Key terms *)

Module KeyTerms.
Import Py.
Import Retriever.
Import MoreNotions.
Local Open Scope list_scope.

Lemma str_app_cons x (a b : string) :
  (String x a ++ b)%string = String x (a ++ b).
Proof. reflexivity. Qed.

Lemma str_app_nil_l (a : string) : ("" ++ a)%string = a.
Proof. reflexivity. Qed.

Lemma str_app_assoc (a b c : string) :
  ((a ++ b) ++ c)%string = (a ++ b ++ c)%string.
Proof.
  induction a as [|x a' IH]; [reflexivity|].
  rewrite !str_app_cons. f_equal. exact IH.
Qed.

Lemma str_app_nil_r (a : string) : (a ++ "")%string = a.
Proof.
  induction a as [|x a' IH]; [reflexivity|].
  rewrite str_app_cons. f_equal. exact IH.
Qed.

Lemma spaceless_app a b :
  spaceless a = true -> spaceless b = true -> spaceless (a ++ b) = true.
Proof.
  induction a as [|x a IH]; intros Ha Hb; [exact Hb|].
  rewrite str_app_cons. simpl in *.
  apply andb_true_iff in Ha. destruct Ha as [Hx Ha].
  rewrite Hx. simpl. apply IH; assumption.
Qed.

(** A word is read in one go. *)
Lemma split_from_word w : forall cur s,
  spaceless w = true ->
  split_from cur (w ++ s) = split_from (cur ++ w) s.
Proof.
  induction w as [|c w IH]; intros cur s Hw.
  - rewrite str_app_nil_r. reflexivity.
  - rewrite str_app_cons. simpl in *.
    apply andb_true_iff in Hw. destruct Hw as [Hc Hw].
    apply negb_true_iff in Hc. rewrite Hc.
    rewrite (IH _ _ Hw), str_app_assoc. reflexivity.
Qed.

(** [str.split] gives words. *)
Lemma split_from_words s : forall cur,
  spaceless cur = true ->
  Forall is_a_word (split_from cur s).
Proof.
  induction s as [|c s IH]; simpl; intros cur Hcur.
  - destruct (String.eqb_spec cur ""); constructor; [|constructor].
    split; assumption.
  - destruct (is_space c) eqn:Ec.
    + destruct (String.eqb_spec cur "").
      * apply IH. reflexivity.
      * constructor; [split; assumption|]. apply IH. reflexivity.
    + apply IH. apply spaceless_app; [exact Hcur|]. simpl. rewrite Ec.
      reflexivity.
Qed.

Lemma split_words s : Forall is_a_word (split s).
Proof. apply split_from_words. reflexivity. Qed.

(** Splitting what [' '.join] made of words gives the words back. *)
Lemma split_join ws : Forall is_a_word ws -> split (join " " ws) = ws.
Proof.
  unfold split, join.
  induction 1 as [|w t [Hne Hw] Ht IH]; [reflexivity|].
  destruct t as [|y t'].
  - simpl. rewrite <- (str_app_nil_r w) at 1.
    rewrite (split_from_word w "" "" Hw), str_app_nil_l. simpl.
    destruct (String.eqb_spec w ""); [contradiction|reflexivity].
  - change (String.concat " " (w :: y :: t'))
      with (w ++ String " " (String.concat " " (y :: t')))%string.
    rewrite (split_from_word w "" _ Hw), str_app_nil_l. simpl.
    destruct (String.eqb_spec w ""); [contradiction|].
    f_equal. exact IH.
Qed.

Lemma key_terms_are_words query :
  Forall is_a_word
    (filter (fun w => is_key_term w = true) (split (sub_punct (lower query)))).
Proof.
  apply Forall_forall. intros w Hw. apply list_elem_of_filter in Hw.
  destruct Hw as [_ Hw].
  pose proof (split_words (sub_punct (lower query))) as H.
  rewrite Forall_forall in H. apply H, Hw.
Qed.

Lemma split_key_terms query :
  split (extract_key_terms query)
  = filter (fun w => is_key_term w = true) (split (sub_punct (lower query))).
Proof.
  unfold extract_key_terms. cbv zeta.
  apply split_join, key_terms_are_words.
Qed.

Lemma is_key_term_iff w :
  is_key_term w = true
  <-> (w ∉ ["what"; "is"; "are"; "how"; "when"; "where"; "why"; "who";
            "which"; "the"; "a"; "an"])
      /\ (2 < len w)%nat.
Proof.
  unfold is_key_term. rewrite andb_true_iff, negb_true_iff, Nat.ltb_lt.
  rewrite <- not_true_iff_false, existsb_exists.
  split; intros [Hq Hlen]; (split; [|exact Hlen]).
  - intros Hin. apply Hq. exists w. split; [|apply String.eqb_refl].
    apply list_elem_of_In. exact Hin.
  - intros (x & Hin & Heq). apply String.eqb_eq in Heq. subst x.
    apply Hq, list_elem_of_In. exact Hin.
Qed.

(** X8. The words of the string that [extract_key_terms] returns are
    the key terms, in order: they are exactly the words of the
    lowercased query, punctuation taken for white space, that are none
    of the twelve question words and have more than two characters.
    These are the words that the third strategy goes through. *)
Theorem key_terms_split (query : string) :
  split (extract_key_terms query)
  = filter (fun w =>
              (w ∉ ["what"; "is"; "are"; "how"; "when"; "where"; "why";
                    "who"; "which"; "the"; "a"; "an"])
              /\ (2 < len w)%nat)
      (split (sub_punct (lower query))).
Proof.
  rewrite split_key_terms. apply list_filter_iff. intros w.
  apply is_key_term_iff.
Qed.

(** *** The key terms of key terms *)

Lemma lower_char_not_upper c : is_upper (lower_char c) = false.
Proof.
  destruct c as [[] [] [] [] [] [] [] []]; vm_compute; reflexivity.
Qed.

Lemma space_not_upper c : is_space c = true -> is_upper c = false.
Proof.
  destruct c as [[] [] [] [] [] [] [] []]; vm_compute; intros H;
    solve [reflexivity | discriminate].
Qed.

Lemma space_not_word c : is_space c = true -> is_word c = false.
Proof.
  destruct c as [[] [] [] [] [] [] [] []]; vm_compute; intros H;
    solve [reflexivity | discriminate].
Qed.

Lemma all_chars_impl (p q : ascii -> bool) s :
  (forall c, p c = true -> q c = true) ->
  all_chars p s = true -> all_chars q s = true.
Proof.
  intros Hpq. induction s as [|c s IH]; simpl; [auto|].
  intros H. apply andb_true_iff in H. destruct H as [Hc Hs].
  rewrite (Hpq c Hc). simpl. apply IH, Hs.
Qed.

Lemma all_chars_app p a b :
  all_chars p a = true -> all_chars p b = true ->
  all_chars p (a ++ b) = true.
Proof.
  induction a as [|x a IH]; intros Ha Hb; [exact Hb|].
  rewrite str_app_cons. simpl in *.
  apply andb_true_iff in Ha. destruct Ha as [Hx Ha].
  rewrite Hx. simpl. apply IH; assumption.
Qed.

Lemma lower_fixed s :
  all_chars (fun c => negb (is_upper c)) s = true -> lower s = s.
Proof.
  induction s as [|c s IH]; simpl; [reflexivity|].
  intros H. apply andb_true_iff in H. destruct H as [Hc Hs].
  apply negb_true_iff in Hc. unfold lower_char. rewrite Hc, (IH Hs).
  reflexivity.
Qed.

Lemma sub_punct_fixed s :
  all_chars (fun c => is_word c || is_space c) s = true -> sub_punct s = s.
Proof.
  induction s as [|c s IH]; simpl; [reflexivity|].
  intros H. apply andb_true_iff in H. destruct H as [Hc Hs].
  rewrite Hc, (IH Hs). reflexivity.
Qed.

(** What [re.sub] leaves of the lowercased query: key characters and
    white space. *)
Lemma cleaned_chars query :
  all_chars (fun c => key_char c || is_space c) (sub_punct (lower query))
  = true.
Proof.
  induction query as [|c s IH]; simpl; [reflexivity|].
  rewrite IH, andb_true_r.
  destruct (is_word (lower_char c)) eqn:Ew; simpl.
  - unfold key_char. rewrite Ew, lower_char_not_upper. reflexivity.
  - destruct (is_space (lower_char c)) eqn:Es; simpl.
    + rewrite Es. apply orb_true_r.
    + reflexivity.
Qed.

Lemma split_from_chars p s : forall cur,
  all_chars (fun c => p c || is_space c) s = true ->
  all_chars p cur = true ->
  Forall (fun w => all_chars p w = true) (split_from cur s).
Proof.
  induction s as [|c s IH]; simpl; intros cur Hs Hcur.
  - destruct (String.eqb cur ""); constructor; [assumption|constructor].
  - apply andb_true_iff in Hs. destruct Hs as [Hc Hs].
    destruct (is_space c) eqn:Ec.
    + destruct (String.eqb cur "").
      * apply IH; [exact Hs|reflexivity].
      * constructor; [exact Hcur|]. apply IH; [exact Hs|reflexivity].
    + apply IH; [exact Hs|]. apply all_chars_app; [exact Hcur|].
      simpl. rewrite orb_false_r in Hc. rewrite Hc. reflexivity.
Qed.

Lemma join_chars p ws :
  Forall (fun w => all_chars p w = true) ws ->
  all_chars (fun c => p c || is_space c) (join " " ws) = true.
Proof.
  unfold join. induction 1 as [|w t Hw Ht IH]; [reflexivity|].
  assert (all_chars (fun c => p c || is_space c) w = true) as Hw'.
  { eapply all_chars_impl; [|exact Hw]. intros c ->. reflexivity. }
  destruct t as [|y t']; [exact Hw'|].
  change (String.concat " " (w :: y :: t'))
    with (w ++ String " " (String.concat " " (y :: t')))%string.
  apply all_chars_app; [exact Hw'|]. simpl.
  rewrite orb_true_r. exact IH.
Qed.

(** X9. [extract_key_terms] is idempotent: the key terms of a string
    of key terms are this string, which is in lower case already, so
    that for such a query the second strategy has nothing new to
    try. *)
Theorem key_terms_idempotent (query : string) :
  extract_key_terms (extract_key_terms query) = extract_key_terms query
  /\ lower (extract_key_terms query) = extract_key_terms query.
Proof.
  set (ws := filter (fun w => is_key_term w = true)
               (split (sub_punct (lower query)))).
  assert (Forall (fun w => all_chars key_char w = true) ws) as Hchars.
  { apply Forall_forall. intros w Hw. apply list_elem_of_filter in Hw.
    destruct Hw as [_ Hw].
    pose proof (split_from_chars key_char (sub_punct (lower query)) ""
                  (cleaned_chars query) eq_refl) as H.
    rewrite Forall_forall in H. apply H, Hw. }
  assert (all_chars (fun c => key_char c || is_space c)
            (extract_key_terms query) = true) as Hkt
    by (apply join_chars, Hchars).
  assert (lower (extract_key_terms query) = extract_key_terms query)
    as Hlower.
  { apply lower_fixed. eapply all_chars_impl; [|exact Hkt].
    intros c Hc. apply orb_true_iff in Hc. apply negb_true_iff.
    destruct Hc as [Hc|Hc]; [|apply space_not_upper, Hc].
    unfold key_char in Hc. apply andb_true_iff in Hc.
    apply negb_true_iff. tauto. }
  split; [|exact Hlower].
  unfold extract_key_terms at 1. cbv zeta. rewrite Hlower.
  rewrite sub_punct_fixed.
  2:{ eapply all_chars_impl; [|exact Hkt]. intros c Hc.
      apply orb_true_iff in Hc. apply orb_true_iff.
      destruct Hc as [Hc|Hc]; [left|right; exact Hc].
      unfold key_char in Hc. apply andb_true_iff in Hc. tauto. }
  rewrite (split_key_terms query).
  rewrite list_filter_filter_l by auto. reflexivity.
Qed.

End KeyTerms.

(** ** The context string *)

Module ContextProps.
Import Py.
Import Retriever.
Import Files.
Import RetrieverContext.
Local Open Scope list_scope.

Lemma startswith_app p a b :
  startswith p a = true -> startswith p (a ++ b) = true.
Proof.
  revert a. induction p as [|x p IH]; intros a H; [reflexivity|].
  destruct a as [|y a]; [discriminate|].
  rewrite KeyTerms.str_app_cons. simpl in *.
  apply andb_true_iff in H. destruct H as [Hx Hp].
  rewrite Hx. simpl. apply IH, Hp.
Qed.

Lemma startswith_self p b : startswith p (p ++ b) = true.
Proof.
  induction p as [|x p IH]; [reflexivity|].
  rewrite KeyTerms.str_app_cons. simpl.
  rewrite Ascii.eqb_refl. exact IH.
Qed.

Lemma str_in_app_l x a b : str_in x a = true -> str_in x (a ++ b) = true.
Proof.
  induction a as [|y a IH]; intros H.
  - simpl in H. rewrite orb_false_r in H.
    destruct x; [|discriminate]. destruct b; reflexivity.
  - rewrite KeyTerms.str_app_cons. simpl in H. apply orb_true_iff in H.
    change (str_in x (String y (a ++ b)))
      with (startswith x (String y (a ++ b)) || str_in x (a ++ b)).
    apply orb_true_iff. destruct H as [H|H].
    + left. rewrite <- KeyTerms.str_app_cons. apply startswith_app, H.
    + right. apply IH, H.
Qed.

Lemma str_in_app_r x a b : str_in x b = true -> str_in x (a ++ b) = true.
Proof.
  intros H. induction a as [|y a IH]; [exact H|].
  rewrite KeyTerms.str_app_cons.
  change (str_in x (String y (a ++ b)))
    with (startswith x (String y (a ++ b)) || str_in x (a ++ b)).
  rewrite IH. apply orb_true_r.
Qed.

Lemma str_in_here x b : str_in x (x ++ b) = true.
Proof.
  destruct (x ++ b)%string eqn:E.
  - destruct x; [reflexivity|discriminate].
  - rewrite <- E.
    assert (startswith x (x ++ b) = true) as H by apply startswith_self.
    rewrite E in *. simpl. rewrite H. reflexivity.
Qed.

Lemma str_take_all n s : (len s <= n)%nat -> str_take n s = s.
Proof.
  unfold len. revert n. induction s as [|c s IH]; intros n H; simpl in H.
  - destruct n; reflexivity.
  - destruct n; [lia|]. simpl. f_equal. apply IH. lia.
Qed.

Section Context.

Variables Vectorizer DocVectors : Type.
Variable cosine_scores : Vectorizer -> DocVectors -> string -> result (list Q).
Variable argsort : list Q -> list nat.
Variable format_3f : Q -> string.

(** The loop only appends. *)
Lemma blocks_from_extends docs : forall i context,
  exists more,
    blocks_from format_3f i docs context = (context ++ more)%string.
Proof.
  induction docs as [|d rest IH]; simpl; intros i context.
  - exists "". symmetry. apply KeyTerms.str_app_nil_r.
  - destruct (IH (S i) (add_block format_3f context i d)) as [more ->].
    unfold add_block. cbv zeta.
    destruct (1000 <? len (get_content d))%nat;
      rewrite !KeyTerms.str_app_assoc; eauto.
Qed.

Lemma add_block_holds x context i d :
  str_in x context = true -> str_in x (add_block format_3f context i d) = true.
Proof.
  intros H. unfold add_block. cbv zeta.
  destruct (1000 <? len (get_content d))%nat;
    rewrite !KeyTerms.str_app_assoc; apply str_in_app_l, H.
Qed.

Lemma blocks_from_holds x docs : forall i context,
  str_in x context = true ->
  str_in x (blocks_from format_3f i docs context) = true.
Proof.
  induction docs as [|d rest IH]; simpl; intros i context H; [exact H|].
  apply IH, add_block_holds, H.
Qed.

(** The block of a document names it and quotes the beginning of its
    content. *)
Lemma add_block_quotes context i d :
  str_in (default "Unknown" (file_name d))
    (add_block format_3f context i d) = true
  /\ str_in (str_take 1000 (get_content d))
       (add_block format_3f context i d) = true.
Proof.
  unfold add_block. cbv zeta. split.
  - destruct (1000 <? len (get_content d))%nat;
      apply str_in_app_l; do 4 apply str_in_app_r; apply str_in_here.
  - destruct (1000 <? len (get_content d))%nat eqn:E.
    + apply str_in_app_r, str_in_here.
    + apply Nat.ltb_ge in E. rewrite (str_take_all _ _ E).
      apply str_in_app_r, str_in_here.
Qed.

Lemma blocks_from_quotes docs : forall i context d,
  d ∈ docs ->
  str_in (default "Unknown" (file_name d))
    (blocks_from format_3f i docs context) = true
  /\ str_in (str_take 1000 (get_content d))
       (blocks_from format_3f i docs context) = true.
Proof.
  induction docs as [|d0 rest IH]; intros i context d Hd.
  - apply elem_of_nil in Hd. contradiction.
  - simpl. apply elem_of_cons in Hd. destruct Hd as [->|Hd].
    + destruct (add_block_quotes context i d0) as [H1 H2].
      split; apply blocks_from_holds; assumption.
    + apply IH, Hd.
Qed.

Lemma retrieve_returns self query top_k :
  exists l,
    retrieve_relevant_chunks Vectorizer DocVectors cosine_scores argsort self
      query top_k = Ok l.
Proof.
  unfold retrieve_relevant_chunks.
  destruct (doc_vectors self); [|eauto].
  destruct (is_empty (documents self)); [eauto|].
  destruct (retrieve_body _ _ _ _ _ _ _); simpl; eauto.
Qed.

(** X10. [search_documents] raises nothing, and what it returns is the
    sentence "No relevant documents found." exactly when
    [retrieve_relevant_chunks] returns no document. *)
Theorem search_documents_message
    (self : SimpleRetriever Vectorizer DocVectors) (query : string)
    (top_k : Z) :
  exists context,
    search_documents Vectorizer DocVectors cosine_scores argsort format_3f
      self query top_k = Ok context
    /\ (context = no_documents <->
        retrieve_relevant_chunks Vectorizer DocVectors cosine_scores argsort
          self query top_k = Ok []).
Proof.
  unfold search_documents.
  destruct (retrieve_returns self query top_k) as [l ->]. cbn [bind].
  destruct l as [|d rest]; cbn [is_empty].
  - exists no_documents. split; [reflexivity|]. tauto.
  - eexists. split; [reflexivity|]. split; [|discriminate].
    cbn [blocks_from].
    destruct (blocks_from_extends rest 1 (add_block format_3f "" 0 d))
      as [more ->].
    intros H.
    assert (startswith "R" (add_block format_3f "" 0 d ++ more) = true)
      as HR.
    { apply startswith_app. unfold add_block. cbv zeta.
      destruct (1000 <? len (get_content d))%nat; reflexivity. }
    rewrite H in HR. discriminate.
Qed.

(** X11. The context that [search_documents] returns names every
    retrieved document (or calls it "Unknown") and quotes the first
    1000 characters of its content, the whole content when it is not
    longer. *)
Theorem search_documents_quotes
    (self : SimpleRetriever Vectorizer DocVectors) (query : string)
    (top_k : Z) :
  exists l context,
    retrieve_relevant_chunks Vectorizer DocVectors cosine_scores argsort
      self query top_k = Ok l
    /\ search_documents Vectorizer DocVectors cosine_scores argsort format_3f
         self query top_k = Ok context
    /\ forall d, d ∈ l ->
         str_in (default "Unknown" (file_name d)) context = true
         /\ str_in (str_take 1000 (get_content d)) context = true
         /\ ((len (get_content d) <= 1000)%nat ->
             str_in (get_content d) context = true).
Proof.
  unfold search_documents.
  destruct (retrieve_returns self query top_k) as [l ->]. cbn [bind].
  exists l. destruct l as [|d0 rest]; cbn [is_empty].
  - exists no_documents. split; [reflexivity|]. split; [reflexivity|].
    intros d Hd. apply elem_of_nil in Hd. contradiction.
  - eexists. split; [reflexivity|]. split; [reflexivity|].
    intros d Hd.
    destruct (blocks_from_quotes (d0 :: rest) 0 "" d Hd) as [H1 H2].
    split; [exact H1|]. split; [exact H2|].
    intros Hlen. rewrite (str_take_all _ _ Hlen) in H2. exact H2.
Qed.

End Context.

End ContextProps.

(** ** The results are new objects *)

Module NewObjects.
Import Py.
Import Store.
Import StoreNotions.
Import Frame.
Local Open Scope list_scope.

Lemma sorted_refs_elem (keys : list Q) (l : list addr) a :
  a ∈ map snd (Retriever.sort_desc (combine keys l)) -> a ∈ l.
Proof.
  intros Ha. rewrite SortFacts.sort_desc_perm in Ha.
  apply list_elem_of_fmap in Ha. destruct Ha as ([s x] & -> & Hx).
  simpl. apply list_elem_of_In in Hx. apply in_combine_r in Hx.
  apply list_elem_of_In, Hx.
Qed.

Lemma Forall_slice {A} (P : A -> Prop) (l : list A) k :
  Forall P l -> Forall P (slice_to l k).
Proof.
  intros H. apply Forall_forall. intros x Hx.
  apply RetrieverFacts.slice_to_sublist in Hx.
  rewrite Forall_forall in H. apply H, Hx.
Qed.

Section Fresh.

Variables Vectorizer DocVectors : Type.
Variable cosine_scores : Vectorizer -> DocVectors -> string -> result (list Q).
Variable argsort : list Q -> list nat.
Variable st0 : State Vectorizer DocVectors.

Abbreviation keeps := (@keeps Vectorizer DocVectors).
Abbreviation fresh := (Forall (fresh_for Vectorizer DocVectors st0)).

Lemma keeps_add_tfidf_fresh ms (d : refdict) :
  fresh ms -> fresh (map snd d) ->
  keeps st0 (add_tfidf Vectorizer DocVectors ms d)
    (fun d' => fresh (map snd d')).
Proof.
  revert d. induction ms as [|a rest IH]; simpl; intros d Hms Hd.
  - apply keeps_ret. exact Hd.
  - inversion Hms; subst.
    eapply keeps_bind; [apply keeps_getitem_file_name|]. intros fn _.
    destruct (refdict_get fn d) as [cur|] eqn:E.
    + pose proof (refdict_get_fresh _ _ _ _ _ _ Hd E) as Hcur.
      eapply keeps_bind; [apply keeps_getitem_score|]. intros sc _.
      eapply keeps_bind; [apply keeps_getitem_score|]. intros sd _.
      destruct (Qltb sc sd); [|apply IH; assumption].
      eapply keeps_bind; [apply keeps_update, Hcur|]. intros _ _.
      eapply keeps_bind; [apply keeps_update, Hcur|]. intros _ _.
      apply IH; assumption.
    + apply IH; [assumption|]. apply refdict_set_fresh; assumption.
Qed.

Lemma keeps_sort_by_score_fresh l :
  fresh l -> keeps st0 (sort_by_score Vectorizer DocVectors l) fresh.
Proof.
  intros Hl. unfold sort_by_score.
  eapply keeps_bind; [apply keeps_mapS; intros; apply keeps_getitem_score|].
  intros keys _. apply keeps_ret.
  apply Forall_forall. intros a Ha. apply sorted_refs_elem in Ha.
  rewrite Forall_forall in Hl. apply Hl, Ha.
Qed.

Lemma keeps_search_fresh query top_k :
  keeps st0
    (_search_with_query Vectorizer DocVectors cosine_scores argsort query
       top_k) fresh.
Proof.
  unfold _search_with_query.
  apply keeps_try; [|intros e; apply keeps_ret; constructor].
  unfold search_body.
  eapply keeps_bind; [apply keeps_get_self|]. intros s _.
  eapply keeps_bind; [apply keeps_exact_loop|]. intros exact_matches Hexact.
  eapply keeps_bind; [apply keeps_similarities|]. intros sims _.
  eapply keeps_bind; [apply keeps_tfidf_loop|]. intros tfidf_matches Htfidf.
  eapply keeps_bind; [apply keeps_add_exact; [assumption|constructor]|].
  intros all1 Hall1.
  eapply keeps_bind; [apply keeps_add_tfidf_fresh; assumption|].
  intros all_matches Hall.
  eapply keeps_bind; [apply keeps_sort_by_score_fresh, Hall|].
  intros relevant_docs Hrel.
  apply keeps_ret. apply Forall_slice, Hrel.
Qed.

Lemma keeps_search_words_fresh top_k words acc :
  fresh acc ->
  keeps st0
    (search_words Vectorizer DocVectors cosine_scores argsort top_k words acc)
    fresh.
Proof.
  revert acc. induction words as [|w rest IH]; simpl; intros acc Hacc.
  - apply keeps_ret. exact Hacc.
  - destruct (4 <? len w)%nat; [|apply IH, Hacc].
    eapply keeps_bind; [apply keeps_search_fresh|]. intros word_results Hw.
    assert (fresh (acc ++ word_results)) as Happ
      by (apply Forall_app; split; assumption).
    destruct (Retriever.is_empty word_results);
      [apply IH, Happ|apply keeps_ret, Happ].
Qed.

Lemma keeps_unique_from_fresh seen l :
  fresh l -> keeps st0 (unique_from Vectorizer DocVectors seen l) fresh.
Proof.
  revert seen. induction l as [|a rest IH]; simpl; intros seen Hl.
  - apply keeps_ret. constructor.
  - inversion Hl; subst. eapply keeps_bind.
    { unfold doc_id. eapply keeps_bind; [apply keeps_read|].
      intros d _. apply keeps_lift. }
    intros i _. destruct (existsb _ seen); [apply IH; assumption|].
    eapply keeps_bind; [apply IH; assumption|]. intros u Hu.
    apply keeps_ret. constructor; assumption.
Qed.

Lemma keeps_sort_by_score_default_fresh l :
  fresh l ->
  keeps st0 (sort_by_score_default Vectorizer DocVectors l) fresh.
Proof.
  intros Hl. unfold sort_by_score_default.
  eapply keeps_bind.
  { apply keeps_mapS. intros a. eapply keeps_bind; [apply keeps_read|].
    intros d _. apply keeps_ret. exact I. }
  intros keys _. apply keeps_ret.
  apply Forall_forall. intros a Ha. apply sorted_refs_elem in Ha.
  rewrite Forall_forall in Hl. apply Hl, Ha.
Qed.

Lemma keeps_retrieve_fresh query top_k :
  keeps st0
    (retrieve_relevant_chunks Vectorizer DocVectors cosine_scores argsort
       query top_k) fresh.
Proof.
  unfold retrieve_relevant_chunks.
  eapply keeps_bind; [apply keeps_get_self|]. intros s _.
  destruct (doc_vectors s); [|apply keeps_ret; constructor].
  destruct (Retriever.is_empty (documents s));
    [apply keeps_ret; constructor|].
  apply keeps_try; [|intros e; apply keeps_ret; constructor].
  unfold retrieve_body.
  eapply keeps_bind; [apply keeps_search_fresh|]. intros results1 H1.
  eapply keeps_bind.
  { destruct (Retriever.is_empty results1); [|apply keeps_ret, H1].
    cbv zeta. destruct (_ && _); [|apply keeps_ret, H1].
    eapply keeps_bind; [apply keeps_search_fresh|]. intros results2 H2.
    apply keeps_ret. apply Forall_app. split; assumption. }
  intros all_results Hall.
  eapply keeps_bind.
  { destruct (Retriever.is_empty all_results);
      [apply keeps_search_words_fresh, Hall|apply keeps_ret, Hall]. }
  intros all_results' Hall'.
  eapply keeps_bind; [apply keeps_unique_from_fresh, Hall'|].
  intros unique_results Hu.
  eapply keeps_bind; [apply keeps_sort_by_score_default_fresh, Hu|].
  intros sorted Hs.
  apply keeps_ret. apply Forall_slice, Hs.
Qed.

End Fresh.

Section Claim.

Variables Vectorizer DocVectors : Type.
Variable cosine_scores : Vectorizer -> DocVectors -> string -> result (list Q).
Variable argsort : list Q -> list nat.

(** X12. The dictionaries that [retrieve_relevant_chunks] returns are
    objects made during the call: none of them is an object that was
    there before, so that none is a stored document, and what a caller
    writes to a result reaches no document of the retriever. *)
Theorem results_are_new_objects
    (st : State Vectorizer DocVectors) (query : string) (top_k : Z) :
  exists refs st',
    retrieve_relevant_chunks Vectorizer DocVectors cosine_scores argsort
      query top_k st = (Ok refs, st')
    /\ Forall (fun a => heap st !! a = None) refs
    /\ forall a d, heap st !! a = Some d -> a ∉ refs.
Proof.
  destruct (keeps_retrieve_fresh Vectorizer DocVectors cosine_scores argsort
              st query top_k st (extends_refl _ _ st)) as [_ Hpost].
  assert (exists refs st',
            retrieve_relevant_chunks Vectorizer DocVectors cosine_scores
              argsort query top_k st = (Ok refs, st')) as (refs & st' & E).
  { unfold retrieve_relevant_chunks, bindS, get_self.
    destruct (doc_vectors (self st)); [|unfold ret; eauto].
    destruct (Retriever.is_empty (documents (self st)));
      [unfold ret; eauto|].
    unfold tryS.
    destruct (retrieve_body _ _ _ _ _ _ st) as [[l|e] st1];
      unfold ret; eauto. }
  exists refs, st'. split; [exact E|].
  rewrite E in Hpost. specialize (Hpost refs eq_refl).
  split; [exact Hpost|].
  intros a d Ha Hin. rewrite Forall_forall in Hpost.
  specialize (Hpost a Hin). unfold fresh_for in Hpost. congruence.
Qed.

End Claim.

End NewObjects.

(** * More properties of the document loaders *)

(** ** The cache of OCR results ([document_loader.py]) *)

Module OcrCacheProps.
Import Py.
Import Retriever.
Import Files.
Local Open Scope list_scope.

(** the cache entry of a file *)
Lemma get_cache_path_run file_path fs :
  path_exists fs "cache" = true ->
  DocumentLoader.get_cache_path file_path fs
  = (Ok (path_join "cache"
           (fst (splitext (basename file_path)) ++ "_ocr_cache.json")), fs).
Proof.
  intros H. unfold DocumentLoader.get_cache_path, bindM, ensure_cache_dir.
  rewrite H. reflexivity.
Qed.



Section Cache.

Variable lib : DocumentLoader.Libraries.

(** the hash that [get_file_hash] computes from the bytes of a file *)
Abbreviation hash_of := (fun bytes =>
  DocumentLoader.md5_hexdigest lib
    (fold_left (DocumentLoader.md5_update lib) (chunks 4096 bytes)
       (DocumentLoader.md5_new lib))).

(** the entry that [save_to_cache] writes *)
Abbreviation entry_of := (fun bytes content cached_at =>
  JObj [("file_hash", JStr (hash_of bytes)); ("content", JStr content);
        ("cached_at", JStr cached_at)]).

Abbreviation cache_path_of := (fun file_path =>
  path_join "cache"
    (fst (splitext (basename file_path)) ++ "_ocr_cache.json")).





(** X14. With the cache directory in place [save_to_cache] raises
    nothing, whatever fails on the way, and it changes nothing but the
    cache entry of the file: a file that cannot be read, or a directory
    that cannot be written, leaves the file system as it was. *)
Theorem save_to_cache_frame file_path content fs :
  path_exists fs "cache" = true ->
  exists fs',
    DocumentLoader.save_to_cache lib file_path content fs = (Ok tt, fs')
    /\ can_write fs' = can_write fs
    /\ (forall p,
          p <> path_join "cache"
                 (fst (splitext (basename file_path)) ++ "_ocr_cache.json") ->
          nodes fs' !! p = nodes fs !! p)
    /\ ((forall e, read_file fs file_path = Raise e -> fs' = fs)
        /\ (can_write fs = false -> fs' = fs)).
Proof.
  intros Hdir. unfold DocumentLoader.save_to_cache.
  unfold bindM at 1. rewrite (get_cache_path_run file_path fs Hdir).
  unfold tryM, bindM, DocumentLoader.get_file_hash, lift.
  destruct (read_file fs file_path) as [bytes|e] eqn:Hread; cbn [bind].
  2:{ exists fs. repeat split; auto. }
  destruct (DocumentLoader.getmtime_str lib fs file_path) as [t|e].
  2:{ exists fs. repeat split; auto. }
  unfold write_file. destruct (can_write fs) eqn:Hw.
  - eexists. split; [reflexivity|]. cbn [can_write nodes].
    split; [reflexivity|]. split; [|split].
    + intros p Hp. apply lookup_insert_ne. congruence.
    + intros e He. discriminate.
    + discriminate.
  - exists fs. repeat split; auto.
Qed.


End Cache.


Lemma save_to_cache_frame_witness :
  exists fs',
    DocumentLoader.save_to_cache Samples.loader_lib "data/scan.pdf"
      "page one" Samples.cached_fs = (Ok tt, fs')
    /\ can_write fs' = can_write Samples.cached_fs.
Proof.
  destruct (save_to_cache_frame Samples.loader_lib "data/scan.pdf" "page one"
              Samples.cached_fs eq_refl) as (fs' & H1 & H2 & _).
  exists fs'. split; [exact H1|exact H2].
Defined.


End OcrCacheProps.

(** ** The hash of a file ([document_loader.py]) *)

Module HashProps.
Import Py.
Import Files.
Local Open Scope list_scope.

Lemma str_take_drop n s : (str_take n s ++ str_drop n s)%string = s.
Proof.
  revert s. induction n as [|n IH]; intros s; [reflexivity|].
  destruct s as [|c s]; [reflexivity|]. simpl.
  rewrite KeyTerms.str_app_cons. f_equal. apply IH.
Qed.

Lemma len_str_drop n s : len (str_drop n s) = (len s - n)%nat.
Proof.
  unfold len. revert s. induction n as [|n IH]; intros s; simpl; [lia|].
  destruct s as [|c s]; simpl; [reflexivity|]. apply IH.
Qed.

Lemma len_str_take n s : len (str_take n s) = Nat.min n (len s).
Proof.
  unfold len. revert s. induction n as [|n IH]; intros s; simpl;
    [reflexivity|].
  destruct s as [|c s]; simpl; [reflexivity|]. rewrite IH. reflexivity.
Qed.

Lemma concat_cons (x : string) l :
  String.concat "" (x :: l) = (x ++ String.concat "" l)%string.
Proof.
  destruct l as [|y l]; simpl; [|reflexivity].
  symmetry. apply KeyTerms.str_app_nil_r.
Qed.

(** Reading by chunks until the empty chunk reads the whole string. *)
Lemma chunks_fuel_whole size : forall fuel s,
  (1 <= size)%nat -> (len s <= fuel)%nat ->
  String.concat "" (chunks_fuel fuel size s) = s
  /\ Forall (fun c => 1 <= len c <= size)%nat (chunks_fuel fuel size s).
Proof.
  induction fuel as [|fuel IH]; intros s Hsize Hlen.
  - destruct s; [split; [reflexivity|constructor]|].
    unfold len in Hlen. simpl in Hlen. lia.
  - cbn [chunks_fuel]. destruct (String.eqb_spec s "") as [->|Hne].
    + split; [reflexivity|constructor].
    + assert (1 <= len s)%nat as Hpos.
      { destruct s; [congruence|]. unfold len. simpl. lia. }
      destruct (IH (str_drop size s) Hsize) as [Hc Hf].
      { rewrite len_str_drop. lia. }
      split.
      * rewrite concat_cons, Hc. apply str_take_drop.
      * constructor; [|exact Hf]. rewrite len_str_take. lia.
Qed.

Section Hash.

Variable lib : DocumentLoader.Libraries.

(** X16. [get_file_hash] hashes the whole file: the chunks that it
    gives to the hash, each of 1 to 4096 bytes, are the bytes of the
    file in order. It leaves the file system as it is, and it raises
    when the file cannot be read. *)
Theorem file_hash_covers_file file_path fs :
  (forall bytes, read_file fs file_path = Ok bytes ->
     exists pieces,
       DocumentLoader.get_file_hash lib file_path fs
       = (Ok (DocumentLoader.md5_hexdigest lib
                (fold_left (DocumentLoader.md5_update lib) pieces
                   (DocumentLoader.md5_new lib))), fs)
       /\ String.concat "" pieces = bytes
       /\ Forall (fun c => 1 <= len c <= 4096)%nat pieces)
  /\ (forall e, read_file fs file_path = Raise e ->
        DocumentLoader.get_file_hash lib file_path fs = (Raise e, fs)).
Proof.
  unfold DocumentLoader.get_file_hash, lift. split.
  - intros bytes ->. exists (chunks 4096 bytes). split; [reflexivity|].
    unfold chunks. apply chunks_fuel_whole; lia.
  - intros e ->. reflexivity.
Qed.

End Hash.

End HashProps.

(** ** What the loaders return *)

Module LoadedDocuments.
Import Py.
Import Retriever.
Import Files.
Import MoreNotions.
Local Open Scope list_scope.

Lemma new_doc_loaded path text ext :
  strip_nonempty text = true ->
  loaded_from path (DocumentLoader.new_doc (basename path) path text ext).
Proof.
  intros H. unfold loaded_from, DocumentLoader.new_doc. simpl.
  repeat split; eauto.
Qed.

Lemma placeholder_not_blank file_name :
  strip_nonempty (DocumentLoader.placeholder file_name) = true.
Proof. reflexivity. Qed.

Section Plain.

Variable lib : DocumentLoader.Libraries.

(** The document of a file that [load_file] could load. *)
Lemma load_file_shape file_path fs d fs' :
  DocumentLoader.load_file lib file_path fs = (Ok d, fs') ->
  loaded_from file_path d
  /\ file_type d = Some (lower (snd (splitext (basename file_path)))).
Proof.
  unfold DocumentLoader.load_file. cbv zeta. unfold bindM at 1.
  destruct (_ fs) as [[content|e] fs1]; [|discriminate].
  unfold bindM, lift, strip_truthy.
  destruct content as [| | |text| |]; try discriminate.
  destruct (strip_nonempty text) eqn:E; unfold ret; intros [= <- <-].
  - split; [apply new_doc_loaded, E|reflexivity].
  - split; [apply new_doc_loaded, placeholder_not_blank|reflexivity].
Qed.

Lemma load_files_shape files : forall documents fs,
  exists docs fs' kept,
    DocumentLoader.load_files lib files documents fs
    = (Ok (documents ++ docs), fs')
    /\ kept `sublist_of` files
    /\ Forall2 (fun path d =>
                  loaded_from path d
                  /\ file_type d
                     = Some (lower (snd (splitext (basename path)))))
         kept docs.
Proof.
  induction files as [|file_path rest IH]; intros documents fs.
  - exists [], fs, []. rewrite app_nil_r.
    split; [reflexivity|]. split; constructor.
  - cbn [DocumentLoader.load_files]. unfold bindM at 1. unfold tryM at 1.
    unfold bindM at 1.
    destruct (DocumentLoader.load_file lib file_path fs) as [[d|e] fs1]
      eqn:E; unfold ret.
    + destruct (IH (documents ++ [d]) fs1) as (docs & fs' & kept & Hrun
                                               & Hsub & Hall).
      exists (d :: docs), fs', (file_path :: kept).
      rewrite Hrun, <- app_assoc. split; [reflexivity|].
      split; [apply sublist_skip, Hsub|].
      constructor; [|exact Hall]. eapply load_file_shape. exact E.
    + destruct (IH documents fs1) as (docs & fs' & kept & Hrun & Hsub & Hall).
      exists docs, fs', kept. split; [exact Hrun|].
      split; [apply sublist_cons, Hsub|exact Hall].
Qed.

(** X17. [load_documents_from_folder] raises nothing. Its documents are
    those of some of the files that [glob] found, in the order in which
    it found them, one for each file whose extraction did not raise;
    each has the base name of its file for name, the path, the
    lowercased extension for type, and a content that is not blank: a
    file without text has the placeholder for content. *)
Theorem loaded_documents_shape (folder_path : string) (fs : FS) :
  exists docs fs' kept,
    DocumentLoader.load_documents_from_folder lib folder_path fs
    = (Ok docs, fs')
    /\ kept `sublist_of` DocumentLoader.all_files lib fs folder_path
    /\ Forall2 (fun path d =>
                  loaded_from path d
                  /\ file_type d
                     = Some (lower (snd (splitext (basename path)))))
         kept docs.
Proof.
  unfold DocumentLoader.load_documents_from_folder.
  destruct (path_exists fs folder_path); cbn [negb].
  - destruct (load_files_shape (DocumentLoader.all_files lib fs folder_path)
                [] fs) as (docs & fs' & kept & Hrun & Hsub & Hall).
    exists docs, fs', kept. auto.
  - exists [], fs, []. split; [reflexivity|].
    split; [apply sublist_nil_l|constructor].
Qed.

(** The loop over the images always comes to its end. *)
Lemma extract_images_returns stem blobs : forall images fs,
  exists images' fs',
    DocumentLoader.extract_images lib stem blobs images fs
    = (Ok images', fs').
Proof.
  induction blobs as [|blob rest IH]; intros images fs.
  - exists images, fs. reflexivity.
  - cbn [DocumentLoader.extract_images]. unfold bindM at 1. unfold tryM.
    destruct (bindM _ _ fs) as [[images1|e] fs1]; unfold ret; apply IH.
Qed.

(** X18. [load_docx] fails only when the document cannot be opened: an
    image that cannot be read or saved is skipped, and the text that is
    returned begins with the text of all the paragraphs; without
    images it is this text and nothing is written. *)
Theorem load_docx_survives_images file_path fs :
  (forall blobs paragraphs,
     DocumentLoader.docx_document lib fs file_path = Ok (blobs, paragraphs) ->
     exists text fs',
       DocumentLoader.load_docx lib file_path fs = (Ok text, fs')
       /\ startswith
            (String.concat "" (map (fun t => t ++ nl)%string paragraphs))
            text = true
       /\ (blobs = [] ->
           text = String.concat "" (map (fun t => t ++ nl)%string paragraphs)
           /\ fs' = fs))
  /\ (forall e,
        DocumentLoader.docx_document lib fs file_path = Raise e ->
        DocumentLoader.load_docx lib file_path fs
        = (Raise (Exception ("Error reading DOCX: " ++ str_exn e)), fs)).
Proof.
  unfold DocumentLoader.load_docx. split.
  - intros blobs paragraphs Hdoc. unfold tryM, bindM at 1, lift.
    rewrite Hdoc. cbn [fst snd]. unfold bindM.
    destruct (extract_images_returns
                (fst (splitext (basename file_path))) blobs [] fs)
      as (images & fs' & Hrun).
    pose proof Hrun as Hrun'. rewrite Hrun.
    destruct images as [|img images]; cbn [is_empty]; unfold ret.
    + eexists. eexists. split; [reflexivity|].
      split.
      * rewrite <- (KeyTerms.str_app_nil_r (String.concat _ _)) at 2.
        apply ContextProps.startswith_self.
      * intros ->. simpl in Hrun'. injection Hrun' as <-. auto.
    + eexists. eexists. split; [reflexivity|].
      split; [apply ContextProps.startswith_self|].
      intros ->. simpl in Hrun'. discriminate.
  - intros e Hdoc. unfold tryM, bindM, lift. rewrite Hdoc. reflexivity.
Qed.

(** X19. Without OCR [load_documents_from_folder] loses no PDF: for a
    path with the extension [.pdf], in any case of letters, the body of
    the loop returns a document whatever PyPDF2 does, and it writes
    nothing. *)
Theorem pdf_is_never_dropped file_path fs :
  DocumentLoader.ocr_available lib = false ->
  lower (snd (splitext (basename file_path))) = ".pdf" ->
  exists d,
    DocumentLoader.load_file lib file_path fs = (Ok d, fs)
    /\ loaded_from file_path d.
Proof.
  intros Hocr Hext.
  assert (exists text,
            DocumentLoader.load_pdf lib file_path fs = (Ok (JStr text), fs))
    as [text Hpdf].
  { unfold DocumentLoader.load_pdf. cbv zeta. unfold tryM, bindM at 1, lift.
    destruct (DocumentLoader.pdf_reader lib fs file_path) as [pages|e];
      [|unfold ret; eauto].
    destruct (0 <? _)%nat; [unfold ret; eauto|].
    unfold DocumentLoader.extract_text_with_ocr. rewrite Hocr.
    cbn [negb]. unfold ret. eauto. }
  destruct (DocumentLoader.load_file lib file_path fs) as [r fs1] eqn:E.
  pose proof E as E'. revert E'.
  unfold DocumentLoader.load_file. cbv zeta. rewrite Hext.
  cbn [String.eqb Ascii.eqb Bool.eqb andb]. unfold bindM at 1.
  rewrite Hpdf. unfold bindM, lift, strip_truthy.
  destruct (strip_nonempty text) eqn:Et; unfold ret; intros [= <- <-];
    eexists; (split; [reflexivity|]).
  - apply new_doc_loaded, Et.
  - apply new_doc_loaded, placeholder_not_blank.
Qed.

End Plain.

Section WithOcr.

Variable lib : DocumentLoaderWithOcr.Libraries.

Lemma load_file_with_ocr_shape fs file_path d :
  DocumentLoaderWithOcr.load_file lib fs file_path = Ok d ->
  loaded_from file_path d.
Proof.
  unfold DocumentLoaderWithOcr.load_file. cbv zeta.
  destruct (if String.eqb _ ".pdf" then _ else _) as [content|e];
    cbn [bind]; [|discriminate].
  destruct (strip_nonempty content) eqn:E; intros [= <-].
  - unfold loaded_from, DocumentLoaderWithOcr.new_doc. simpl.
    repeat split; eauto.
  - unfold loaded_from, DocumentLoaderWithOcr.new_doc. simpl.
    repeat split; eauto.
Qed.

Lemma error_doc_loaded file_path e :
  loaded_from file_path (DocumentLoaderWithOcr.error_doc file_path e).
Proof.
  unfold loaded_from, DocumentLoaderWithOcr.error_doc,
    DocumentLoaderWithOcr.new_doc. simpl.
  repeat split; eauto.
Qed.

Lemma load_files_with_ocr_shape fs files : forall documents,
  exists docs,
    DocumentLoaderWithOcr.load_files lib fs files documents
    = documents ++ docs
    /\ Forall2 loaded_from files docs.
Proof.
  induction files as [|file_path rest IH]; intros documents.
  - exists []. rewrite app_nil_r. split; [reflexivity|constructor].
  - cbn [DocumentLoaderWithOcr.load_files].
    destruct (DocumentLoaderWithOcr.load_file lib fs file_path) as [d|e]
      eqn:E.
    + destruct (IH (documents ++ [d])) as (docs & -> & Hall).
      exists (d :: docs). rewrite <- app_assoc. split; [reflexivity|].
      constructor; [|exact Hall]. eapply load_file_with_ocr_shape, E.
    + destruct (IH (documents ++
                      [DocumentLoaderWithOcr.error_doc file_path e]))
        as (docs & -> & Hall).
      exists (DocumentLoaderWithOcr.error_doc file_path e :: docs).
      rewrite <- app_assoc. split; [reflexivity|].
      constructor; [|exact Hall]. apply error_doc_loaded.
Qed.

(** X20. [load_documents_from_folder_with_ocr] returns one document
    for each file that [glob] found, in the same order: the document of
    a file has the base name of the file for name, its path, and a
    content that is not blank, be it the text, the note that the
    document could not be processed, or the error. *)
Theorem loaded_with_ocr_shape (folder_path : string) (fs : FS) :
  path_exists fs folder_path = true ->
  exists docs,
    DocumentLoaderWithOcr.load_documents_from_folder_with_ocr lib fs
      folder_path = Ok docs
    /\ Forall2 loaded_from
         (DocumentLoaderWithOcr.all_files lib fs folder_path) docs.
Proof.
  intros Hex.
  unfold DocumentLoaderWithOcr.load_documents_from_folder_with_ocr.
  rewrite Hex. cbn [negb].
  destruct (load_files_with_ocr_shape fs
              (DocumentLoaderWithOcr.all_files lib fs folder_path) [])
    as (docs & -> & Hall).
  exists docs. split; [reflexivity|exact Hall].
Qed.

End WithOcr.

Lemma pdf_is_never_dropped_witness :
  exists d,
    DocumentLoader.load_file Samples.loader_lib "data/Scan.PDF"
      Samples.cached_fs = (Ok d, Samples.cached_fs)
    /\ loaded_from "data/Scan.PDF" d.
Proof.
  apply (pdf_is_never_dropped Samples.loader_lib "data/Scan.PDF"
           Samples.cached_fs).
  - reflexivity.
  - reflexivity.
Defined.

Lemma loaded_with_ocr_shape_witness :
  exists docs,
    DocumentLoaderWithOcr.load_documents_from_folder_with_ocr Samples.ocr_lib
      Samples.locked_fs "data/" = Ok docs
    /\ Forall2 loaded_from
         (DocumentLoaderWithOcr.all_files Samples.ocr_lib Samples.locked_fs
            "data/") docs.
Proof.
  apply (loaded_with_ocr_shape Samples.ocr_lib "data/" Samples.locked_fs).
  reflexivity.
Defined.

End LoadedDocuments.
